(** * Recipe API: the child-collection reconciler, the recipe query filter
      and the image endpoint of [app/recipe], over a relational store.

    The development follows [app/recipe/serializers.py] and
    [app/recipe/views.py].  The persistent store is a record of tables, the
    ORM calls the two files make are functions on it, and code that can
    raise is written in a state-and-exception monad: an exception leaves
    the store as it was at the time it was raised. *)

From stdpp Require Import base list strings sorting.
From Stdlib Require Import ZArith String Ascii Lia.

Local Open Scope string_scope.
Local Open Scope list_scope.
Local Open Scope Z_scope.

(** ** Python values and dictionaries *)

(** The values that travel in a request payload or in [validated_data].
    A validated tag or ingredient spec is the dictionary [{"name": N}]
    (the nested serializers declare the fields [id], read only, and [name]),
    so a validated list of specs is carried as the list of its names. *)
Inductive value : Type :=
| VNone
| VStr (s : string)
| VInt (n : Z)
| VDecimal (hundredths : Z)
| VUser (u : Z)
| VSpecs (names : list string)
| VFile (content : string).

Global Instance value_eq_dec : EqDecision value.
Proof. solve_decision. Defined.

(** A [dict] keeps its insertion order, as Python's does. *)
Abbreviation dict := (list (string * value)).

Fixpoint dict_get (k : string) (d : dict) : option value :=
  match d with
  | [] => None
  | (k', v) :: d' => if decide (k' = k) then Some v else dict_get k d'
  end.

Definition dict_del (k : string) (d : dict) : dict :=
  filter (λ kv, kv.1 ≠ k) d.

(** [d.pop(k, default)]: the value under [k], or [default], and the
    dictionary without [k]. *)
Definition dict_pop (k : string) (default : value) (d : dict) : value * dict :=
  match dict_get k d with
  | Some v => (v, dict_del k d)
  | None => (default, d)
  end.

(** [d[k] = v]: in place when [k] is a key of [d], at the end otherwise. *)
Definition dict_set (k : string) (v : value) (d : dict) : dict :=
  if decide (k ∈ d.*1) then
    (λ kv, if decide (kv.1 = k) then (k, v) else kv) <$> d
  else d ++ [(k, v)].

(** The merge of [d] with the keyword arguments [kwargs], which win. *)
Definition dict_merge (d kwargs : dict) : dict :=
  foldl (λ acc kv, dict_set kv.1 kv.2 acc) d kwargs.

(** ** The store *)

(** Modelled from the spec: [core/models.py] is not part of the sources at
    hand.  A tag and an ingredient are both [{id, name, owner}]; the owner
    field is called [user] in the code that uses the models. *)
Record Attr : Type := mkAttr {
  attr_id : Z;
  attr_name : string;
  attr_user : Z
}.

Global Instance Attr_eq_dec : EqDecision Attr.
Proof. solve_decision. Defined.

(** The image field of a recipe: empty, a blob in the media store, or a
    file that was assigned and is written on the next [save]. *)
Inductive image_field : Type :=
| NoImage
| StoredImage (blob : Z)
| PendingImage (content : string).

Global Instance image_field_eq_dec : EqDecision image_field.
Proof. solve_decision. Defined.

(** Modelled from the spec: the columns of [core.models.Recipe], whose
    many-to-many fields [tags] and [ingredients] live in link tables. *)
Record Recipe : Type := mkRecipe {
  recipe_id : Z;
  recipe_title : string;
  recipe_time_minutes : Z;
  recipe_price : Z;
  recipe_link : string;
  recipe_description : string;
  recipe_user : Z;
  recipe_image : image_field
}.

Global Instance Recipe_eq_dec : EqDecision Recipe.
Proof. solve_decision. Defined.

(** A child table with its sequence and the link table that joins it to the
    recipes: a link is [(recipe id, child id)]. *)
Record Table : Type := mkTable {
  rows : list Attr;
  next_id : Z;
  links : list (Z * Z)
}.

Record DB : Type := mkDB {
  recipes : list Recipe;
  next_recipe_id : Z;
  tag_table : Table;
  ingredient_table : Table;
  media : list (Z * string);
  next_blob : Z
}.

Inductive kind : Type := KTag | KIngredient.

Global Instance kind_eq_dec : EqDecision kind.
Proof. solve_decision. Defined.

Definition table (k : kind) (db : DB) : Table :=
  match k with
  | KTag => tag_table db
  | KIngredient => ingredient_table db
  end.

Definition set_table (k : kind) (t : Table) (db : DB) : DB :=
  match k with
  | KTag =>
      mkDB (recipes db) (next_recipe_id db) t (ingredient_table db)
           (media db) (next_blob db)
  | KIngredient =>
      mkDB (recipes db) (next_recipe_id db) (tag_table db) t
           (media db) (next_blob db)
  end.

Definition set_recipes (rs : list Recipe) (db : DB) : DB :=
  mkDB rs (next_recipe_id db) (tag_table db) (ingredient_table db)
       (media db) (next_blob db).

Definition empty_table : Table := mkTable [] 1 [].
Definition empty_db : DB := mkDB [] 1 empty_table empty_table [] 1.

(** ** Exceptions and the monad of store operations *)

Inductive exn : Type :=
| ValueError
| TypeError
| MultipleObjectsReturned
| IntegrityError
| Http404
| ValidationError (fields : list string).

Inductive outcome (A : Type) : Type :=
| Return (a : A)
| Raise (e : exn).
Arguments Return {A} a.
Arguments Raise {A} e.

Definition M (A : Type) : Type := DB → outcome A * DB.

Definition ret {A} (a : A) : M A := λ db, (Return a, db).
Definition raise {A} (e : exn) : M A := λ db, (Raise e, db).
Definition bind {A B} (m : M A) (f : A → M B) : M B :=
  λ db, match m db with
        | (Return a, db') => f a db'
        | (Raise e, db') => (Raise e, db')
        end.

Notation "'let*' x ':=' m 'in' k" := (bind m (λ x, k))
  (at level 10, x pattern, m at level 100, k at level 200).

(** [for x in l: body(x)] *)
Fixpoint for_each {A} (l : list A) (body : A → M unit) : M unit :=
  match l with
  | [] => ret tt
  | x :: l' => let* _ := body x in for_each l' body
  end.

(** ** The ORM calls of the two files *)

Definition same_owner_name (u : Z) (name : string) (a : Attr) : Prop :=
  attr_user a = u ∧ attr_name a = name.

Global Instance same_owner_name_dec u name a :
  Decision (same_owner_name u name a).
Proof. unfold same_owner_name. apply _. Defined.

(** [Model.objects.get_or_create(user=u, name=name)]: the row that matches,
    a new row when none does, and [MultipleObjectsReturned] when several
    do.  The result is the row and the [created] flag. *)
Definition objects_get_or_create (k : kind) (u : Z) (name : string)
  : M (Attr * bool) :=
  λ db,
    let t := table k db in
    match filter (same_owner_name u name) (rows t) with
    | [] =>
        let a := mkAttr (next_id t) name u in
        (Return (a, true),
         set_table k (mkTable (rows t ++ [a]) (next_id t + 1) (links t)) db)
    | [a] => (Return (a, false), db)
    | _ :: _ :: _ => (Raise MultipleObjectsReturned, db)
    end.

(** [recipe.<related>.add(obj)]: a link that is there already is not added
    a second time. *)
Definition related_add (k : kind) (r : Recipe) (a : Attr) : M unit :=
  λ db,
    let t := table k db in
    let l := (recipe_id r, attr_id a) in
    if decide (l ∈ links t) then (Return tt, db)
    else (Return tt,
          set_table k (mkTable (rows t) (next_id t) (links t ++ [l])) db).

(** [recipe.<related>.clear()] *)
Definition related_clear (k : kind) (r : Recipe) : M unit :=
  λ db,
    let t := table k db in
    (Return tt,
     set_table k
       (mkTable (rows t) (next_id t)
                (filter (λ l, l.1 ≠ recipe_id r) (links t))) db).

(** A file assigned to the image field is written to the media store when
    the row is saved; the generated path is a fresh blob number. *)
Definition pre_save (r : Recipe) : M Recipe :=
  λ db,
    match recipe_image r with
    | PendingImage content =>
        let b := next_blob db in
        (Return (mkRecipe (recipe_id r) (recipe_title r)
                   (recipe_time_minutes r) (recipe_price r) (recipe_link r)
                   (recipe_description r) (recipe_user r) (StoredImage b)),
         mkDB (recipes db) (next_recipe_id db) (tag_table db)
              (ingredient_table db) (media db ++ [(b, content)]) (b + 1))
    | _ => (Return r, db)
    end.

(** [instance.save()]: the row with the instance's id is overwritten; a row
    is inserted when there is none. *)
Definition save (instance : Recipe) : M Recipe :=
  let* r := pre_save instance in
  λ db,
    if decide (recipe_id r ∈ recipe_id <$> recipes db) then
      (Return r,
       set_recipes
         ((λ x, if decide (recipe_id x = recipe_id r) then r else x)
            <$> recipes db) db)
    else (Return r, set_recipes (recipes db ++ [r]) db).

(** [setattr(instance, attr, value)] on the columns of a recipe.  Validation
    has given every value the type of its field before this runs; an
    attribute that is no column, or a value of another type, leaves the
    columns as they are. *)
Definition setattr (r : Recipe) (attr : string) (v : value) : Recipe :=
  let '(mkRecipe i t m p l d u img) := r in
  if decide (attr = "title") then
    match v with VStr s => mkRecipe i s m p l d u img | _ => r end
  else if decide (attr = "time_minutes") then
    match v with VInt n => mkRecipe i t n p l d u img | _ => r end
  else if decide (attr = "price") then
    match v with VDecimal n => mkRecipe i t m n l d u img | _ => r end
  else if decide (attr = "link") then
    match v with VStr s => mkRecipe i t m p s d u img | _ => r end
  else if decide (attr = "description") then
    match v with VStr s => mkRecipe i t m p l s u img | _ => r end
  else if decide (attr = "user") then
    match v with VUser n => mkRecipe i t m p l d n img | _ => r end
  else if decide (attr = "image") then
    match v with
    | VFile c => mkRecipe i t m p l d u (PendingImage c)
    | VNone => mkRecipe i t m p l d u NoImage
    | _ => r
    end
  else r.

(** [for attr, value in d.items(): setattr(instance, attr, value)] *)
Definition setattrs (r : Recipe) (d : dict) : Recipe :=
  foldl (λ acc kv, setattr acc kv.1 kv.2) r d.

(** Modelled from the spec: [Recipe.objects.create] with its keyword
    arguments; the owner, the title, the time and the price are mandatory
    columns, the link, the description and the image are optional.  The row
    is built from the keyword arguments and inserted under the next id of
    the sequence. *)
Definition Recipe_objects_create (kwargs : dict) : M Recipe :=
  match dict_get "user" kwargs, dict_get "title" kwargs,
        dict_get "time_minutes" kwargs, dict_get "price" kwargs with
  | Some (VUser _), Some (VStr _), Some (VInt _), Some (VDecimal _) =>
      let* r :=
        (λ db,
           let blank := mkRecipe (next_recipe_id db) "" 0 0 "" "" 0 NoImage in
           pre_save (setattrs blank kwargs) db) in
      λ db,
        (Return r,
         mkDB (recipes db ++ [r]) (next_recipe_id db + 1) (tag_table db)
              (ingredient_table db) (media db) (next_blob db))
  | _, _, _, _ => raise IntegrityError
  end.

(** ** [recipe/serializers.py]: RecipeSerializer *)

(** The loops of the serializer run over a validated list of specs; any
    other value under the key is not a list of dictionaries. *)
Definition iter_specs (v : value) : M (list string) :=
  match v with
  | VSpecs names => ret names
  | _ => raise TypeError
  end.

Module RecipeSerializer.

(** [auth_user] is [self.context["request"].user]. *)
Definition _get_or_create_tags (auth_user : Z) (tags : value)
    (recipe : Recipe) : M unit :=
  let* tags := iter_specs tags in
  for_each tags (λ tag,
    let* (tag_obj, created) := objects_get_or_create KTag auth_user tag in
    related_add KTag recipe tag_obj).

Definition _get_or_create_ingredients (auth_user : Z) (ingredients : value)
    (recipe : Recipe) : M unit :=
  let* ingredients := iter_specs ingredients in
  for_each ingredients (λ i,
    let* (ingredient_obj, created) :=
      objects_get_or_create KIngredient auth_user i in
    related_add KIngredient recipe ingredient_obj).

Definition create (auth_user : Z) (validated_data : dict) : M Recipe :=
  let '(tags, validated_data) :=
    dict_pop "tags" (VSpecs []) validated_data in
  let '(ingredients, validated_data) :=
    dict_pop "ingredients" (VSpecs []) validated_data in
  let* recipe := Recipe_objects_create validated_data in
  let* _ := _get_or_create_tags auth_user tags recipe in
  let* _ := _get_or_create_ingredients auth_user ingredients recipe in
  ret recipe.

Definition update (auth_user : Z) (instance : Recipe)
    (validated_data : dict) : M Recipe :=
  let '(tags, validated_data) := dict_pop "tags" VNone validated_data in
  let '(ingredients, validated_data) :=
    dict_pop "ingredients" VNone validated_data in
  let* _ :=
    if decide (tags ≠ VNone) then
      let* _ := related_clear KTag instance in
      _get_or_create_tags auth_user tags instance
    else ret tt in
  let* _ :=
    if decide (ingredients ≠ VNone) then
      let* _ := related_clear KIngredient instance in
      _get_or_create_ingredients auth_user ingredients instance
    else ret tt in
  let instance := setattrs instance validated_data in
  save instance.

End RecipeSerializer.

(** The two loops are one loop, run on the tag table or on the ingredient
    table. *)
Definition reconcile (k : kind) (auth_user : Z) (specs : list string)
    (recipe : Recipe) : M unit :=
  for_each specs (λ name,
    let* (obj, created) := objects_get_or_create k auth_user name in
    related_add k recipe obj).

Definition get_or_create_of (k : kind) : Z → value → Recipe → M unit :=
  match k with
  | KTag => RecipeSerializer._get_or_create_tags
  | KIngredient => RecipeSerializer._get_or_create_ingredients
  end.

Definition spec_key (k : kind) : string :=
  match k with KTag => "tags" | KIngredient => "ingredients" end.

(** The recipe's tags (or ingredients): the child ids it is linked to. *)
Definition related_ids (k : kind) (rid : Z) (db : DB) : list Z :=
  (filter (λ l, l.1 = rid) (links (table k db))).*2.

(** The rows of [owner] called [name]. *)
Definition rows_named (k : kind) (owner : Z) (name : string) (db : DB)
  : list Attr :=
  filter (same_owner_name owner name) (rows (table k db)).

(** ** Python's [str.split] and [int] on ASCII text *)

(** [s.split(sep)] for a separator of one character: a string without the
    separator is one segment, the empty string included. *)
Fixpoint split (sep : ascii) (s : string) : list string :=
  match s with
  | EmptyString => [EmptyString]
  | String c s' =>
      if decide (c = sep) then EmptyString :: split sep s'
      else match split sep s' with
           | [] => [String c EmptyString]
           | seg :: segs => String c seg :: segs
           end
  end.

Definition code (c : ascii) : Z := Z.of_N (N_of_ascii c).

(** The ASCII characters [str.isspace] accepts. *)
Definition is_space (c : ascii) : bool :=
  ((9 <=? code c) && (code c <=? 13)) || ((28 <=? code c) && (code c <=? 32)).

Definition is_digit (c : ascii) : bool :=
  (48 <=? code c) && (code c <=? 57).

Fixpoint lstrip (l : list ascii) : list ascii :=
  match l with
  | c :: l' => if is_space c then lstrip l' else l
  | [] => []
  end.

Definition strip (l : list ascii) : list ascii :=
  reverse (lstrip (reverse (lstrip l))).

(** The digits of a decimal literal; one underscore may stand between two
    digits.  [after_digit] tells whether the character before is a digit. *)
Fixpoint digits (after_digit : bool) (acc : Z) (l : list ascii) : option Z :=
  match l with
  | [] => if after_digit then Some acc else None
  | c :: l' =>
      if is_digit c then digits true (10 * acc + (code c - 48)) l'
      else if decide (c = "_"%char) then
        if after_digit then digits false acc l' else None
      else None
  end.

(** [int(s)]: [None] stands for [ValueError]. *)
Definition int (s : string) : option Z :=
  match strip (list_ascii_of_string s) with
  | c :: l =>
      if decide (c = "-"%char) then Z.opp <$> digits false 0 l
      else if decide (c = "+"%char) then digits false 0 l
      else digits false 0 (c :: l)
  | [] => None
  end.

(** ** Requests and responses *)

Record Request : Type := mkRequest {
  request_user : Z;
  query_params : list (string * string);
  request_data : dict
}.

(** [query_params.get(key)]: the last value given for the key. *)
Definition query_get (key : string) (params : list (string * string))
  : option string :=
  last (filter (λ kv, kv.1 = key) params).*2.

Inductive response_data : Type :=
| DataRecipe (r : Recipe)
| DataRecipes (rs : list Recipe)
| DataAttr (a : Attr)
| DataAttrs (l : list Attr)
| DataErrors (fields : list string)
| DataNone.

Record Response : Type := mkResponse {
  status_code : Z;
  data : response_data
}.

Definition HTTP_200_OK : Z := 200.
Definition HTTP_201_CREATED : Z := 201.
Definition HTTP_400_BAD_REQUEST : Z := 400.
Definition HTTP_404_NOT_FOUND : Z := 404.
Definition HTTP_500_INTERNAL_SERVER_ERROR : Z := 500.

(** What the framework makes of an exception that leaves a view: a
    validation error and a missing object have their status, any other
    exception is a server error. *)
Definition handle_exception (e : exn) : Response :=
  match e with
  | ValidationError fields => mkResponse HTTP_400_BAD_REQUEST (DataErrors fields)
  | Http404 => mkResponse HTTP_404_NOT_FOUND DataNone
  | _ => mkResponse HTTP_500_INTERNAL_SERVER_ERROR DataNone
  end.

Definition dispatch (view : M Response) (db : DB) : Response * DB :=
  match view db with
  | (Return response, db') => (response, db')
  | (Raise e, db') => (handle_exception e, db')
  end.

(** ** Querysets *)

Definition snapshot : M DB := λ db, (Return db, db).

(** [queryset.filter(<related>__id__in=ids)]: the join with the link table
    has one row for every link of a recipe to one of the ids. *)
Definition filter_related_in (k : kind) (ids : list Z) (db : DB)
    (queryset : list Recipe) : list Recipe :=
  queryset ≫= λ r,
    (λ _, r) <$> filter (λ l, l.1 = recipe_id r ∧ l.2 ∈ ids)
                        (links (table k db)).

Definition filter_user (user : Z) (queryset : list Recipe) : list Recipe :=
  filter (λ r, recipe_user r = user) queryset.

Definition id_desc (r1 r2 : Recipe) : Prop := recipe_id r2 ≤ recipe_id r1.

Global Instance id_desc_dec r1 r2 : Decision (id_desc r1 r2).
Proof. unfold id_desc. apply _. Defined.

(** [queryset.order_by("-id")] *)
Definition order_by_desc_id (queryset : list Recipe) : list Recipe :=
  merge_sort id_desc queryset.

(** [queryset.distinct()] *)
Definition distinct (queryset : list Recipe) : list Recipe :=
  remove_dups queryset.

(** The truth value of [params.get(key)]: [None] and the empty string are
    false. *)
Definition truthy (p : option string) : bool :=
  match p with
  | Some s => bool_decide (s ≠ EmptyString)
  | None => false
  end.

Definition param_text (p : option string) : string := default EmptyString p.

(** ** Serializer classes and their validation *)

Inductive serializer_class : Type :=
| RecipeSerializerClass
| RecipeDetailSerializerClass
| RecipeImageSerializerClass.

(** Modelled from the spec: the [required] flags of the model fields of a
    recipe, [core/models.py] not being at hand; the link, the description
    and the image of a recipe are optional, the other columns are not.
    The list is [Meta.fields] without the read-only [id]; [tags] and
    [ingredients] are declared with [required=False]. *)
Definition recipe_fields : list (string * bool) :=
  [("title", true); ("time_minutes", true); ("price", true); ("link", false);
   ("tags", false); ("ingredients", false); ("image", false)].

(** The writable fields of a serializer, each with its [required] flag; the
    image serializer requires [image]. *)
Definition writable_fields (cls : serializer_class) : list (string * bool) :=
  match cls with
  | RecipeSerializerClass => recipe_fields
  | RecipeDetailSerializerClass => recipe_fields ++ [("description", false)]
  | RecipeImageSerializerClass => [("image", true)]
  end.

Section Validation.

(** What a field makes of the value sent for it: the validated value, or
    [None] when the value is refused (for [image]: a payload that is not
    a file, or a file that does not decode as an image). *)
Variable run_validation : string → value → option value.

(** One field of [to_internal_value]: the errors and the validated data
    so far, then with this field. *)
Definition validate_field (partial : bool) (payload : dict)
    (acc : list string * dict) (field : string * bool)
  : list string * dict :=
  let '(errors, validated) := acc in
  let '(name, required) := field in
  match dict_get name payload with
  | Some v =>
      match run_validation name v with
      | Some v' => (errors, validated ++ [(name, v')])
      | None => (errors ++ [name], validated)
      end
  | None =>
      if required && negb partial then (errors ++ [name], validated)
      else (errors, validated)
  end.

(** [serializer.is_valid()]: the validated data, or the fields in error.
    Only the declared writable fields are read from the payload. *)
Definition is_valid_fields (fields : list (string * bool)) (partial : bool)
    (payload : dict) : list string + dict :=
  match foldl (validate_field partial payload) ([], []) fields with
  | ([], validated) => inr validated
  | (errors, _) => inl errors
  end.

Definition is_valid (cls : serializer_class) (partial : bool)
    (payload : dict) : list string + dict :=
  is_valid_fields (writable_fields cls) partial payload.

End Validation.

(** [serializer.save] with keyword arguments on a serializer without an
    instance: [create] on the validated data merged with the keyword
    arguments. *)
Definition serializer_save_new (auth_user : Z) (validated_data kwargs : dict)
  : M Recipe :=
  RecipeSerializer.create auth_user (dict_merge validated_data kwargs).

(** [serializer.save()] on a serializer with an instance: the [update] of
    the class.  The image serializer has the [update] of its base class,
    which sets the attributes and saves. *)
Definition serializer_save (cls : serializer_class) (auth_user : Z)
    (instance : Recipe) (validated_data : dict) : M Recipe :=
  match cls with
  | RecipeImageSerializerClass => save (setattrs instance validated_data)
  | _ => RecipeSerializer.update auth_user instance validated_data
  end.

(** ** [recipe/views.py]: RecipeViewSet *)

Module RecipeViewSet.

(** [[int(str_id) for str_id in qs.split(",")]] *)
Definition _params_to_ints (qs : string) : M (list Z) :=
  match mapM int (split ","%char qs) with
  | Some ids => ret ids
  | None => raise ValueError
  end.

Definition get_queryset (request : Request) : M (list Recipe) :=
  let tags := query_get "tags" (query_params request) in
  let ingredients := query_get "ingredients" (query_params request) in
  let* db := snapshot in
  let queryset := recipes db in
  let* queryset :=
    if truthy tags then
      let* tag_ids := _params_to_ints (param_text tags) in
      ret (filter_related_in KTag tag_ids db queryset)
    else ret queryset in
  let* queryset :=
    if truthy ingredients then
      let* ingredient_ids := _params_to_ints (param_text ingredients) in
      ret (filter_related_in KIngredient ingredient_ids db queryset)
    else ret queryset in
  ret (distinct (order_by_desc_id (filter_user (request_user request)
                                               queryset))).

Inductive action : Type :=
| list_action | create_action | retrieve_action | update_action
| partial_update_action | destroy_action | upload_image_action.

Definition get_serializer_class (a : action) : serializer_class :=
  match a with
  | list_action => RecipeSerializerClass
  | upload_image_action => RecipeImageSerializerClass
  | _ => RecipeDetailSerializerClass
  end.

(** [serializer.save(user=self.request.user)] *)
Definition perform_create (request : Request) (validated_data : dict)
  : M Recipe :=
  serializer_save_new (request_user request) validated_data
    [("user", VUser (request_user request))].

(** [self.get_object()]: the row of the queryset with this key, or
    [Http404]. *)
Definition get_object (request : Request) (pk : Z) : M Recipe :=
  let* queryset := get_queryset request in
  match filter (λ r, recipe_id r = pk) queryset with
  | r :: _ => ret r
  | [] => raise Http404
  end.

Section Actions.

Variable run_validation : string → value → option value.

Definition list (request : Request) : M Response :=
  let* queryset := get_queryset request in
  ret (mkResponse HTTP_200_OK (DataRecipes queryset)).

(** The [create] action of the framework: validate, [perform_create],
    answer 201. *)
Definition create (request : Request) : M Response :=
  match is_valid run_validation (get_serializer_class create_action)
                 false (request_data request) with
  | inl errors => raise (ValidationError errors)
  | inr validated_data =>
      let* recipe := perform_create request validated_data in
      ret (mkResponse HTTP_201_CREATED (DataRecipe recipe))
  end.

(** The [update] and [partial_update] actions of the framework:
    [get_object], validate, [serializer.save()], answer 200. *)
Definition update (partial : bool) (request : Request) (pk : Z)
  : M Response :=
  let* instance := get_object request pk in
  let cls :=
    get_serializer_class
      (if partial then partial_update_action else update_action) in
  match is_valid run_validation cls partial (request_data request) with
  | inl errors => raise (ValidationError errors)
  | inr validated_data =>
      let* recipe :=
        serializer_save cls (request_user request) instance
                        validated_data in
      ret (mkResponse HTTP_200_OK (DataRecipe recipe))
  end.

Definition upload_image (request : Request) (pk : Z) : M Response :=
  let* recipe := get_object request pk in
  let cls := get_serializer_class upload_image_action in
  match is_valid run_validation cls false (request_data request) with
  | inr validated_data =>
      let* recipe :=
        serializer_save cls (request_user request) recipe
                        validated_data in
      ret (mkResponse HTTP_200_OK (DataRecipe recipe))
  | inl errors =>
      ret (mkResponse HTTP_400_BAD_REQUEST (DataErrors errors))
  end.

End Actions.

End RecipeViewSet.

(** ** [recipe/views.py]: BaseRecipeArrtViewSet, the view set of the tags
       and of the ingredients *)

(** The writable field of [TagSerializer] and [IngredientSerializer]. *)
Definition attr_fields : list (string * bool) := [("name", true)].

Definition attr_setattr (a : Attr) (attr : string) (v : value) : Attr :=
  if decide (attr = "name") then
    match v with
    | VStr s => mkAttr (attr_id a) s (attr_user a)
    | _ => a
    end
  else a.

(** [instance.save()] on a tag or an ingredient: the row with the id of the
    instance is overwritten. *)
Definition attr_save (k : kind) (instance : Attr) : M Attr :=
  λ db,
    let t := table k db in
    (Return instance,
     set_table k
       (mkTable
          ((λ x, if decide (attr_id x = attr_id instance) then instance else x)
             <$> rows t)
          (next_id t) (links t)) db).

Definition name_desc (a1 a2 : Attr) : Prop :=
  String.leb (attr_name a2) (attr_name a1) = true.

Global Instance name_desc_dec a1 a2 : Decision (name_desc a1 a2).
Proof. unfold name_desc. apply _. Defined.

Module BaseRecipeArrtViewSet.

Definition get_queryset (k : kind) (request : Request) : M (list Attr) :=
  let* assigned_only :=
    match query_get "assigned_only" (query_params request) with
    | Some s =>
        match int s with
        | Some n => ret (bool_decide (n ≠ 0))
        | None => raise ValueError
        end
    | None => ret false
    end in
  let* db := snapshot in
  let queryset := rows (table k db) in
  let queryset :=
    if (assigned_only : bool) then
      queryset ≫= λ a,
        (λ _, a) <$> filter (λ l, l.2 = attr_id a) (links (table k db))
    else queryset in
  ret (remove_dups
         (merge_sort name_desc
            (filter (λ a, attr_user a = request_user request) queryset))).

Definition get_object (k : kind) (request : Request) (pk : Z) : M Attr :=
  let* queryset := get_queryset k request in
  match filter (λ a, attr_id a = pk) queryset with
  | a :: _ => ret a
  | [] => raise Http404
  end.

(** The [update] and [partial_update] actions of the framework. *)
Definition update (k : kind)
    (run_validation : string → value → option value) (partial : bool)
    (request : Request) (pk : Z) : M Response :=
  let* instance := get_object k request pk in
  match is_valid_fields run_validation attr_fields partial
                        (request_data request) with
  | inl errors => raise (ValidationError errors)
  | inr validated_data =>
      let* a :=
        attr_save k
          (foldl (λ acc kv, attr_setattr acc kv.1 kv.2) instance
                 validated_data) in
      ret (mkResponse HTTP_200_OK (DataAttr a))
  end.

End BaseRecipeArrtViewSet.

(** ** [core/management/commands/wait_for_db.py] *)

Module wait_for_db.

(** What a call of [self.check] does: it returns, or it raises; the
    exceptions are the two the loop catches and any other one. *)
Inductive check_exception : Type :=
| Psycopg20pError
| OperationalError
| OtherException.

Inductive check_result : Type :=
| CheckPassed
| CheckRaises (e : check_exception).

(** A line written to [self.stdout], plain or in the success style. *)
Inductive line : Type :=
| Write (s : string)
| WriteSuccess (s : string).

Record trace : Type := mkTrace {
  stdout : list line;
  slept : Z
}.

(** How the command ends: it returns, an exception that is not caught
    leaves it, or it is still in the loop when the calls of [self.check]
    that are given have all been made. *)
Inductive ending : Type :=
| Returned (t : trace)
| Raised (e : check_exception) (t : trace)
| Waiting (t : trace).

Definition caught (e : check_exception) : bool :=
  match e with
  | Psycopg20pError | OperationalError => true
  | OtherException => false
  end.

(** The loop [while db_up is False], over the results of the successive
    calls of [self.check]. *)
Fixpoint wait (checks : list check_result) (t : trace) : ending :=
  match checks with
  | [] => Waiting t
  | CheckPassed :: _ => Returned t
  | CheckRaises e :: checks' =>
      if caught e then
        wait checks'
          (mkTrace (stdout t ++ [Write "db unavailable, waiting 1s"])
                   (slept t + 1))
      else Raised e t
  end.

Definition handle (checks : list check_result) : ending :=
  match wait checks (mkTrace [Write "waiting for db..."] 0) with
  | Returned t =>
      Returned (mkTrace (stdout t ++ [WriteSuccess "db available!"]) (slept t))
  | other => other
  end.

End wait_for_db.

(** ** Predicates on the store used in the statements *)

(** [db'] differs from [db] in the table of [k] at most. *)
Definition only_table (k : kind) (db db' : DB) : Prop :=
  db' = set_table k (table k db') db.

(** The link table after [add]. *)
Definition add_link (l : Z * Z) (ls : list (Z * Z)) : list (Z * Z) :=
  if decide (l ∈ ls) then ls else ls ++ [l].

(** One turn of the loop: look the name up, or create the row, and link. *)
Definition link_spec (k : kind) (auth_user : Z) (recipe : Recipe)
    (name : string) : M unit :=
  let* (obj, created) := objects_get_or_create k auth_user name in
  related_add k recipe obj.

(** What a run of the loop over [names] that returns has done to the table
    of [k]: rows were added at the end, for names that had none; every name
    has one row; links of the recipe to rows of the names were added at the
    end, each once; and every row of a name is linked. *)
Record reconciled (k : kind) (u rid : Z) (names : list string)
    (db db' : DB) : Prop := mkReconciled {
  rec_frame : only_table k db db';
  rec_rows :
    ∃ new, rows (table k db') = rows (table k db) ++ new ∧
      ∀ a, a ∈ new →
        attr_user a = u ∧ attr_name a ∈ names ∧
        rows_named k u (attr_name a) db = [];
  rec_unique :
    ∀ name, name ∈ names → ∃ a, rows_named k u name db' = [a];
  rec_links :
    ∃ extra, links (table k db') = links (table k db) ++ extra ∧
      NoDup extra ∧
      ∀ l, l ∈ extra →
        (l ∉ links (table k db)) ∧
        (∃ a, a ∈ rows (table k db') ∧ attr_user a = u ∧
              attr_name a ∈ names ∧ l = (rid, attr_id a));
  rec_linked :
    ∀ a, a ∈ rows (table k db') → attr_user a = u → attr_name a ∈ names →
         (rid, attr_id a) ∈ links (table k db')
}.

(** One collection of [update]: nothing when the key was absent, else
    clear and link again. *)
Definition phase (k : kind) (auth_user : Z) (instance : Recipe) (v : value)
  : M unit :=
  if decide (v ≠ VNone) then
    let* _ := related_clear k instance in
    get_or_create_of k auth_user v instance
  else ret tt.

(** An operation that leaves the table of [k] as it is, whatever its
    outcome. *)
Definition keeps_table {A} (k : kind) (m : M A) : Prop :=
  ∀ db, table k (m db).2 = table k db.

(** What a query parameter asks of a recipe: nothing when the parameter is
    absent or empty, else a link to one of the ids it lists. *)
Definition selects (k : kind) (p : option string) (db : DB) (r : Recipe)
  : Prop :=
  truthy p = true →
  ∃ ids, mapM int (split ","%char (param_text p)) = Some ids ∧
         ∃ i, i ∈ ids ∧ i ∈ related_ids k (recipe_id r) db.

(** The ids a parameter lists: none when it is absent or empty. *)
Definition parse_filter (p : option string) : outcome (option (list Z)) :=
  if truthy p then
    match mapM int (split ","%char (param_text p)) with
    | Some ids => Return (Some ids)
    | None => Raise ValueError
    end
  else Return None.

Definition apply_filter (k : kind) (f : option (list Z)) (db : DB)
    (queryset : list Recipe) : list Recipe :=
  match f with
  | Some ids => filter_related_in k ids db queryset
  | None => queryset
  end.

(** A store whose recipe keys are distinct and below the sequence, and
    whose links point at recipe keys below the sequence. *)
Definition well_formed (db : DB) : Prop :=
  NoDup (recipe_id <$> recipes db) ∧
  (∀ r, r ∈ recipes db → recipe_id r < next_recipe_id db) ∧
  (∀ k l, l ∈ links (table k db) → l.1 < next_recipe_id db).

(** ** A store to run the operations on *)

Definition curry : Recipe := mkRecipe 1 "thai curry" 30 250 "" "" 7 NoImage.
Definition eggplant : Recipe := mkRecipe 2 "eggplant" 22 550 "" "" 7 NoImage.
Definition fries : Recipe := mkRecipe 3 "french fries" 10 120 "" "" 8 NoImage.

Definition sample_db : DB :=
  mkDB [curry; eggplant; fries] 4
       (mkTable [mkAttr 1 "vegan" 7; mkAttr 2 "dinner" 7; mkAttr 3 "vegan" 8]
                4 [(1, 1); (1, 2); (2, 2); (3, 3)])
       (mkTable [mkAttr 1 "salt" 7] 2 [(1, 1); (2, 1)])
       [] 1.

(** The same store after the second tag of user 7 was renamed to the name of
    the first by a [PATCH] on the tag endpoint. *)
Definition renamed_db : DB :=
  mkDB [curry; eggplant; fries] 4
       (mkTable [mkAttr 1 "vegan" 7; mkAttr 2 "vegan" 7; mkAttr 3 "vegan" 8]
                4 [(1, 1); (1, 2); (2, 2); (3, 3)])
       (mkTable [mkAttr 1 "salt" 7] 2 [(1, 1); (2, 1)])
       [] 1.

(** A field validation to run the actions with: a value is accepted when it
    has the type of its field, and a file counts as an image when it begins
    with the signature of a GIF. *)
Definition sample_validation (name : string) (v : value) : option value :=
  match v with
  | VStr _ =>
      if decide (name ∈ ["title"; "link"; "description"; "name"]) then Some v
      else None
  | VInt _ => if decide (name = "time_minutes") then Some v else None
  | VDecimal _ => if decide (name = "price") then Some v else None
  | VSpecs _ =>
      if decide (name ∈ ["tags"; "ingredients"]) then Some v else None
  | VFile content =>
      if decide (name = "image") then
        if String.prefix "GIF8" content then Some v else None
      else None
  | _ => None
  end.

(** The calls that write a recipe row. *)
Inductive call : Type :=
| CreateRecipe (request : Request)
| UpdateRecipe (partial : bool) (request : Request) (pk : Z)
| UploadImage (request : Request) (pk : Z).

Definition handle (run_validation : string → value → option value)
    (c : call) (db : DB) : Response * DB :=
  match c with
  | CreateRecipe request =>
      dispatch (RecipeViewSet.create run_validation request) db
  | UpdateRecipe partial request pk =>
      dispatch (RecipeViewSet.update run_validation partial request pk) db
  | UploadImage request pk =>
      dispatch (RecipeViewSet.upload_image run_validation request pk) db
  end.

(** The store after a sequence of calls. *)
Definition run (run_validation : string → value → option value)
    (calls : list call) (db : DB) : DB :=
  foldl (λ db c, (handle run_validation c db).2) db calls.

(** [db'] has the recipes of [db] and its links, and maybe more links of
    the recipe [rid]. *)
Definition links_at (rid : Z) (db db' : DB) : Prop :=
  recipes db' = recipes db ∧
  next_recipe_id db' = next_recipe_id db ∧
  ∀ k l, l ∈ links (table k db') → l ∈ links (table k db) ∨ l.1 = rid.

(** What a call may do to the recipe rows: the store stays well formed, no
    key disappears, and a row of the store after the call either has the
    key and the owner of a row before the call, or has a new key and the
    owner [creator]. *)
Definition owners_kept (creator : option Z) (db db' : DB) : Prop :=
  well_formed db' ∧
  (∀ r, r ∈ recipes db → recipe_id r ∈ recipe_id <$> recipes db') ∧
  ∀ r', r' ∈ recipes db' →
    (∃ r, r ∈ recipes db ∧ recipe_id r = recipe_id r' ∧
          recipe_user r = recipe_user r') ∨
    (creator = Some (recipe_user r') ∧
     recipe_id r' ∉ recipe_id <$> recipes db).

Definition creator_of (c : call) : option Z :=
  match c with
  | CreateRecipe request => Some (request_user request)
  | _ => None
  end.

(** [db'] has the child rows of [db], maybe with more at the end, and the
    links of every recipe other than [rid] as they are in [db]. *)
Definition others_kept (rid : Z) (db db' : DB) : Prop :=
  (∀ k, rows (table k db) `prefix_of` rows (table k db')) ∧
  (∀ k rid', rid' ≠ rid → related_ids k rid' db' = related_ids k rid' db).

(** The row of a recipe with another image, the other columns as they
    are. *)
Definition with_image (r : Recipe) (img : image_field) : Recipe :=
  mkRecipe (recipe_id r) (recipe_title r) (recipe_time_minutes r)
           (recipe_price r) (recipe_link r) (recipe_description r)
           (recipe_user r) img.


(** The entry of the validated data that a field gives: none when the
    payload has no value for it or the value is refused. *)
Definition validated_entry (run_validation : string → value → option value)
    (payload : dict) (field : string * bool) : option (string * value) :=
  v ← dict_get field.1 payload;
  v' ← run_validation field.1 v;
  Some (field.1, v').

(** What the update of a tag or an ingredient may do: [db'] differs from
    [db] in the rows of the table of [k] with the key [pk] and the owner
    [owner] at most, and these keep their key and their owner. *)
Record renamed (k : kind) (pk owner : Z) (db db' : DB) : Prop := mkRenamed {
  ren_frame : only_table k db db';
  ren_links : links (table k db') = links (table k db);
  ren_next_id : next_id (table k db') = next_id (table k db);
  ren_ids : attr_id <$> rows (table k db') = attr_id <$> rows (table k db);
  ren_owners :
    attr_user <$> rows (table k db') = attr_user <$> rows (table k db);
  ren_others :
    ∀ a, a ∈ rows (table k db) → attr_id a ≠ pk ∨ attr_user a ≠ owner →
         a ∈ rows (table k db')
}.

(** A table of tags (resp. ingredients) whose keys are distinct and below
    the sequence, and whose links point at keys below the sequence. *)
Definition attr_well_formed (k : kind) (db : DB) : Prop :=
  NoDup (attr_id <$> rows (table k db)) ∧
  (∀ a, a ∈ rows (table k db) → attr_id a < next_id (table k db)) ∧
  (∀ l, l ∈ links (table k db) → l.2 < next_id (table k db)).

(** Every link of the table joins a recipe and a row of one owner. *)
Definition links_owned (k : kind) (db : DB) : Prop :=
  ∀ l r a,
    l ∈ links (table k db) → r ∈ recipes db → a ∈ rows (table k db) →
    recipe_id r = l.1 → attr_id a = l.2 → attr_user a = recipe_user r.

Definition tables_consistent (db : DB) : Prop :=
  ∀ k, attr_well_formed k db ∧ links_owned k db.

Definition consistent (db : DB) : Prop :=
  well_formed db ∧ tables_consistent db.

(** The recipes with the key [rid] belong to [u]. *)
Definition owned_by (u rid : Z) (db : DB) : Prop :=
  ∀ r, r ∈ recipes db → recipe_id r = rid → recipe_user r = u.

(** * Properties of the store operations *)

Section Store.
Context (k : kind).

Lemma table_set_table t db : table k (set_table k t db) = t.
Proof. by destruct k. Qed.

Lemma table_set_table_ne k' t db :
  k ≠ k' → table k' (set_table k t db) = table k' db.
Proof. by destruct k, k'. Qed.

Lemma set_table_table db : set_table k (table k db) db = db.
Proof. by destruct k, db. Qed.

Lemma set_table_twice t1 t2 db :
  set_table k t2 (set_table k t1 db) = set_table k t2 db.
Proof. by destruct k. Qed.

Lemma recipes_set_table t db : recipes (set_table k t db) = recipes db.
Proof. by destruct k. Qed.

Lemma next_recipe_id_set_table t db :
  next_recipe_id (set_table k t db) = next_recipe_id db.
Proof. by destruct k. Qed.

Lemma media_set_table t db : media (set_table k t db) = media db.
Proof. by destruct k. Qed.
End Store.


Lemma only_table_refl k db : only_table k db db.
Proof. unfold only_table. by rewrite set_table_table. Qed.

Lemma only_table_trans k db1 db2 db3 :
  only_table k db1 db2 → only_table k db2 db3 → only_table k db1 db3.
Proof.
  unfold only_table. intros H12 H23.
  rewrite H23 at 1. rewrite H12. by rewrite set_table_twice.
Qed.

Lemma only_table_set k t db : only_table k db (set_table k t db).
Proof. unfold only_table. by rewrite table_set_table. Qed.

Lemma only_table_other k k' db db' :
  k ≠ k' → only_table k db db' → table k' db' = table k' db.
Proof. intros Hne ->. by apply table_set_table_ne. Qed.

Lemma only_table_recipes k db db' :
  only_table k db db' → recipes db' = recipes db.
Proof. intros ->. apply recipes_set_table. Qed.

Lemma only_table_next_recipe_id k db db' :
  only_table k db db' → next_recipe_id db' = next_recipe_id db.
Proof. intros ->. apply next_recipe_id_set_table. Qed.


Lemma elem_of_add_link l l' ls : l' ∈ add_link l ls ↔ l' = l ∨ l' ∈ ls.
Proof.
  unfold add_link. case_decide as Hl.
  - split; [by right|]. by intros [->|?].
  - rewrite elem_of_app, list_elem_of_singleton. tauto.
Qed.

Lemma add_link_extends l ls :
  ∃ extra, add_link l ls = ls ++ extra ∧ NoDup extra ∧
           ∀ x, x ∈ extra → x = l ∧ x ∉ ls.
Proof.
  unfold add_link. case_decide.
  - exists []. rewrite app_nil_r. split_and!; [done|constructor|].
    intros x Hx. by apply elem_of_nil in Hx.
  - exists [l]. split_and!; [done|apply NoDup_singleton|].
    intros x ->%list_elem_of_singleton. done.
Qed.

Lemma related_add_eq k r a db :
  related_add k r a db =
  (Return tt,
   set_table k
     (mkTable (rows (table k db)) (next_id (table k db))
        (add_link (recipe_id r, attr_id a) (links (table k db)))) db).
Proof.
  unfold related_add, add_link. case_decide; [|done].
  f_equal. destruct (table k db) eqn:Ht. simpl.
  by rewrite <- Ht, set_table_table.
Qed.


Lemma reconcile_cons k u r name names db :
  reconcile k u (name :: names) r db =
  match link_spec k u r name db with
  | (Return _, db1) => reconcile k u names r db1
  | (Raise e, db1) => (Raise e, db1)
  end.
Proof. reflexivity. Qed.

Lemma get_or_create_of_specs k u names r :
  get_or_create_of k u (VSpecs names) r = reconcile k u names r.
Proof. by destruct k. Qed.

Lemma get_or_create_of_not_specs k u v r db :
  (∀ names, v ≠ VSpecs names) →
  get_or_create_of k u v r db = (Raise TypeError, db).
Proof. intros Hv. destruct k, v; try done; by destruct (Hv names). Qed.

(** The three cases of a turn, by the rows that carry the name. *)
Lemma link_spec_created k u r name db :
  rows_named k u name db = [] →
  link_spec k u r name db =
  (Return tt,
   set_table k
     (mkTable (rows (table k db) ++ [mkAttr (next_id (table k db)) name u])
        (next_id (table k db) + 1)
        (add_link (recipe_id r, next_id (table k db)) (links (table k db))))
     db).
Proof.
  unfold rows_named, link_spec, bind, objects_get_or_create. intros ->.
  rewrite related_add_eq, table_set_table, set_table_twice. done.
Qed.

Lemma link_spec_found k u r name db a :
  rows_named k u name db = [a] →
  link_spec k u r name db =
  (Return tt,
   set_table k
     (mkTable (rows (table k db)) (next_id (table k db))
        (add_link (recipe_id r, attr_id a) (links (table k db)))) db).
Proof.
  unfold rows_named, link_spec, bind, objects_get_or_create. intros ->.
  by rewrite related_add_eq.
Qed.

Lemma link_spec_several k u r name db a1 a2 more :
  rows_named k u name db = a1 :: a2 :: more →
  link_spec k u r name db = (Raise MultipleObjectsReturned, db).
Proof.
  unfold rows_named, link_spec, bind, objects_get_or_create. by intros ->.
Qed.

(** ** The loop of the reconciler *)


Lemma rows_named_elem_of k u name db a :
  a ∈ rows_named k u name db ↔
  (attr_user a = u ∧ attr_name a = name) ∧ a ∈ rows (table k db).
Proof. unfold rows_named. by rewrite list_elem_of_filter. Qed.

Lemma reconciled_nil k u rid db : reconciled k u rid [] db db.
Proof.
  split.
  - apply only_table_refl.
  - exists []. rewrite app_nil_r. split; [done|]. by intros a ?%elem_of_nil.
  - by intros name ?%elem_of_nil.
  - exists []. rewrite app_nil_r. split_and!; [done|constructor|].
    by intros l ?%elem_of_nil.
  - by intros a _ _ ?%elem_of_nil.
Qed.

Lemma reconciled_app k u rid names1 names2 db db1 db2 :
  reconciled k u rid names1 db db1 →
  reconciled k u rid names2 db1 db2 →
  reconciled k u rid (names1 ++ names2) db db2.
Proof.
  intros [F1 (new1 & R1 & N1) U1 (ex1 & L1 & D1 & E1) K1]
         [F2 (new2 & R2 & N2) U2 (ex2 & L2 & D2 & E2) K2].
  assert (Hfresh : ∀ name a, name ∈ names1 → a ∈ new2 →
                     ¬ same_owner_name u name a).
  { intros name a Hname Ha [Hu Hn].
    destruct (N2 a Ha) as (_ & _ & Hnone).
    destruct (U1 name Hname) as [a1 Ha1].
    rewrite Hn, Ha1 in Hnone. done. }
  assert (Hunique : ∀ name, name ∈ names1 →
            rows_named k u name db2 = rows_named k u name db1).
  { intros name Hname. unfold rows_named. rewrite R2, filter_app.
    rewrite (elem_of_nil_inv (filter _ new2)); [by rewrite app_nil_r|].
    intros a [Hp Ha]%list_elem_of_filter. by eapply Hfresh. }
  split.
  - by eapply only_table_trans.
  - exists (new1 ++ new2). rewrite R2, R1, app_assoc. split; [done|].
    intros a [Ha|Ha]%elem_of_app.
    + destruct (N1 a Ha) as (? & ? & ?). rewrite elem_of_app. auto.
    + destruct (N2 a Ha) as (? & ? & Hnone). rewrite elem_of_app.
      split_and!; [done|by right|].
      unfold rows_named in *. rewrite R1, filter_app in Hnone.
      by apply app_eq_nil in Hnone as [? _].
  - intros name [Hname|Hname]%elem_of_app; [|by apply U2].
    rewrite Hunique by done. by apply U1.
  - exists (ex1 ++ ex2). rewrite L2, L1, app_assoc. split_and!; [done| |].
    + apply NoDup_app. split_and!; [done| |done].
      intros l Hl1 Hl2. destruct (E2 l Hl2) as [Hnot _].
      apply Hnot. rewrite L1, elem_of_app. by right.
    + intros l [Hl|Hl]%elem_of_app.
      * destruct (E1 l Hl) as (? & a & Ha & ? & ? & ?). split; [done|].
        exists a. rewrite R2, !elem_of_app. auto.
      * destruct (E2 l Hl) as (Hnot & a & Ha & ? & ? & ?). split.
        { intros Hin. apply Hnot. rewrite L1, elem_of_app. by left. }
        exists a. rewrite elem_of_app. auto.
  - intros a Ha Hu [Hname|Hname]%elem_of_app; [|by apply K2].
    destruct (U1 _ Hname) as [a1 Ha1].
    assert (a = a1) as ->.
    { apply list_elem_of_singleton. rewrite <- Ha1, <- Hunique by done.
      by apply rows_named_elem_of. }
    assert (a1 ∈ rows_named k u (attr_name a1) db1) as Hin
      by (rewrite Ha1; by apply list_elem_of_singleton).
    apply rows_named_elem_of in Hin as [_ Hin].
    rewrite L2, elem_of_app. left. by apply K1.
Qed.

Lemma link_spec_reconciled k u r name db db1 :
  link_spec k u r name db = (Return tt, db1) →
  reconciled k u (recipe_id r) [name] db db1.
Proof.
  destruct (rows_named k u name db) as [|a [|a2 more]] eqn:Hrows.
  - rewrite (link_spec_created _ _ _ _ _ Hrows). intros [= <-].
    set (a := mkAttr (next_id (table k db)) name u).
    assert (Hnamed : rows_named k u name
              (set_table k
                 (mkTable (rows (table k db) ++ [a])
                    (next_id (table k db) + 1)
                    (add_link (recipe_id r, next_id (table k db))
                       (links (table k db)))) db) = [a]).
    { unfold rows_named in *. rewrite table_set_table. simpl.
      rewrite filter_app, Hrows. simpl.
      by rewrite filter_cons_True by (by split). }
    split.
    + apply only_table_set.
    + rewrite table_set_table. simpl. exists [a]. split; [done|].
      intros ? ->%list_elem_of_singleton. simpl.
      by rewrite list_elem_of_singleton.
    + intros ? ->%list_elem_of_singleton. by exists a.
    + rewrite table_set_table. simpl.
      destruct (add_link_extends (recipe_id r, next_id (table k db))
                  (links (table k db))) as (extra & -> & Hnd & Hex).
      exists extra. split_and!; [done|done|].
      intros l Hl. destruct (Hex l Hl) as [-> Hnot]. split; [done|].
      exists a. rewrite elem_of_app, !list_elem_of_singleton. auto.
    + rewrite table_set_table. simpl.
      intros a' [Ha' | ->%list_elem_of_singleton]%elem_of_app Hu
             Hn%list_elem_of_singleton.
      * assert (a' ∈ rows_named k u name db) as Hin
          by by apply rows_named_elem_of.
        rewrite Hrows in Hin. by apply elem_of_nil in Hin.
      * apply elem_of_add_link. by left.
  - rewrite (link_spec_found _ _ _ _ _ _ Hrows). intros [= <-].
    assert (Ha : a ∈ rows_named k u name db)
      by (rewrite Hrows; by apply list_elem_of_singleton).
    apply rows_named_elem_of in Ha as [[Hau Han] Ha].
    split.
    + apply only_table_set.
    + rewrite table_set_table. simpl. exists []. rewrite app_nil_r.
      split; [done|]. by intros ? ?%elem_of_nil.
    + intros ? ->%list_elem_of_singleton. exists a.
      unfold rows_named in *. by rewrite table_set_table.
    + rewrite table_set_table. simpl.
      destruct (add_link_extends (recipe_id r, attr_id a)
                  (links (table k db))) as (extra & -> & Hnd & Hex).
      exists extra. split_and!; [done|done|].
      intros l Hl. destruct (Hex l Hl) as [-> Hnot]. split; [done|].
      exists a. rewrite list_elem_of_singleton. auto.
    + rewrite table_set_table. simpl.
      intros a' Ha' Hu Hn%list_elem_of_singleton.
      assert (a' ∈ rows_named k u name db) as Hin
        by by apply rows_named_elem_of.
      rewrite Hrows in Hin. apply list_elem_of_singleton in Hin as ->.
      apply elem_of_add_link. by left.
  - by rewrite (link_spec_several _ _ _ _ _ _ _ _ Hrows).
Qed.

Lemma reconcile_reconciled k u r names db db' :
  reconcile k u names r db = (Return tt, db') →
  reconciled k u (recipe_id r) names db db'.
Proof.
  revert db. induction names as [|name names IH]; intros db.
  - intros [= <-]. apply reconciled_nil.
  - rewrite reconcile_cons.
    destruct (link_spec k u r name db) as [[[]|e] db1] eqn:Hstep; [|done].
    intros Hrest. apply (reconciled_app _ _ _ [name] names _ db1).
    + by apply link_spec_reconciled.
    + by apply IH.
Qed.

Lemma link_spec_only_table k u r name db :
  only_table k db (link_spec k u r name db).2.
Proof.
  destruct (rows_named k u name db) as [|a [|a2 more]] eqn:Hrows.
  - rewrite (link_spec_created _ _ _ _ _ Hrows). apply only_table_set.
  - rewrite (link_spec_found _ _ _ _ _ _ Hrows). apply only_table_set.
  - rewrite (link_spec_several _ _ _ _ _ _ _ _ Hrows). apply only_table_refl.
Qed.

Lemma reconcile_only_table k u r names db :
  only_table k db (reconcile k u names r db).2.
Proof.
  revert db. induction names as [|name names IH]; intros db.
  - apply only_table_refl.
  - rewrite reconcile_cons.
    pose proof (link_spec_only_table k u r name db) as Hstep.
    destruct (link_spec k u r name db) as [[[]|e] db1]; [|done].
    eapply only_table_trans; [exact Hstep|apply IH].
Qed.

Lemma value_specs_or_not v :
  (∃ names, v = VSpecs names) ∨ (∀ names, v ≠ VSpecs names).
Proof. destruct v; try (by right); left; by eexists. Qed.

Lemma get_or_create_of_only_table k u v r db :
  only_table k db (get_or_create_of k u v r db).2.
Proof.
  destruct (value_specs_or_not v) as [[names ->]|Hv].
  - rewrite get_or_create_of_specs. apply reconcile_only_table.
  - rewrite get_or_create_of_not_specs by done. apply only_table_refl.
Qed.

Lemma get_or_create_of_returns k u v r db x db' :
  get_or_create_of k u v r db = (Return x, db') →
  ∃ names, v = VSpecs names ∧ reconciled k u (recipe_id r) names db db'.
Proof.
  destruct (value_specs_or_not v) as [[names ->]|Hv].
  - rewrite get_or_create_of_specs. destruct x. intros Hrun.
    exists names. split; [done|]. by apply reconcile_reconciled.
  - by rewrite get_or_create_of_not_specs by done.
Qed.

(** The loop returns when no name of the list has several rows. *)
Lemma reconcile_returns k u r names db :
  (∀ name, name ∈ names → (List.length (rows_named k u name db) ≤ 1)%nat) →
  ∃ db', reconcile k u names r db = (Return tt, db').
Proof.
  revert db. induction names as [|name names IH]; intros db Hone.
  - by exists db.
  - rewrite reconcile_cons.
    destruct (link_spec k u r name db) as [[[]|e] db1] eqn:Hstep.
    + apply IH. intros name' Hname'.
      apply link_spec_reconciled in Hstep
        as [_ (new & Hrows & Hnew) Huniq _ _].
      destruct (decide (name' = name)) as [->|Hne].
      * destruct (Huniq name) as [a ->]; [by left|]. simpl. lia.
      * unfold rows_named in *. rewrite Hrows, filter_app.
        rewrite (elem_of_nil_inv (filter _ new)).
        { rewrite app_nil_r. apply Hone. by right. }
        intros a [[_ Hn] Ha]%list_elem_of_filter.
        destruct (Hnew a Ha) as (_ & Hin%list_elem_of_singleton & _).
        congruence.
    + exfalso.
      pose proof (Hone name ltac:(by left)) as Hlen.
      destruct (rows_named k u name db) as [|a [|a2 more]] eqn:Hrows.
      * by rewrite (link_spec_created _ _ _ _ _ Hrows) in Hstep.
      * by rewrite (link_spec_found _ _ _ _ _ _ Hrows) in Hstep.
      * simpl in Hlen. lia.
Qed.

(** ** Saving a row *)

Lemma pre_save_returns r db :
  ∃ r' db', pre_save r db = (Return r', db') ∧
    recipe_id r' = recipe_id r ∧ recipe_user r' = recipe_user r ∧
    recipes db' = recipes db ∧ next_recipe_id db' = next_recipe_id db ∧
    tag_table db' = tag_table db ∧ ingredient_table db' = ingredient_table db ∧
    ((∀ content, recipe_image r ≠ PendingImage content) → r' = r ∧ db' = db).
Proof.
  unfold pre_save. destruct (recipe_image r) eqn:Himg;
    eexists _, _; (split; [reflexivity|]); simpl; split_and!; try done.
  intros Hno. by destruct (Hno content).
Qed.

(** ** Dictionaries *)

Lemma dict_get_None k (d : dict) : dict_get k d = None ↔ k ∉ d.*1.
Proof.
  induction d as [|[k' v] d IH]; simpl.
  - split; [intros _; apply not_elem_of_nil|done].
  - rewrite not_elem_of_cons. case_decide as Hk.
    + split; [done|]. intros [Hne _]. by destruct Hne.
    + rewrite IH. split; [|by intros [_ ?]].
      intros ?. split; [congruence|done].
Qed.

Lemma dict_get_del_ne k k' (d : dict) :
  k ≠ k' → dict_get k' (dict_del k d) = dict_get k' d.
Proof.
  intros Hne. unfold dict_del. induction d as [|[k0 v] d IH]; [done|].
  rewrite filter_cons. simpl.
  repeat case_decide; simpl; repeat case_decide; congruence || done.
Qed.

Lemma dict_get_del_eq k (d : dict) : dict_get k (dict_del k d) = None.
Proof.
  apply dict_get_None. unfold dict_del.
  intros ([k' v] & -> & [Hk _]%list_elem_of_filter)%list_elem_of_fmap. done.
Qed.

Lemma dict_del_absent k (d : dict) : dict_get k d = None → dict_del k d = d.
Proof.
  unfold dict_del. induction d as [|[k' v] d IH]; [done|].
  intros Hd. simpl in Hd. case_decide; [done|].
  rewrite filter_cons_True by done. f_equal. by apply IH.
Qed.

Lemma dict_del_comm k k' (d : dict) :
  dict_del k (dict_del k' d) = dict_del k' (dict_del k d).
Proof.
  unfold dict_del. rewrite !list_filter_filter.
  apply list_filter_iff. tauto.
Qed.

Lemma dict_del_keys k (d : dict) x : x ∈ (dict_del k d).*1 → x ∈ d.*1.
Proof.
  unfold dict_del.
  intros (kv & -> & [_ Hkv]%list_elem_of_filter)%list_elem_of_fmap.
  by apply list_elem_of_fmap_2.
Qed.

Lemma dict_pop_fst k def (d : dict) :
  (dict_pop k def d).1 = default def (dict_get k d).
Proof. unfold dict_pop. by destruct (dict_get k d). Qed.

Lemma dict_pop_snd k def (d : dict) : (dict_pop k def d).2 = dict_del k d.
Proof.
  unfold dict_pop. destruct (dict_get k d) eqn:Hd; [done|].
  by rewrite dict_del_absent.
Qed.

(** ** The shape of [create] and [update] *)

Lemma update_eq u inst vd :
  RecipeSerializer.update u inst vd =
  (let* _ :=
     phase KTag u inst (default VNone (dict_get "tags" vd)) in
   let* _ :=
     phase KIngredient u inst (default VNone (dict_get "ingredients" vd)) in
   save (setattrs inst (dict_del "ingredients" (dict_del "tags" vd)))).
Proof.
  unfold RecipeSerializer.update.
  rewrite (surjective_pairing (dict_pop "tags" VNone vd)).
  rewrite (surjective_pairing (dict_pop "ingredients" VNone _)).
  rewrite !dict_pop_fst, !dict_pop_snd.
  rewrite (dict_get_del_ne "tags" "ingredients") by done.
  reflexivity.
Qed.

Lemma create_eq u vd :
  RecipeSerializer.create u vd =
  (let* recipe :=
     Recipe_objects_create (dict_del "ingredients" (dict_del "tags" vd)) in
   let* _ :=
     get_or_create_of KTag u (default (VSpecs []) (dict_get "tags" vd))
       recipe in
   let* _ :=
     get_or_create_of KIngredient u
       (default (VSpecs []) (dict_get "ingredients" vd)) recipe in
   ret recipe).
Proof.
  unfold RecipeSerializer.create.
  rewrite (surjective_pairing (dict_pop "tags" (VSpecs []) vd)).
  rewrite (surjective_pairing (dict_pop "ingredients" (VSpecs []) _)).
  rewrite !dict_pop_fst, !dict_pop_snd.
  rewrite (dict_get_del_ne "tags" "ingredients") by done.
  reflexivity.
Qed.

(** ** Operations that leave a table alone *)

Lemma keeps_table_ret {A} k (a : A) : keeps_table k (ret a).
Proof. done. Qed.

Lemma keeps_table_raise {A} k e : keeps_table k (@raise A e).
Proof. done. Qed.

Lemma keeps_table_bind {A B} k (m : M A) (f : A → M B) :
  keeps_table k m → (∀ a, keeps_table k (f a)) → keeps_table k (bind m f).
Proof.
  intros Hm Hf db. unfold bind. specialize (Hm db).
  destruct (m db) as [[a|e] db1]; simpl in *; [|done].
  by rewrite Hf.
Qed.

Lemma keeps_table_only k k' {A} (m : M A) :
  k' ≠ k → (∀ db, only_table k' db (m db).2) → keeps_table k m.
Proof. intros Hne Hm db. by eapply only_table_other. Qed.

Lemma related_clear_only_table k r db :
  only_table k db (related_clear k r db).2.
Proof. apply only_table_set. Qed.

Lemma phase_only_table k u inst v db :
  only_table k db (phase k u inst v db).2.
Proof.
  unfold phase. case_decide; [|apply only_table_refl].
  unfold bind. simpl.
  eapply only_table_trans; [apply (related_clear_only_table k inst)|].
  simpl. apply get_or_create_of_only_table.
Qed.

Lemma phase_absent k u inst : phase k u inst VNone = ret tt.
Proof. unfold phase. by case_decide. Qed.

Lemma keeps_table_pre_save k r : keeps_table k (pre_save r).
Proof.
  intros db. unfold pre_save. destruct (recipe_image r); by destruct k.
Qed.

Lemma keeps_table_save k r : keeps_table k (save r).
Proof.
  apply keeps_table_bind; [apply keeps_table_pre_save|].
  intros r' db. case_decide; by destruct k.
Qed.

(** ** The collections of a recipe *)

Lemma related_ids_elem_of k rid db i :
  i ∈ related_ids k rid db ↔ (rid, i) ∈ links (table k db).
Proof.
  unfold related_ids. rewrite list_elem_of_fmap. split.
  - intros ([rid' i'] & -> & [Hrid Hl]%list_elem_of_filter).
    simpl in Hrid. by subst.
  - intros Hl. exists (rid, i). split; [done|].
    by apply list_elem_of_filter.
Qed.

Lemma related_ids_app k rid db db' extra :
  links (table k db') = links (table k db) ++ extra →
  related_ids k rid db' =
  related_ids k rid db ++ (filter (λ l, l.1 = rid) extra).*2.
Proof.
  intros Hl. unfold related_ids. by rewrite Hl, filter_app, fmap_app.
Qed.

Lemma related_ids_cleared k r db rid :
  related_ids k rid (related_clear k r db).2 =
  if decide (rid = recipe_id r) then [] else related_ids k rid db.
Proof.
  unfold related_ids, related_clear. simpl. rewrite table_set_table. simpl.
  rewrite list_filter_filter. case_decide as Hrid.
  - subst. rewrite (elem_of_nil_inv (filter _ _)); [done|].
    intros l [[? ?] _]%list_elem_of_filter. done.
  - f_equal. apply list_filter_iff. intros l. split; [tauto|].
    intros Hl. split; [done|congruence].
Qed.


(** A run of the loop that returns keeps the links of the recipe free of
    repetitions. *)
Lemma reconciled_NoDup k u rid names db db' :
  reconciled k u rid names db db' →
  NoDup (related_ids k rid db) → NoDup (related_ids k rid db').
Proof.
  intros [_ _ _ (extra & Hl & Hnd & Hex) _] Hbefore.
  rewrite (related_ids_app _ _ _ _ _ Hl). apply NoDup_app. split_and!.
  - done.
  - intros i Hi ([rid' i'] & -> & [Hrid Hin]%list_elem_of_filter)%list_elem_of_fmap.
    simpl in *. subst rid'. destruct (Hex _ Hin) as [Hnot _].
    apply Hnot. by apply related_ids_elem_of.
  - apply NoDup_fmap_2_strong; [|by apply NoDup_filter].
    intros [r1 i1] [r2 i2] [H1 _]%list_elem_of_filter
           [H2 _]%list_elem_of_filter. simpl in *. congruence.
Qed.

(** ** The runs of [update] and of [create] that return *)

Lemma update_returns u inst vd db inst' db' :
  RecipeSerializer.update u inst vd db = (Return inst', db') →
  ∃ db1 db2,
    phase KTag u inst (default VNone (dict_get "tags" vd)) db
      = (Return tt, db1) ∧
    phase KIngredient u inst (default VNone (dict_get "ingredients" vd)) db1
      = (Return tt, db2) ∧
    save (setattrs inst (dict_del "ingredients" (dict_del "tags" vd))) db2
      = (Return inst', db').
Proof.
  rewrite update_eq. unfold bind at 1.
  destruct (phase KTag _ _ _ db) as [[[]|e1] db1] eqn:H1; [|done].
  unfold bind at 1.
  destruct (phase KIngredient _ _ _ db1) as [[[]|e2] db2] eqn:H2; [|done].
  intros Hsave. by exists db1, db2.
Qed.


Lemma phase_specs_returns k u inst names dba dbb :
  phase k u inst (VSpecs names) dba = (Return tt, dbb) →
  reconciled k u (recipe_id inst) names (related_clear k inst dba).2 dbb.
Proof.
  unfold phase. rewrite decide_True by done. unfold bind. simpl.
  rewrite get_or_create_of_specs. apply reconcile_reconciled.
Qed.

Lemma related_ids_table k rid db db' :
  table k db' = table k db → related_ids k rid db' = related_ids k rid db.
Proof. unfold related_ids. by intros ->. Qed.

Lemma rows_named_table k u name db db' :
  table k db' = table k db → rows_named k u name db' = rows_named k u name db.
Proof. unfold rows_named. by intros ->. Qed.

Lemma update_keeps_table_of_absent_key k u inst vd :
  dict_get (spec_key k) vd = None →
  keeps_table k (RecipeSerializer.update u inst vd).
Proof.
  intros Hget. rewrite update_eq.
  destruct k; simpl in Hget; rewrite Hget; simpl; rewrite phase_absent.
  - apply keeps_table_bind; [apply keeps_table_ret|]. intros _.
    apply keeps_table_bind; [|intros _; apply keeps_table_save].
    apply (keeps_table_only _ KIngredient); [done|].
    intros db. apply phase_only_table.
  - apply keeps_table_bind.
    { apply (keeps_table_only _ KTag); [done|].
      intros db. apply phase_only_table. }
    intros _. apply keeps_table_bind; [apply keeps_table_ret|].
    intros _. apply keeps_table_save.
Qed.

(** ** The reconciler: replacement, reuse and duplicates *)



(** C4, as amended.  The spec [{name}] at the head of the list, processed
    for the caller [u] on any store: when exactly one row of [u] carries the
    name, no row is created and that row is linked to the recipe; when no
    row does, one row with owner [u] and that name is added, under the next
    id, and linked; when several rows do, the lookup raises and the store
    is as before.  In the first two cases the loop goes on with the rest of
    the list. *)
Theorem get_or_create_links_the_one_row k u name names r db :
  (∀ a, rows_named k u name db = [a] →
     ∃ db1,
       rows (table k db1) = rows (table k db) ∧
       attr_id a ∈ related_ids k (recipe_id r) db1 ∧
       get_or_create_of k u (VSpecs (name :: names)) r db
         = get_or_create_of k u (VSpecs names) r db1) ∧
  (rows_named k u name db = [] →
     ∃ db1 a,
       rows (table k db1) = rows (table k db) ++ [a] ∧
       a = mkAttr (next_id (table k db)) name u ∧
       attr_id a ∈ related_ids k (recipe_id r) db1 ∧
       get_or_create_of k u (VSpecs (name :: names)) r db
         = get_or_create_of k u (VSpecs names) r db1) ∧
  ((2 ≤ List.length (rows_named k u name db))%nat →
     get_or_create_of k u (VSpecs (name :: names)) r db
       = (Raise MultipleObjectsReturned, db)).
Proof.
  rewrite !get_or_create_of_specs. split_and!.
  - intros a Ha. eexists. rewrite reconcile_cons.
    rewrite (link_spec_found _ _ _ _ _ _ Ha). split_and!; [| |done].
    + by rewrite table_set_table.
    + rewrite related_ids_elem_of, table_set_table. simpl.
      apply elem_of_add_link. by left.
  - intros Hnone. eexists _, _. rewrite reconcile_cons.
    rewrite (link_spec_created _ _ _ _ _ Hnone).
    split_and!; [|done| |done].
    + by rewrite table_set_table.
    + rewrite related_ids_elem_of, table_set_table. simpl.
      apply elem_of_add_link. by left.
  - intros Hlen. rewrite reconcile_cons.
    destruct (rows_named k u name db) as [|a1 [|a2 more]] eqn:Hrows;
      [simpl in Hlen; lia..|].
    by rewrite (link_spec_several _ _ _ _ _ _ _ _ Hrows).
Qed.



(** C4, as stated, fails where two rows of the caller carry the name.  The
    store is the one a rename on the tag endpoint leaves: there a row with
    the owner and the name exists, and yet the spec raises, links nothing
    and leaves the recipe with the links it had. *)
Lemma get_or_create_raises_on_two_rows :
  dispatch (BaseRecipeArrtViewSet.update KTag sample_validation true
              (mkRequest 7 [] [("name", VStr "vegan")]) 2) sample_db
    = (mkResponse HTTP_200_OK (DataAttr (mkAttr 2 "vegan" 7)), renamed_db) ∧
  (∃ a, a ∈ rows (table KTag renamed_db) ∧ attr_user a = 7 ∧
        attr_name a = "vegan") ∧
  RecipeSerializer._get_or_create_tags 7 (VSpecs ["vegan"]) fries renamed_db
    = (Raise MultipleObjectsReturned, renamed_db) ∧
  ¬ (∃ db', RecipeSerializer._get_or_create_tags 7 (VSpecs ["vegan"]) fries
              renamed_db = (Return tt, db')) ∧
  ∀ a, a ∈ rows (table KTag renamed_db) → attr_user a = 7 →
       attr_name a = "vegan" →
       attr_id a ∉ related_ids KTag (recipe_id fries) renamed_db.
Proof.
  split_and!.
  - vm_compute. reflexivity.
  - exists (mkAttr 1 "vegan" 7). split_and!; [by left|done|done].
  - reflexivity.
  - by intros [db' Hrun].
  - intros a Ha Hu Hn Hin. vm_compute in Hin.
    apply list_elem_of_singleton in Hin.
    vm_compute in Ha.
    repeat (apply elem_of_cons in Ha as [->|Ha]); try done.
    by apply elem_of_nil in Ha.
Qed.

Lemma get_or_create_links_the_one_row_witness :
  (∃ db1,
     rows_named KTag 7 "dinner" sample_db = [mkAttr 2 "dinner" 7] ∧
     rows (table KTag db1) = rows (table KTag sample_db) ∧
     2 ∈ related_ids KTag (recipe_id fries) db1 ∧
     get_or_create_of KTag 7 (VSpecs ["dinner"; "lunch"]) fries sample_db
       = get_or_create_of KTag 7 (VSpecs ["lunch"]) fries db1) ∧
  (∃ db1 a,
     rows_named KTag 7 "lunch" sample_db = [] ∧
     rows (table KTag db1) = rows (table KTag sample_db) ++ [a] ∧
     a = mkAttr 4 "lunch" 7 ∧
     attr_id a ∈ related_ids KTag (recipe_id fries) db1 ∧
     get_or_create_of KTag 7 (VSpecs ["lunch"; "dinner"]) fries sample_db
       = get_or_create_of KTag 7 (VSpecs ["dinner"]) fries db1) ∧
  ((2 ≤ List.length (rows_named KTag 7 "vegan" renamed_db))%nat ∧
   get_or_create_of KTag 7 (VSpecs ["vegan"; "lunch"]) fries renamed_db
     = (Raise MultipleObjectsReturned, renamed_db)).
Proof.
  split_and!.
  - destruct (get_or_create_links_the_one_row KTag 7 "dinner" ["lunch"]
                fries sample_db) as [Hone _].
    destruct (Hone (mkAttr 2 "dinner" 7) eq_refl) as (db1 & ? & ? & ?).
    exists db1. by split_and!.
  - destruct (get_or_create_links_the_one_row KTag 7 "lunch" ["dinner"]
                fries sample_db) as (_ & Hnone & _).
    destruct (Hnone eq_refl) as (db1 & a & ? & ? & ? & ?).
    exists db1, a. by split_and!.
  - vm_compute. lia.
  - destruct (get_or_create_links_the_one_row KTag 7 "vegan" ["lunch"]
                fries renamed_db) as (_ & _ & Hmany).
    apply Hmany. vm_compute. lia.
Defined.

(** ** Creating a recipe *)

Lemma setattr_id r attr v : recipe_id (setattr r attr v) = recipe_id r.
Proof.
  destruct r. unfold setattr. repeat case_decide; try done; by destruct v.
Qed.

Lemma setattrs_id r (d : dict) : recipe_id (setattrs r d) = recipe_id r.
Proof.
  unfold setattrs. revert r. induction d as [|[attr v] d IH]; intros r.
  - done.
  - simpl. by rewrite IH, setattr_id.
Qed.

Lemma keeps_table_Recipe_objects_create k kwargs :
  keeps_table k (Recipe_objects_create kwargs).
Proof.
  unfold Recipe_objects_create.
  destruct (dict_get "user" kwargs) as [[]|]; try apply keeps_table_raise.
  destruct (dict_get "title" kwargs) as [[]|]; try apply keeps_table_raise.
  destruct (dict_get "time_minutes" kwargs) as [[]|];
    try apply keeps_table_raise.
  destruct (dict_get "price" kwargs) as [[]|]; try apply keeps_table_raise.
  apply keeps_table_bind.
  - intros db. apply keeps_table_pre_save.
  - intros r db. by destruct k.
Qed.

Lemma Recipe_objects_create_returns kwargs db r db1 :
  Recipe_objects_create kwargs db = (Return r, db1) →
  recipe_id r = next_recipe_id db ∧
  recipes db1 = recipes db ++ [r] ∧
  next_recipe_id db1 = next_recipe_id db + 1.
Proof.
  unfold Recipe_objects_create.
  destruct (dict_get "user" kwargs) as [[]|]; try done.
  destruct (dict_get "title" kwargs) as [[]|]; try done.
  destruct (dict_get "time_minutes" kwargs) as [[]|]; try done.
  destruct (dict_get "price" kwargs) as [[]|]; try done.
  unfold bind.
  destruct (pre_save_returns
              (setattrs (mkRecipe (next_recipe_id db) "" 0 0 "" "" 0 NoImage)
                        kwargs) db)
    as (r' & db' & -> & Hid & _ & Hrs & Hnext & _).
  intros [= <- <-]. simpl. rewrite Hid, setattrs_id, Hrs, Hnext. done.
Qed.

Lemma get_or_create_of_nil k u r : get_or_create_of k u (VSpecs []) r = ret tt.
Proof. by destruct k. Qed.

Lemma create_keeps_table_of_absent_key k u vd :
  dict_get (spec_key k) vd = None →
  keeps_table k (RecipeSerializer.create u vd).
Proof.
  intros Hget. rewrite create_eq.
  apply keeps_table_bind; [apply keeps_table_Recipe_objects_create|].
  intros r.
  destruct k; simpl in Hget; rewrite Hget; simpl.
  - rewrite (get_or_create_of_nil KTag).
    apply keeps_table_bind; [apply keeps_table_ret|]. intros _.
    apply keeps_table_bind; [|intros _; apply keeps_table_ret].
    apply (keeps_table_only _ KIngredient); [done|].
    intros db. apply get_or_create_of_only_table.
  - rewrite (get_or_create_of_nil KIngredient).
    apply keeps_table_bind.
    { apply (keeps_table_only _ KTag); [done|].
      intros db. apply get_or_create_of_only_table. }
    intros _. apply keeps_table_bind; [apply keeps_table_ret|].
    intros _. apply keeps_table_ret.
Qed.

Lemma create_returns u vd db r db' :
  RecipeSerializer.create u vd db = (Return r, db') →
  ∃ db1 db2,
    Recipe_objects_create (dict_del "ingredients" (dict_del "tags" vd)) db
      = (Return r, db1) ∧
    get_or_create_of KTag u (default (VSpecs []) (dict_get "tags" vd)) r db1
      = (Return tt, db2) ∧
    get_or_create_of KIngredient u
      (default (VSpecs []) (dict_get "ingredients" vd)) r db2
      = (Return tt, db').
Proof.
  rewrite create_eq. unfold bind at 1.
  destruct (Recipe_objects_create _ db) as [[r0|e0] db1] eqn:H0; [|done].
  unfold bind at 1.
  destruct (get_or_create_of KTag _ _ _ db1) as [[[]|e1] db2] eqn:H1; [|done].
  unfold bind at 1.
  destruct (get_or_create_of KIngredient _ _ _ db2) as [[[]|e2] db3] eqn:H2;
    [|done].
  intros [= <- <-]. by exists db1, db2.
Qed.

(** C10. On create an absent [tags] (resp. [ingredients]) key is the same
    as the key with the empty list: the two calls of [create] are the same
    computation, with the same outcome on every store, and when [create]
    returns on a well-formed store the new recipe has no tag (resp. no
    ingredient). *)
Theorem create_absent_key_as_empty_list k u vd vd' db :
  dict_get (spec_key k) vd = None →
  dict_get (spec_key k) vd' = Some (VSpecs []) →
  dict_del (spec_key k) vd' = vd →
  RecipeSerializer.create u vd' db = RecipeSerializer.create u vd db ∧
  (∀ r db', well_formed db →
            RecipeSerializer.create u vd db = (Return r, db') →
            related_ids k (recipe_id r) db' = [] ∧
            RecipeSerializer.create u vd' db = (Return r, db')).
Proof.
  intros Habsent Hempty Hdel.
  assert (Heq : RecipeSerializer.create u vd' db
                = RecipeSerializer.create u vd db).
  { rewrite !create_eq. subst vd. destruct k; simpl in *.
    - rewrite Hempty, dict_get_del_eq. simpl.
      rewrite (dict_get_del_ne "tags" "ingredients") by done.
      by rewrite (dict_del_absent "tags" (dict_del "tags" vd'))
        by apply dict_get_del_eq.
    - rewrite Hempty, dict_get_del_eq. simpl.
      rewrite (dict_get_del_ne "ingredients" "tags") by done.
      rewrite (dict_del_comm "tags" "ingredients").
      by rewrite (dict_del_absent "ingredients" (dict_del "ingredients" _))
        by apply dict_get_del_eq. }
  split; [done|].
  intros r db' (_ & _ & Hlinks) Hrun. split; [|by rewrite Heq].
  pose proof (create_keeps_table_of_absent_key k u vd Habsent db) as Hkeep.
  rewrite Hrun in Hkeep. simpl in Hkeep.
  apply create_returns in Hrun as (db1 & _ & [Hid _]%Recipe_objects_create_returns & _).
  rewrite (related_ids_table _ _ _ _ Hkeep), Hid.
  apply elem_of_nil_inv. intros i Hi%related_ids_elem_of.
  apply Hlinks in Hi. simpl in Hi. lia.
Qed.

Lemma sample_db_well_formed : well_formed sample_db.
Proof.
  split_and!.
  - apply (bool_decide_unpack _). vm_compute. exact I.
  - intros r Hr. vm_compute in Hr.
    repeat (apply elem_of_cons in Hr as [->|Hr]); try done.
    by apply elem_of_nil in Hr.
  - intros k l Hl.
    destruct k; vm_compute in Hl;
      repeat (apply elem_of_cons in Hl as [->|Hl]); try done;
      by apply elem_of_nil in Hl.
Defined.

Lemma create_absent_key_as_empty_list_witness :
  ∃ r db',
    dict_get (spec_key KTag)
      [("title", VStr "pongal"); ("time_minutes", VInt 60);
       ("price", VDecimal 650); ("user", VUser 7)] = None ∧
    RecipeSerializer.create 7
      [("title", VStr "pongal"); ("time_minutes", VInt 60);
       ("price", VDecimal 650); ("user", VUser 7)] sample_db
      = (Return r, db') ∧
    recipe_id r = 4 ∧
    related_ids KTag (recipe_id r) db' = [] ∧
    RecipeSerializer.create 7
      [("title", VStr "pongal"); ("tags", VSpecs []);
       ("time_minutes", VInt 60); ("price", VDecimal 650);
       ("user", VUser 7)] sample_db
      = (Return r, db').
Proof.
  eexists _, _. split; [reflexivity|].
  split; [vm_compute; reflexivity|]. split; [reflexivity|].
  refine (proj2 (create_absent_key_as_empty_list KTag 7
                   [("title", VStr "pongal"); ("time_minutes", VInt 60);
                    ("price", VDecimal 650); ("user", VUser 7)]
                   [("title", VStr "pongal"); ("tags", VSpecs []);
                    ("time_minutes", VInt 60); ("price", VDecimal 650);
                    ("user", VUser 7)] sample_db _ _ _) _ _
                sample_db_well_formed _);
    solve [reflexivity | vm_compute; reflexivity].
Defined.

(** * The recipe query filter *)

Global Instance id_desc_transitive : Transitive id_desc.
Proof. unfold id_desc. intros r1 r2 r3 ? ?. lia. Qed.

Global Instance id_desc_total : Total id_desc.
Proof. unfold id_desc. intros r1 r2. lia. Qed.

Lemma StronglySorted_remove_dups {A} `{EqDecision A} (R : relation A) l :
  StronglySorted R l → StronglySorted R (remove_dups l).
Proof.
  induction 1 as [|x l Hl IH Hx]; simpl; [constructor|].
  destruct (decide_rel elem_of x l); [done|]. constructor; [done|].
  apply list.Forall_forall. intros y Hy.
  apply (proj1 (elem_of_remove_dups _ _)) in Hy.
  rewrite list.Forall_forall in Hx. by apply Hx.
Qed.

Lemma elem_of_filter_related_in k ids db queryset r :
  r ∈ filter_related_in k ids db queryset ↔
  r ∈ queryset ∧ ∃ i, i ∈ ids ∧ i ∈ related_ids k (recipe_id r) db.
Proof.
  unfold filter_related_in. rewrite list_elem_of_bind. split.
  - intros (r' & ([rid i] & -> & [[Hrid Hi] Hl]%list_elem_of_filter)%list_elem_of_fmap & Hr').
    simpl in *. subst rid. split; [done|]. exists i. split; [done|].
    by apply related_ids_elem_of.
  - intros (Hr & i & Hi & Hl%related_ids_elem_of). exists r. split; [|done].
    apply list_elem_of_fmap. exists (recipe_id r, i). split; [done|].
    by apply list_elem_of_filter.
Qed.

Lemma get_queryset_eq request db :
  RecipeViewSet.get_queryset request db =
  match parse_filter (query_get "tags" (query_params request)) with
  | Raise e => (Raise e, db)
  | Return tag_filter =>
      match parse_filter (query_get "ingredients" (query_params request)) with
      | Raise e => (Raise e, db)
      | Return ingredient_filter =>
          (Return
             (distinct (order_by_desc_id (filter_user (request_user request)
                (apply_filter KIngredient ingredient_filter db
                   (apply_filter KTag tag_filter db (recipes db)))))), db)
      end
  end.
Proof.
  unfold RecipeViewSet.get_queryset, RecipeViewSet._params_to_ints,
    parse_filter, bind, snapshot, ret, raise.
  destruct (truthy (query_get "tags" _)); simpl.
  - destruct (mapM int _); simpl; [|done].
    destruct (truthy (query_get "ingredients" _)); simpl; [|done].
    by destruct (mapM int _).
  - destruct (truthy (query_get "ingredients" _)); simpl; [|done].
    by destruct (mapM int _).
Qed.

Lemma parse_filter_selects k p f db r :
  parse_filter p = Return f →
  (selects k p db r ↔
   match f with
   | Some ids => ∃ i, i ∈ ids ∧ i ∈ related_ids k (recipe_id r) db
   | None => True
   end).
Proof.
  unfold parse_filter, selects. destruct (truthy p).
  - destruct (mapM int _) as [ids|]; [|done]. intros [= <-]. split.
    + intros Hsel. by destruct (Hsel eq_refl) as (ids' & [= <-] & Hi).
    + intros Hi _. by exists ids.
  - intros [= <-]. split; [done|]. by intros _ ?.
Qed.

Lemma elem_of_apply_filter k f db queryset r :
  r ∈ apply_filter k f db queryset ↔
  r ∈ queryset ∧
  match f with
  | Some ids => ∃ i, i ∈ ids ∧ i ∈ related_ids k (recipe_id r) db
  | None => True
  end.
Proof.
  destruct f as [ids|]; simpl; [apply elem_of_filter_related_in|tauto].
Qed.

(** The rows of a listing that returns. *)
Lemma get_queryset_returns request db rs db' :
  RecipeViewSet.get_queryset request db = (Return rs, db') →
  db' = db ∧
  NoDup rs ∧
  StronglySorted id_desc rs ∧
  ∀ r, r ∈ rs ↔
       r ∈ recipes db ∧ recipe_user r = request_user request ∧
       selects KTag (query_get "tags" (query_params request)) db r ∧
       selects KIngredient (query_get "ingredients" (query_params request))
               db r.
Proof.
  rewrite get_queryset_eq.
  destruct (parse_filter (query_get "tags" _)) as [ft|] eqn:Ht; [|done].
  destruct (parse_filter (query_get "ingredients" _)) as [fi|] eqn:Hi;
    [|done].
  intros [= <- <-]. split_and!.
  - done.
  - apply NoDup_remove_dups.
  - apply StronglySorted_remove_dups, StronglySorted_merge_sort; apply _.
  - intros r. unfold distinct, order_by_desc_id, filter_user.
    rewrite elem_of_remove_dups, merge_sort_Permutation.
    rewrite list_elem_of_filter, !elem_of_apply_filter.
    rewrite (parse_filter_selects KTag _ _ db r Ht).
    rewrite (parse_filter_selects KIngredient _ _ db r Hi). tauto.
Qed.

Lemma get_queryset_store request db :
  (RecipeViewSet.get_queryset request db).2 = db.
Proof.
  rewrite get_queryset_eq.
  destruct (parse_filter (query_get "tags" _)); [|done].
  by destruct (parse_filter (query_get "ingredients" _)).
Qed.

(** C1. A listing for the caller [U] that returns holds rows of the recipe
    table owned by [U] only, whatever the [tags] and [ingredients]
    parameters are, and it holds every recipe of [U] that the parameters
    select: every recipe of [U] when there is no parameter. *)
Theorem list_limited_to_user request db rs db' :
  RecipeViewSet.get_queryset request db = (Return rs, db') →
  (∀ r, r ∈ rs → recipe_user r = request_user request ∧ r ∈ recipes db) ∧
  (∀ r, r ∈ recipes db → recipe_user r = request_user request →
        selects KTag (query_get "tags" (query_params request)) db r →
        selects KIngredient (query_get "ingredients" (query_params request))
                db r →
        r ∈ rs).
Proof.
  intros (_ & _ & _ & Hrs)%get_queryset_returns. split.
  - intros r (? & ? & _)%Hrs. done.
  - intros r ? ? ? ?. by apply Hrs.
Qed.

(** C7. A listing that returns holds exactly the caller's recipes that are
    linked to one of the ids of the [tags] parameter, when it is given, and
    to one of the ids of the [ingredients] parameter, when it is given;
    no row is there twice, and the rows are in descending order of id. *)
Theorem list_filters_by_linked_ids request db rs db' :
  RecipeViewSet.get_queryset request db = (Return rs, db') →
  (∀ r, r ∈ rs ↔
        r ∈ recipes db ∧ recipe_user r = request_user request ∧
        selects KTag (query_get "tags" (query_params request)) db r ∧
        selects KIngredient (query_get "ingredients" (query_params request))
                db r) ∧
  NoDup rs ∧
  StronglySorted id_desc rs.
Proof.
  intros (_ & ? & ? & ?)%get_queryset_returns. done.
Qed.

Lemma list_limited_to_user_witness :
  ∃ rs db',
    RecipeViewSet.get_queryset (mkRequest 7 [("tags", "1, 2,3")] []) sample_db
      = (Return rs, db') ∧
    rs = [eggplant; curry] ∧
    (∀ r, r ∈ rs → recipe_user r = 7 ∧ r ∈ recipes sample_db).
Proof.
  eexists _, _. split; [vm_compute; reflexivity|]. split; [reflexivity|].
  refine (proj1 (list_limited_to_user (mkRequest 7 [("tags", "1, 2,3")] [])
                   sample_db _ _ _)).
  vm_compute; reflexivity.
Defined.

Lemma list_filters_by_linked_ids_witness :
  ∃ rs db',
    RecipeViewSet.get_queryset
      (mkRequest 7 [("tags", "1,2"); ("ingredients", "1")] []) sample_db
      = (Return rs, db') ∧
    rs = [eggplant; curry] ∧
    NoDup rs ∧ StronglySorted id_desc rs.
Proof.
  eexists _, _. split; [vm_compute; reflexivity|]. split; [reflexivity|].
  refine (proj2 (list_filters_by_linked_ids
                   (mkRequest 7 [("tags", "1,2"); ("ingredients", "1")] [])
                   sample_db _ _ _)).
  vm_compute; reflexivity.
Defined.

(** ** Unparseable id lists *)





(** * Validation and the actions of the view set *)

Section ValidationFacts.
Variable run_validation : string → value → option value.

Lemma validate_fields_keys partial payload fields errors validated
    errors' validated' :
  foldl (validate_field run_validation partial payload) (errors, validated)
        fields = (errors', validated') →
  ∀ key, key ∈ validated'.*1 →
         key ∈ validated.*1 ∨
         (key ∈ fields.*1 ∧ is_Some (dict_get key payload)).
Proof.
  revert errors validated.
  induction fields as [|[name required] fields IH]; intros errors validated.
  - intros [= <- <-] key Hkey. by left.
  - simpl. intros Hfold key Hkey.
    destruct (dict_get name payload) as [v|] eqn:Hget.
    + destruct (run_validation name v) as [v'|].
      * destruct (IH _ _ Hfold key Hkey) as [Hin|[Hin Hsome]].
        -- rewrite fmap_app, elem_of_app in Hin. destruct Hin as [Hin|Hin].
           ++ by left.
           ++ apply list_elem_of_singleton in Hin. simpl in Hin. right.
              rewrite Hin. split; [by left|]. rewrite Hget. by eexists.
        -- right. split; [by right|done].
      * destruct (IH _ _ Hfold key Hkey) as [Hin|[Hin Hsome]]; [by left|].
        right. split; [by right|done].
    + destruct (required && negb partial);
        (destruct (IH _ _ Hfold key Hkey) as [Hin|[Hin Hsome]]; [by left|]);
        right; (split; [by right|done]).
Qed.

Lemma validate_fields_errors partial payload fields errors validated :
  ∃ more,
    (foldl (validate_field run_validation partial payload)
           (errors, validated) fields).1 = errors ++ more.
Proof.
  revert errors validated.
  induction fields as [|[name required] fields IH]; intros errors validated.
  - exists []. by rewrite app_nil_r.
  - simpl. destruct (dict_get name payload) as [v|].
    + destruct (run_validation name v) as [v'|]; [apply IH|].
      destruct (IH (errors ++ [name]) validated) as [more ->].
      exists (name :: more). by rewrite <- app_assoc.
    + destruct (required && negb partial); [|apply IH].
      destruct (IH (errors ++ [name]) validated) as [more ->].
      exists (name :: more). by rewrite <- app_assoc.
Qed.

(** The validated data has keys of the declared writable fields only, and
    only keys that the payload has. *)
Lemma is_valid_keys cls partial payload validated key :
  is_valid run_validation cls partial payload = inr validated →
  key ∈ validated.*1 →
  key ∈ (writable_fields cls).*1 ∧ is_Some (dict_get key payload).
Proof.
  unfold is_valid, is_valid_fields.
  destruct (foldl _ _ _) as [errors validated'] eqn:Hfold.
  destruct errors; [|done]. intros [= <-] Hkey.
  destruct (validate_fields_keys _ _ _ _ _ _ _ Hfold key Hkey) as [Hin|?];
    [|done].
  by apply elem_of_nil in Hin.
Qed.

Lemma is_valid_absent cls partial payload validated key :
  is_valid run_validation cls partial payload = inr validated →
  dict_get key payload = None → dict_get key validated = None.
Proof.
  intros Hvalid Hget. apply dict_get_None. intros Hkey.
  destruct (is_valid_keys _ _ _ _ _ Hvalid Hkey) as [_ [v Hv]]. congruence.
Qed.

(** The image serializer refuses a payload whose [image] is missing or does
    not validate. *)
Lemma is_valid_image_refused payload :
  (∀ v, dict_get "image" payload = Some v → run_validation "image" v = None) →
  is_valid run_validation RecipeImageSerializerClass false payload
    = inl ["image"].
Proof.
  intros Hbad. unfold is_valid, is_valid_fields. simpl.
  destruct (dict_get "image" payload) as [v|] eqn:Hget; [|done].
  by rewrite (Hbad v).
Qed.

End ValidationFacts.

Lemma get_object_returns request pk db r db' :
  RecipeViewSet.get_object request pk db = (Return r, db') →
  db' = db ∧ r ∈ recipes db ∧ recipe_id r = pk ∧
  recipe_user r = request_user request.
Proof.
  unfold RecipeViewSet.get_object, bind.
  destruct (RecipeViewSet.get_queryset request db) as [[rs|e] db1] eqn:Hqs;
    [|done].
  apply get_queryset_returns in Hqs as (-> & _ & _ & Hrs).
  destruct (filter (λ r, recipe_id r = pk) rs) as [|r0 more] eqn:Hf; [done|].
  intros [= <- <-].
  assert (r0 ∈ filter (λ r, recipe_id r = pk) rs) as [Hid Hin]%list_elem_of_filter
    by (rewrite Hf; by left).
  apply Hrs in Hin as (? & ? & _). done.
Qed.

Lemma get_object_store request pk db :
  (RecipeViewSet.get_object request pk db).2 = db.
Proof.
  unfold RecipeViewSet.get_object, bind.
  pose proof (get_queryset_store request db) as Hs.
  destruct (RecipeViewSet.get_queryset request db) as [[rs|e] db1];
    simpl in Hs; subst; [|done].
  by destruct (filter _ rs).
Qed.

(** C9. An upload whose payload has no [image] that validates changes
    nothing in the store, the row of the recipe and the media included;
    when the recipe addressed is one of the caller's, the response is the
    validation failure 400 with the error on [image]. *)
Theorem upload_invalid_image_rejected run_validation request pk db :
  (∀ v, dict_get "image" (request_data request) = Some v →
        run_validation "image" v = None) →
  (dispatch (RecipeViewSet.upload_image run_validation request pk) db).2
    = db ∧
  (∀ recipe,
     RecipeViewSet.get_object request pk db = (Return recipe, db) →
     dispatch (RecipeViewSet.upload_image run_validation request pk) db
       = (mkResponse HTTP_400_BAD_REQUEST (DataErrors ["image"]), db) ∧
     recipe ∈ recipes db).
Proof.
  intros Hbad.
  unfold dispatch, RecipeViewSet.upload_image, bind. cbv zeta.
  change (RecipeViewSet.get_serializer_class RecipeViewSet.upload_image_action)
    with RecipeImageSerializerClass.
  rewrite (is_valid_image_refused run_validation _ Hbad).
  pose proof (get_object_store request pk db) as Hs.
  destruct (RecipeViewSet.get_object request pk db) as [[r|e] db1] eqn:Hobj;
    simpl in Hs; subst db1; simpl.
  - split; [done|]. intros recipe [= <-]. split; [done|].
    by apply get_object_returns in Hobj as (_ & ? & _).
  - split; [done|]. by intros recipe.
Qed.

Lemma upload_invalid_image_rejected_witness :
  (∀ v, dict_get "image" [("image", VStr "notanimage")] = Some v →
        sample_validation "image" v = None) ∧
  RecipeViewSet.get_object (mkRequest 7 [] [("image", VStr "notanimage")]) 1
    sample_db = (Return curry, sample_db) ∧
  dispatch (RecipeViewSet.upload_image sample_validation
              (mkRequest 7 [] [("image", VStr "notanimage")]) 1) sample_db
    = (mkResponse HTTP_400_BAD_REQUEST (DataErrors ["image"]), sample_db).
Proof.
  assert (Hbad : ∀ v, dict_get "image" [("image", VStr "notanimage")] = Some v →
                      sample_validation "image" v = None)
    by (intros v [= <-]; reflexivity).
  assert (Hobj : RecipeViewSet.get_object
                   (mkRequest 7 [] [("image", VStr "notanimage")]) 1 sample_db
                 = (Return curry, sample_db))
    by (vm_compute; reflexivity).
  split; [exact Hbad|]. split; [exact Hobj|].
  exact (proj1 (proj2 (upload_invalid_image_rejected sample_validation
                         (mkRequest 7 [] [("image", VStr "notanimage")]) 1
                         sample_db Hbad) curry Hobj)).
Defined.

Lemma view_update_store run_validation partial request pk db :
  (RecipeViewSet.update run_validation partial request pk db).2 = db ∨
  ∃ instance validated_data,
    RecipeViewSet.get_object request pk db = (Return instance, db) ∧
    is_valid run_validation RecipeDetailSerializerClass partial
             (request_data request) = inr validated_data ∧
    (RecipeViewSet.update run_validation partial request pk db).2
      = (RecipeSerializer.update (request_user request) instance
           validated_data db).2.
Proof.
  unfold RecipeViewSet.update, bind. cbv zeta.
  replace (RecipeViewSet.get_serializer_class
             (if partial then RecipeViewSet.partial_update_action
              else RecipeViewSet.update_action))
    with RecipeDetailSerializerClass by (by destruct partial).
  pose proof (get_object_store request pk db) as Hs.
  destruct (RecipeViewSet.get_object request pk db) as [[inst|e] db1] eqn:Hobj;
    simpl in Hs; subst db1; [|by left].
  destruct (is_valid _ _ _ _) as [errors|vd] eqn:Hvalid; [by left|].
  right. exists inst, vd. split_and!; [done|done|]. simpl.
  by destruct (RecipeSerializer.update _ _ _ _) as [[r|e] db2].
Qed.

(** C3. An update whose payload has no [tags] (resp. [ingredients]) key
    leaves the links of that kind of every recipe, and so of the recipe
    updated, as they were: for [update] on validated data without the key,
    and for the update and partial-update actions on a request whose
    payload is without the key, whatever the outcome. *)
Theorem update_absent_key_keeps_collection k :
  (∀ u inst vd db rid,
     dict_get (spec_key k) vd = None →
     related_ids k rid (RecipeSerializer.update u inst vd db).2
       = related_ids k rid db) ∧
  (∀ run_validation partial request pk db rid,
     dict_get (spec_key k) (request_data request) = None →
     related_ids k rid
       (dispatch (RecipeViewSet.update run_validation partial request pk)
                 db).2
       = related_ids k rid db).
Proof.
  split.
  - intros u inst vd db rid Hget. apply related_ids_table.
    by apply update_keeps_table_of_absent_key.
  - intros rv partial request pk db rid Hget.
    replace (dispatch (RecipeViewSet.update rv partial request pk) db).2
      with (RecipeViewSet.update rv partial request pk db).2
      by (unfold dispatch;
          by destruct (RecipeViewSet.update rv partial request pk db)
            as [[?|?] ?]).
    destruct (view_update_store rv partial request pk db)
      as [->|(inst & vd & _ & Hvalid & ->)]; [done|].
    apply related_ids_table, update_keeps_table_of_absent_key.
    by eapply is_valid_absent.
Qed.

Lemma update_absent_key_keeps_collection_witness :
  (dict_get (spec_key KTag) [("title", VStr "green curry")] = None ∧
   related_ids KTag 1
     (RecipeSerializer.update 7 curry [("title", VStr "green curry")]
        sample_db).2 = [1; 2]) ∧
  (dict_get (spec_key KTag)
     (request_data
        (mkRequest 7 []
           [("title", VStr "green curry");
            ("ingredients", VSpecs ["coconut"])])) = None ∧
   related_ids KTag 1
     (dispatch (RecipeViewSet.update sample_validation true
                  (mkRequest 7 []
                     [("title", VStr "green curry");
                      ("ingredients", VSpecs ["coconut"])]) 1)
               sample_db).2 = [1; 2] ∧
   related_ids KIngredient 1
     (dispatch (RecipeViewSet.update sample_validation true
                  (mkRequest 7 []
                     [("title", VStr "green curry");
                      ("ingredients", VSpecs ["coconut"])]) 1)
               sample_db).2 = [2]).
Proof.
  destruct (update_absent_key_keeps_collection KTag) as [Hser Hview].
  split.
  - split; [reflexivity|].
    rewrite (Hser 7 curry [("title", VStr "green curry")] sample_db 1
               eq_refl).
    reflexivity.
  - split; [reflexivity|]. split; [|vm_compute; reflexivity].
    rewrite (Hview sample_validation true
               (mkRequest 7 []
                  [("title", VStr "green curry");
                   ("ingredients", VSpecs ["coconut"])]) 1 sample_db 1
               eq_refl).
    reflexivity.
Defined.

(** * The owner of a recipe *)

Lemma setattr_user_other r attr v :
  attr ≠ "user" → recipe_user (setattr r attr v) = recipe_user r.
Proof.
  intros Hattr. destruct r. unfold setattr.
  repeat case_decide; try done; by destruct v.
Qed.

Lemma setattr_user_set r u : recipe_user (setattr r "user" (VUser u)) = u.
Proof. by destruct r. Qed.

Lemma setattrs_cons r attr v (d : dict) :
  setattrs r ((attr, v) :: d) = setattrs (setattr r attr v) d.
Proof. done. Qed.

Lemma setattrs_user_absent r (d : dict) :
  "user" ∉ d.*1 → recipe_user (setattrs r d) = recipe_user r.
Proof.
  revert r. induction d as [|[attr v] d IH]; intros r; [done|].
  rewrite fmap_cons. intros [Hattr Hd]%not_elem_of_cons. simpl in Hattr.
  rewrite setattrs_cons, IH by done. by apply setattr_user_other.
Qed.

Lemma setattrs_user_set r (d : dict) u :
  "user" ∈ d.*1 → (∀ v, ("user", v) ∈ d → v = VUser u) →
  recipe_user (setattrs r d) = u.
Proof.
  revert r. induction d as [|[attr v] d IH]; intros r.
  - by intros ?%elem_of_nil.
  - rewrite fmap_cons. intros Hkey Hval. simpl in Hkey.
    rewrite setattrs_cons.
    destruct (decide ("user" ∈ d.*1)) as [Hd|Hd].
    + apply IH; [done|]. intros v' Hv'. apply Hval. by right.
    + apply elem_of_cons in Hkey as [<-|?]; [|done].
      rewrite setattrs_user_absent by done.
      rewrite (Hval v) by (by left). apply setattr_user_set.
Qed.

Lemma dict_set_key k v (d : dict) : k ∈ (dict_set k v d).*1.
Proof.
  unfold dict_set. case_decide as Hk.
  - apply list_elem_of_fmap in Hk as ([k' v'] & -> & Hin). simpl.
    apply list_elem_of_fmap. exists (k', v). split; [done|].
    apply list_elem_of_fmap. exists (k', v'). split; [|done].
    simpl. by rewrite decide_True.
  - rewrite fmap_app, elem_of_app. right. by left.
Qed.

Lemma dict_set_value k v (d : dict) v' :
  (k, v') ∈ dict_set k v d → v' = v.
Proof.
  unfold dict_set. case_decide as Hk.
  - intros ([k0 v0] & Heq & Hin)%list_elem_of_fmap. simpl in Heq.
    case_decide; [congruence|]. simplify_eq.
  - intros [Hin|Hin%list_elem_of_singleton]%elem_of_app; [|congruence].
    destruct Hk. apply list_elem_of_fmap. by exists (k, v').
Qed.

Lemma dict_del_elem_of k (d : dict) kv : kv ∈ dict_del k d → kv ∈ d.
Proof. unfold dict_del. by intros [_ ?]%list_elem_of_filter. Qed.

Lemma dict_del_key_ne k k' (d : dict) :
  k ≠ k' → k ∈ d.*1 → k ∈ (dict_del k' d).*1.
Proof.
  intros Hne ([k0 v] & -> & Hin)%list_elem_of_fmap.
  apply list_elem_of_fmap. exists (k0, v). split; [done|].
  by apply list_elem_of_filter.
Qed.

Lemma save_returns r db :
  ∃ r' db',
    save r db = (Return r', db') ∧
    recipe_id r' = recipe_id r ∧ recipe_user r' = recipe_user r ∧
    next_recipe_id db' = next_recipe_id db ∧
    (∀ k, table k db' = table k db) ∧
    recipes db' =
      if decide (recipe_id r ∈ recipe_id <$> recipes db) then
        (λ x, if decide (recipe_id x = recipe_id r) then r' else x)
          <$> recipes db
      else recipes db ++ [r'].
Proof.
  unfold save, bind.
  destruct (pre_save_returns r db)
    as (r' & db1 & -> & Hid & Hu & Hrs & Hnext & Ht & Hi & _).
  rewrite Hid, Hrs.
  destruct (decide (recipe_id r ∈ recipe_id <$> recipes db)); simpl;
    eexists _, _; (split; [reflexivity|]); simpl;
    (split_and!; [done|done|done| |done]); by intros [].
Qed.

(** ** Links added to one recipe *)

Lemma links_at_refl rid db : links_at rid db db.
Proof. split_and!; [done|done|]. intros k l ?. by left. Qed.

Lemma links_at_trans rid db1 db2 db3 :
  links_at rid db1 db2 → links_at rid db2 db3 → links_at rid db1 db3.
Proof.
  intros (Hr1 & Hn1 & Hl1) (Hr2 & Hn2 & Hl2). split_and!; [congruence..|].
  intros k l [Hl|?]%Hl2; [by apply Hl1|by right].
Qed.

Lemma links_at_only_table k rid db db' :
  only_table k db db' →
  (∀ l, l ∈ links (table k db') → l ∈ links (table k db) ∨ l.1 = rid) →
  links_at rid db db'.
Proof.
  intros Honly Hl. split_and!.
  - by eapply only_table_recipes.
  - by eapply only_table_next_recipe_id.
  - intros k' l Hin. destruct (decide (k = k')) as [<-|Hne]; [by apply Hl|].
    left. by rewrite <- (only_table_other k k' db db').
Qed.

Lemma link_spec_links_at k u r name db :
  links_at (recipe_id r) db (link_spec k u r name db).2.
Proof.
  apply (links_at_only_table k); [apply link_spec_only_table|].
  destruct (rows_named k u name db) as [|a [|a2 more]] eqn:Hrows.
  - rewrite (link_spec_created _ _ _ _ _ Hrows). simpl.
    rewrite table_set_table. simpl.
    intros l [->|?]%elem_of_add_link; [by right|by left].
  - rewrite (link_spec_found _ _ _ _ _ _ Hrows). simpl.
    rewrite table_set_table. simpl.
    intros l [->|?]%elem_of_add_link; [by right|by left].
  - rewrite (link_spec_several _ _ _ _ _ _ _ _ Hrows). simpl.
    intros l ?. by left.
Qed.

Lemma reconcile_links_at k u r names db :
  links_at (recipe_id r) db (reconcile k u names r db).2.
Proof.
  revert db. induction names as [|name names IH]; intros db.
  - apply links_at_refl.
  - rewrite reconcile_cons.
    pose proof (link_spec_links_at k u r name db) as Hstep.
    destruct (link_spec k u r name db) as [[[]|e] db1]; [|done].
    eapply links_at_trans; [exact Hstep|apply IH].
Qed.

Lemma get_or_create_of_links_at k u v r db :
  links_at (recipe_id r) db (get_or_create_of k u v r db).2.
Proof.
  destruct (value_specs_or_not v) as [[names ->]|Hv].
  - rewrite get_or_create_of_specs. apply reconcile_links_at.
  - rewrite get_or_create_of_not_specs by done. apply links_at_refl.
Qed.

Lemma related_clear_links_at k r db :
  links_at (recipe_id r) db (related_clear k r db).2.
Proof.
  apply (links_at_only_table k); [apply related_clear_only_table|].
  unfold related_clear. simpl. rewrite table_set_table. simpl.
  intros l [_ ?]%list_elem_of_filter. by left.
Qed.

Lemma phase_links_at k u inst v db :
  links_at (recipe_id inst) db (phase k u inst v db).2.
Proof.
  unfold phase. case_decide; [|apply links_at_refl].
  unfold bind. simpl.
  eapply links_at_trans; [apply (related_clear_links_at k inst)|].
  simpl. apply get_or_create_of_links_at.
Qed.

(** ** One call *)

Lemma owners_kept_refl c db : well_formed db → owners_kept c db db.
Proof.
  intros Hwf. split_and!; [done| |].
  - intros r Hr. by apply list_elem_of_fmap_2.
  - intros r Hr. left. by exists r.
Qed.

Lemma owners_kept_trans c db1 db2 db3 :
  owners_kept c db1 db2 → owners_kept c db2 db3 → owners_kept c db1 db3.
Proof.
  intros (_ & Hids1 & Hrows1) (Hwf & Hids2 & Hrows2). split_and!; [done| |].
  - intros r (r2 & -> & Hr2)%Hids1%list_elem_of_fmap. by apply Hids2.
  - intros r3 [(r2 & Hr2 & Hid & Hu)|[Hc Hnew]]%Hrows2.
    + rewrite <- Hid, <- Hu. by apply Hrows1.
    + right. split; [done|].
      intros (r1 & Hid & Hr1)%list_elem_of_fmap. apply Hnew.
      rewrite Hid. by apply Hids1.
Qed.

Lemma links_at_owners_kept c rid db db' :
  well_formed db → rid < next_recipe_id db → links_at rid db db' →
  owners_kept c db db'.
Proof.
  intros (Hnd & Hlt & Hl) Hrid (Hrs & Hnext & Hlinks). split_and!.
  - split_and!; rewrite ?Hrs, ?Hnext; [done|done|].
    intros k l [Hin| ->]%Hlinks; [by eapply Hl|done].
  - rewrite Hrs. intros r Hr. by apply list_elem_of_fmap_2.
  - rewrite Hrs. intros r Hr. left. by exists r.
Qed.

Lemma save_owners_kept c inst r db :
  well_formed db → inst ∈ recipes db →
  recipe_id r = recipe_id inst → recipe_user r = recipe_user inst →
  owners_kept c db (save r db).2.
Proof.
  intros (Hnd & Hlt & Hl) Hinst Hid Hu.
  destruct (save_returns r db)
    as (r' & db' & -> & Hid' & Hu' & Hnext & Ht & Hrs). simpl.
  rewrite decide_True in Hrs
    by (rewrite Hid; by apply list_elem_of_fmap_2).
  assert (Hids : recipe_id <$> recipes db' = recipe_id <$> recipes db).
  { rewrite Hrs, <- list_fmap_compose. apply list_fmap_ext.
    intros i x _. simpl. case_decide; congruence. }
  split_and!.
  - split_and!; rewrite ?Hids, ?Hnext; [done| |].
    + intros x Hx%(list_elem_of_fmap_2 recipe_id).
      rewrite Hids in Hx.
      apply list_elem_of_fmap in Hx as (x1 & Heq & Hx1).
      rewrite Heq. by apply Hlt.
    + intros k l. rewrite Ht. apply Hl.
  - intros x Hx. rewrite Hids. by apply list_elem_of_fmap_2.
  - intros x. rewrite Hrs. intros (x0 & -> & Hx0)%list_elem_of_fmap.
    left. case_decide.
    + exists inst. split_and!; congruence.
    + by exists x0.
Qed.

Lemma save_setattrs_owners_kept c inst (d : dict) db :
  well_formed db → inst ∈ recipes db → "user" ∉ d.*1 →
  owners_kept c db (save (setattrs inst d) db).2.
Proof.
  intros Hwf Hinst Hd. apply (save_owners_kept c inst); [done|done| |].
  - apply setattrs_id.
  - by apply setattrs_user_absent.
Qed.

Lemma update_owners_kept c u inst (vd : dict) db :
  well_formed db → inst ∈ recipes db → "user" ∉ vd.*1 →
  owners_kept c db (RecipeSerializer.update u inst vd db).2.
Proof.
  intros Hwf Hinst Hvd.
  assert (Hrid : recipe_id inst < next_recipe_id db)
    by (destruct Hwf as (_ & Hlt & _); by apply Hlt).
  rewrite update_eq. unfold bind at 1.
  pose proof (phase_links_at KTag u inst
                (default VNone (dict_get "tags" vd)) db) as H1.
  destruct (phase KTag _ _ _ db) as [[[]|e1] db1]; simpl in H1;
    [|by apply (links_at_owners_kept c (recipe_id inst))].
  unfold bind at 1.
  pose proof (phase_links_at KIngredient u inst
                (default VNone (dict_get "ingredients" vd)) db1) as H2.
  pose proof (links_at_trans _ _ _ _ H1 H2) as H12.
  destruct (phase KIngredient _ _ _ db1) as [[[]|e2] db2]; simpl in H2, H12;
    [|by apply (links_at_owners_kept c (recipe_id inst))].
  pose proof (links_at_owners_kept c _ _ _ Hwf Hrid H12) as Hkept.
  eapply owners_kept_trans; [exact Hkept|].
  apply save_setattrs_owners_kept.
  - by destruct Hkept.
  - destruct H12 as (-> & _). done.
  - intros Hkey. apply Hvd. by do 2 apply dict_del_keys in Hkey.
Qed.

Lemma dict_get_Some_key k (d : dict) v : dict_get k d = Some v → k ∈ d.*1.
Proof.
  intros Hget. destruct (decide (k ∈ d.*1)) as [|Hk]; [done|].
  apply dict_get_None in Hk. congruence.
Qed.

Lemma Recipe_objects_create_cases kwargs db :
  (∃ e, Recipe_objects_create kwargs db = (Raise e, db)) ∨
  (∃ r db1,
     Recipe_objects_create kwargs db = (Return r, db1) ∧
     "user" ∈ kwargs.*1 ∧
     recipe_id r = next_recipe_id db ∧
     recipe_user r =
       recipe_user
         (setattrs (mkRecipe (next_recipe_id db) "" 0 0 "" "" 0 NoImage)
                   kwargs) ∧
     recipes db1 = recipes db ++ [r] ∧
     next_recipe_id db1 = next_recipe_id db + 1 ∧
     ∀ k, table k db1 = table k db).
Proof.
  unfold Recipe_objects_create.
  destruct (dict_get "user" kwargs) as [[]|] eqn:Huser;
    try (left; by eexists).
  destruct (dict_get "title" kwargs) as [[]|]; try (left; by eexists).
  destruct (dict_get "time_minutes" kwargs) as [[]|];
    try (left; by eexists).
  destruct (dict_get "price" kwargs) as [[]|]; try (left; by eexists).
  right. unfold bind.
  destruct (pre_save_returns
              (setattrs (mkRecipe (next_recipe_id db) "" 0 0 "" "" 0 NoImage)
                        kwargs) db)
    as (r' & db' & -> & Hid & Hu & Hrs & Hnext & Ht & Hi & _).
  eexists _, _. split; [reflexivity|]. simpl.
  rewrite Hid, setattrs_id, Hrs, Hnext. split_and!; try done.
  - by eapply dict_get_Some_key.
  - by intros [].
Qed.

Lemma create_cases u (vd : dict) db :
  match Recipe_objects_create (dict_del "ingredients" (dict_del "tags" vd))
                              db with
  | (Raise e, db1) => RecipeSerializer.create u vd db = (Raise e, db1)
  | (Return r, db1) =>
      match get_or_create_of KTag u
              (default (VSpecs []) (dict_get "tags" vd)) r db1 with
      | (Raise e, db2) => RecipeSerializer.create u vd db = (Raise e, db2)
      | (Return _, db2) =>
          match get_or_create_of KIngredient u
                  (default (VSpecs []) (dict_get "ingredients" vd)) r db2 with
          | (Raise e, db3) =>
              RecipeSerializer.create u vd db = (Raise e, db3)
          | (Return _, db3) =>
              RecipeSerializer.create u vd db = (Return r, db3)
          end
      end
  end.
Proof.
  rewrite create_eq. unfold bind.
  destruct (Recipe_objects_create _ db) as [[r|e] db1]; [|done].
  destruct (get_or_create_of KTag _ _ _ db1) as [[[]|e1] db2]; [|done].
  by destruct (get_or_create_of KIngredient _ _ _ db2) as [[[]|e2] db3].
Qed.

Lemma create_owners_kept u (vd : dict) db :
  well_formed db →
  "user" ∈ vd.*1 → (∀ v, ("user", v) ∈ vd → v = VUser u) →
  owners_kept (Some u) db (RecipeSerializer.create u vd db).2 ∧
  ∀ r, (RecipeSerializer.create u vd db).1 = Return r →
       recipe_user r = u ∧ r ∈ recipes (RecipeSerializer.create u vd db).2.
Proof.
  intros Hwf Hkey Hval. pose proof (create_cases u vd db) as Hrun.
  set (kwargs := dict_del "ingredients" (dict_del "tags" vd)) in *.
  destruct (Recipe_objects_create_cases kwargs db)
    as [[e He]|(r & db1 & He & _ & Hid & Hu & Hrs & Hnext & Ht)];
    rewrite He in Hrun.
  { rewrite Hrun. simpl. split; [by apply owners_kept_refl|done]. }
  assert (Huser : recipe_user r = u).
  { rewrite Hu. apply setattrs_user_set.
    - unfold kwargs. by do 2 (apply dict_del_key_ne; [done|]).
    - intros v Hv. apply Hval. unfold kwargs in Hv.
      by do 2 apply dict_del_elem_of in Hv. }
  destruct Hwf as (Hnd & Hlt & Hl).
  assert (Hwf1 : well_formed db1).
  { split_and!.
    - rewrite Hrs, fmap_app. apply NoDup_app. split_and!; [done| |].
      + intros i (x & -> & Hx)%list_elem_of_fmap Hi.
        apply list_elem_of_singleton in Hi. simpl in Hi.
        apply Hlt in Hx. lia.
      + apply NoDup_singleton.
    - rewrite Hrs, Hnext.
      intros x [Hx| ->%list_elem_of_singleton]%elem_of_app; [|lia].
      apply Hlt in Hx. lia.
    - intros k l. rewrite Ht, Hnext. intros Hin%Hl. lia. }
  assert (Hkept1 : owners_kept (Some u) db db1).
  { split_and!; [done| |].
    - intros x Hx. rewrite Hrs, fmap_app, elem_of_app. left.
      by apply list_elem_of_fmap_2.
    - rewrite Hrs. intros x [Hx| ->%list_elem_of_singleton]%elem_of_app.
      + left. by exists x.
      + right. split; [by rewrite Huser|].
        intros (x & Hidx & Hx)%list_elem_of_fmap. apply Hlt in Hx. lia. }
  assert (Hrid : recipe_id r < next_recipe_id db1) by lia.
  assert (Hin1 : r ∈ recipes db1)
    by (rewrite Hrs, elem_of_app; right; by left).
  pose proof (get_or_create_of_links_at KTag u
                (default (VSpecs []) (dict_get "tags" vd)) r db1) as H1.
  destruct (get_or_create_of KTag _ _ _ db1) as [[[]|e1] db2]; simpl in H1.
  2: { rewrite Hrun. simpl. split; [|done].
       eapply owners_kept_trans; [exact Hkept1|].
       by apply (links_at_owners_kept _ (recipe_id r)). }
  pose proof (get_or_create_of_links_at KIngredient u
                (default (VSpecs []) (dict_get "ingredients" vd)) r db2)
    as H2.
  pose proof (links_at_trans _ _ _ _ H1 H2) as H12.
  destruct (get_or_create_of KIngredient _ _ _ db2) as [[[]|e2] db3];
    simpl in H2, H12; rewrite Hrun; simpl.
  - split.
    + eapply owners_kept_trans; [exact Hkept1|].
      by apply (links_at_owners_kept _ (recipe_id r)).
    + intros ? [= <-]. split; [done|]. destruct H12 as (-> & _). done.
  - split; [|done]. eapply owners_kept_trans; [exact Hkept1|].
    by apply (links_at_owners_kept _ (recipe_id r)).
Qed.

Lemma dispatch_store (view : M Response) db :
  (dispatch view db).2 = (view db).2.
Proof. unfold dispatch. by destruct (view db) as [[?|?] ?]. Qed.

Lemma perform_create_eq request (vd : dict) :
  RecipeViewSet.perform_create request vd =
  RecipeSerializer.create (request_user request)
    (dict_set "user" (VUser (request_user request)) vd).
Proof. reflexivity. Qed.

Lemma view_create_store run_validation request db :
  (RecipeViewSet.create run_validation request db).2 = db ∨
  ∃ validated_data,
    is_valid run_validation RecipeDetailSerializerClass false
             (request_data request) = inr validated_data ∧
    (RecipeViewSet.create run_validation request db).2
      = (RecipeViewSet.perform_create request validated_data db).2 ∧
    ∀ response,
      (RecipeViewSet.create run_validation request db).1 = Return response →
      ∃ r, response = mkResponse HTTP_201_CREATED (DataRecipe r) ∧
           (RecipeViewSet.perform_create request validated_data db).1
             = Return r.
Proof.
  unfold RecipeViewSet.create.
  change (RecipeViewSet.get_serializer_class RecipeViewSet.create_action)
    with RecipeDetailSerializerClass.
  destruct (is_valid _ _ _ _) as [errors|vd]; [by left|].
  right. exists vd. unfold bind.
  destruct (RecipeViewSet.perform_create request vd db) as [[r|e] db1];
    simpl; (split_and!; [done|done|]); [|done].
  intros response [= <-]. by exists r.
Qed.

Lemma view_upload_store run_validation request pk db :
  (RecipeViewSet.upload_image run_validation request pk db).2 = db ∨
  ∃ instance validated_data,
    RecipeViewSet.get_object request pk db = (Return instance, db) ∧
    is_valid run_validation RecipeImageSerializerClass false
             (request_data request) = inr validated_data ∧
    (RecipeViewSet.upload_image run_validation request pk db).2
      = (save (setattrs instance validated_data) db).2.
Proof.
  unfold RecipeViewSet.upload_image, bind. cbv zeta.
  change (RecipeViewSet.get_serializer_class RecipeViewSet.upload_image_action)
    with RecipeImageSerializerClass.
  pose proof (get_object_store request pk db) as Hs.
  destruct (RecipeViewSet.get_object request pk db) as [[inst|e] db1] eqn:Hobj;
    simpl in Hs; subst db1; [|by left].
  destruct (is_valid _ _ _ _) as [errors|vd] eqn:Hvalid; [by left|].
  right. exists inst, vd. split_and!; [done|done|]. simpl.
  by destruct (save _ _) as [[r|e] db2].
Qed.

Lemma user_not_writable cls : "user" ∉ (writable_fields cls).*1.
Proof.
  destruct cls; simpl; intros Hin;
    repeat (apply elem_of_cons in Hin as [?|Hin]; [done|]);
    by apply elem_of_nil in Hin.
Qed.

Lemma handle_owners_kept run_validation c db :
  well_formed db →
  owners_kept (creator_of c) db (handle run_validation c db).2.
Proof.
  intros Hwf. destruct c as [request|partial request pk|request pk];
    unfold handle; rewrite dispatch_store; simpl.
  - destruct (view_create_store run_validation request db)
      as [->|(vd & _ & -> & _)]; [by apply owners_kept_refl|].
    rewrite perform_create_eq. apply create_owners_kept; [done| |].
    + apply dict_set_key.
    + apply dict_set_value.
  - destruct (view_update_store run_validation partial request pk db)
      as [->|(inst & vd & Hobj & Hvalid & ->)]; [by apply owners_kept_refl|].
    apply get_object_returns in Hobj as (_ & Hinst & _).
    apply update_owners_kept; [done|done|].
    intros Hkey. eapply user_not_writable.
    by eapply (is_valid_keys run_validation).
  - destruct (view_upload_store run_validation request pk db)
      as [->|(inst & vd & Hobj & Hvalid & ->)]; [by apply owners_kept_refl|].
    apply get_object_returns in Hobj as (_ & Hinst & _).
    apply save_setattrs_owners_kept; [done|done|].
    intros Hkey. eapply user_not_writable.
    by eapply (is_valid_keys run_validation).
Qed.

Lemma create_returns_owner u (vd : dict) db r db' :
  "user" ∈ vd.*1 → (∀ v, ("user", v) ∈ vd → v = VUser u) →
  RecipeSerializer.create u vd db = (Return r, db') →
  recipe_user r = u ∧ r ∈ recipes db'.
Proof.
  intros Hkey Hval (db1 & db2 & Hcreate & H1 & H2)%create_returns.
  destruct (Recipe_objects_create_cases
              (dict_del "ingredients" (dict_del "tags" vd)) db)
    as [[e He]|(r0 & db0 & He & _ & _ & Hu & Hrs & _)]; [congruence|].
  rewrite He in Hcreate. injection Hcreate as -> ->. split.
  - rewrite Hu. apply setattrs_user_set.
    + by do 2 (apply dict_del_key_ne; [done|]).
    + intros v Hv. apply Hval. by do 2 apply dict_del_elem_of in Hv.
  - pose proof (get_or_create_of_links_at KTag u
                  (default (VSpecs []) (dict_get "tags" vd)) r db1) as L1.
    pose proof (get_or_create_of_links_at KIngredient u
                  (default (VSpecs []) (dict_get "ingredients" vd)) r db2)
      as L2.
    rewrite H1 in L1. rewrite H2 in L2.
    destruct L1 as (R1 & _), L2 as (R2 & _). simpl in *.
    rewrite R2, R1, Hrs, elem_of_app. right. by left.
Qed.

Lemma empty_db_well_formed : well_formed empty_db.
Proof.
  split_and!.
  - constructor.
  - by intros r ?%elem_of_nil.
  - intros [] l Hl; by apply elem_of_nil in Hl.
Qed.

Lemma run_snoc run_validation calls c db :
  run run_validation (calls ++ [c]) db =
  (handle run_validation c (run run_validation calls db)).2.
Proof. unfold run. by rewrite foldl_app. Qed.

Lemma run_created run_validation calls :
  well_formed (run run_validation calls empty_db) ∧
  ∀ r, r ∈ recipes (run run_validation calls empty_db) →
       ∃ request, CreateRecipe request ∈ calls ∧
                  recipe_user r = request_user request.
Proof.
  induction calls as [|c calls [Hwf IH]] using rev_ind.
  - split; [apply empty_db_well_formed|]. by intros r ?%elem_of_nil.
  - rewrite run_snoc.
    destruct (handle_owners_kept run_validation c _ Hwf)
      as (Hwf' & _ & Hrows).
    split; [done|].
    intros r [(r0 & Hr0 & _ & <-)|[Hc _]]%Hrows.
    + destruct (IH r0 Hr0) as (request & Hin & Hu).
      exists request. rewrite elem_of_app. auto.
    + destruct c as [request| |]; simpl in Hc; [|done..].
      exists request. rewrite elem_of_app, list_elem_of_singleton.
      split; [by right|congruence].
Qed.

(** C6. The owner of a recipe is the caller that created it.  A call on a
    well-formed store leaves it well formed, and every row after the call
    either has the key and the owner of a row before it, or has a new key,
    and then the call is a create and the owner is its caller.  A create
    that answers 201 has stored a row owned by the caller, whatever the
    payload holds under [user].  So in the store reached from the empty one
    by any calls, every recipe is owned by the caller of a create among
    them. *)
Theorem owner_is_the_creating_caller run_validation :
  (∀ c db,
     well_formed db →
     well_formed (handle run_validation c db).2 ∧
     ∀ r', r' ∈ recipes (handle run_validation c db).2 →
       (∃ r, r ∈ recipes db ∧ recipe_id r = recipe_id r' ∧
             recipe_user r = recipe_user r') ∨
       (∃ request, c = CreateRecipe request ∧
                   recipe_user r' = request_user request ∧
                   recipe_id r' ∉ recipe_id <$> recipes db)) ∧
  (∀ request db r,
     (handle run_validation (CreateRecipe request) db).1
       = mkResponse HTTP_201_CREATED (DataRecipe r) →
     recipe_user r = request_user request ∧
     r ∈ recipes (handle run_validation (CreateRecipe request) db).2) ∧
  (∀ calls r,
     r ∈ recipes (run run_validation calls empty_db) →
     ∃ request, CreateRecipe request ∈ calls ∧
                recipe_user r = request_user request).
Proof.
  split_and!.
  - intros c db Hwf.
    destruct (handle_owners_kept run_validation c db Hwf)
      as (Hwf' & _ & Hrows).
    split; [done|]. intros r' [?|[Hc Hnew]]%Hrows; [by left|]. right.
    destruct c as [request| |]; simpl in Hc; [|done..].
    exists request. split_and!; [done|congruence|done].
  - intros request db r. unfold handle, dispatch.
    destruct (view_create_store run_validation request db)
      as [Hsame|(vd & _ & Hstore & Hresp)].
    + unfold RecipeViewSet.create in *.
      destruct (is_valid _ _ _ _) as [errors|vd]; [done|].
      unfold bind in *.
      destruct (RecipeViewSet.perform_create request vd db)
        as [[r0|e] db1] eqn:Hrun; simpl in *; [|by destruct e].
      intros [= <-]. subst db1. rewrite perform_create_eq in Hrun.
      eapply create_returns_owner; [apply dict_set_key|apply dict_set_value|].
      exact Hrun.
    + destruct (RecipeViewSet.create run_validation request db)
        as [[response|e] db1] eqn:Hview; simpl in *; [|by destruct e].
      intros ->. destruct (Hresp _ eq_refl) as (r0 & [= <-] & Hrun).
      subst db1. rewrite perform_create_eq in *.
      destruct (RecipeSerializer.create _ _ db) as [[r1|e] db2] eqn:Hc;
        simpl in *; [|done].
      injection Hrun as ->.
      eapply create_returns_owner; [apply dict_set_key|apply dict_set_value|].
      exact Hc.
  - intros calls. apply run_created.
Qed.

Lemma owner_is_the_creating_caller_witness :
  well_formed sample_db ∧
  (∃ r,
     (handle sample_validation
        (CreateRecipe
           (mkRequest 9 []
              [("title", VStr "pongal"); ("time_minutes", VInt 60);
               ("price", VDecimal 650); ("user", VUser 7)])) sample_db).1
       = mkResponse HTTP_201_CREATED (DataRecipe r) ∧
     recipe_id r = 4 ∧ recipe_user r = 9) ∧
  well_formed
    (handle sample_validation
       (UpdateRecipe true
          (mkRequest 7 [] [("user", VUser 8); ("title", VStr "green curry")])
          1) sample_db).2 ∧
  recipe_user <$>
    recipes
      (handle sample_validation
         (UpdateRecipe true
            (mkRequest 7 [] [("user", VUser 8); ("title", VStr "green curry")])
            1) sample_db).2 = [7; 7; 8].
Proof.
  destruct (owner_is_the_creating_caller sample_validation)
    as (Hstep & Hcreate & _).
  split; [exact sample_db_well_formed|]. split_and!.
  - eexists. split; [vm_compute; reflexivity|]. split; [reflexivity|].
    refine (proj1 (Hcreate
                     (mkRequest 9 []
                        [("title", VStr "pongal"); ("time_minutes", VInt 60);
                         ("price", VDecimal 650); ("user", VUser 7)])
                     sample_db _ _)).
    vm_compute; reflexivity.
  - exact (proj1 (Hstep _ _ sample_db_well_formed)).
  - vm_compute; reflexivity.
Defined.

(** * The listing of tags and ingredients *)

Lemma elem_of_assigned k db (queryset : list Attr) a :
  a ∈ (queryset ≫= λ a,
         (λ _ : Z * Z, a) <$> filter (λ l, l.2 = attr_id a)
                                     (links (table k db))) ↔
  a ∈ queryset ∧ ∃ rid, attr_id a ∈ related_ids k rid db.
Proof.
  rewrite list_elem_of_bind. split.
  - intros (a' & ([rid i] & -> & [Hi Hl]%list_elem_of_filter)%list_elem_of_fmap & Ha').
    simpl in Hi. subst i. split; [done|]. exists rid.
    by apply related_ids_elem_of.
  - intros (Ha & rid & Hl%related_ids_elem_of). exists a. split; [|done].
    apply list_elem_of_fmap. exists (rid, attr_id a). split; [done|].
    by apply list_elem_of_filter.
Qed.

(** X1. A listing of tags (resp. ingredients) that returns holds rows of
    the caller only, each once.  Without [assigned_only], or with an
    [assigned_only] that reads as the integer zero, it holds every row of
    the caller; with one that reads as another integer it holds exactly the
    rows of the caller linked to at least one recipe.  The store is as
    before. *)
Theorem attr_list_limited_to_user k request db l db' :
  BaseRecipeArrtViewSet.get_queryset k request db = (Return l, db') →
  db' = db ∧
  NoDup l ∧
  ∃ assigned_only : bool,
    match query_get "assigned_only" (query_params request) with
    | Some s => ∃ n, int s = Some n ∧ assigned_only = bool_decide (n ≠ 0)
    | None => assigned_only = false
    end ∧
    ∀ a, a ∈ l ↔
         a ∈ rows (table k db) ∧ attr_user a = request_user request ∧
         (assigned_only = true → ∃ rid, attr_id a ∈ related_ids k rid db).
Proof.
  unfold BaseRecipeArrtViewSet.get_queryset, bind, snapshot, ret, raise.
  destruct (query_get "assigned_only" (query_params request)) as [s|].
  - destruct (int s) as [n|]; [|done]. intros [= <- <-].
    split_and!; [done|apply NoDup_remove_dups|].
    exists (bool_decide (n ≠ 0)). split; [by exists n|].
    intros a. rewrite elem_of_remove_dups, merge_sort_Permutation.
    rewrite list_elem_of_filter.
    destruct (bool_decide (n ≠ 0)).
    + rewrite elem_of_assigned. split.
      * intros (? & ? & ?). done.
      * intros (? & ? & Hl). split; [done|]. split; [done|]. by apply Hl.
    + split; [intros (? & ?); by split_and!|]. intros (? & ? & _). done.
  - intros [= <- <-]. split_and!; [done|apply NoDup_remove_dups|].
    exists false. split; [done|].
    intros a. rewrite elem_of_remove_dups, merge_sort_Permutation.
    rewrite list_elem_of_filter.
    split; [intros (? & ?); by split_and!|]. intros (? & ? & _). done.
Qed.

Lemma attr_list_limited_to_user_witness :
  ∃ l db',
    BaseRecipeArrtViewSet.get_queryset KIngredient
      (mkRequest 7 [("assigned_only", "1")] []) sample_db = (Return l, db') ∧
    l = [mkAttr 1 "salt" 7] ∧ NoDup l.
Proof.
  eexists _, _. split; [vm_compute; reflexivity|]. split; [reflexivity|].
  refine (proj1 (proj2 (attr_list_limited_to_user KIngredient
                          (mkRequest 7 [("assigned_only", "1")] [])
                          sample_db _ _ _))).
  vm_compute; reflexivity.
Defined.



(** * What an update leaves alone *)

Lemma others_kept_refl rid db : others_kept rid db db.
Proof. split; [done|done]. Qed.

Lemma others_kept_trans rid db1 db2 db3 :
  others_kept rid db1 db2 → others_kept rid db2 db3 → others_kept rid db1 db3.
Proof.
  intros [Hr1 Hl1] [Hr2 Hl2]. split.
  - intros k. etrans; [apply Hr1|apply Hr2].
  - intros k rid' Hne. by rewrite Hl2, Hl1.
Qed.

Lemma others_kept_only_table k rid db db' :
  only_table k db db' →
  rows (table k db) `prefix_of` rows (table k db') →
  (∀ rid', rid' ≠ rid → related_ids k rid' db' = related_ids k rid' db) →
  others_kept rid db db'.
Proof.
  intros Honly Hrows Hlinks. split.
  - intros k'. destruct (decide (k = k')) as [<-|Hne]; [done|].
    by rewrite (only_table_other k k' db db').
  - intros k' rid' Hrid. destruct (decide (k = k')) as [<-|Hne]; [by apply Hlinks|].
    apply related_ids_table. by apply (only_table_other k k').
Qed.

Lemma related_ids_add_link_other k rid rid' i t db :
  rid' ≠ rid →
  links t = add_link (rid, i) (links (table k db)) →
  related_ids k rid' (set_table k t db) = related_ids k rid' db.
Proof.
  intros Hne Hl. unfold related_ids. rewrite table_set_table, Hl.
  unfold add_link. case_decide; [done|].
  rewrite filter_app, filter_cons_False, filter_nil, app_nil_r; [done|].
  simpl. congruence.
Qed.

Lemma link_spec_others_kept k u r name db :
  others_kept (recipe_id r) db (link_spec k u r name db).2.
Proof.
  apply (others_kept_only_table k); [apply link_spec_only_table| |].
  - destruct (rows_named k u name db) as [|a [|a2 more]] eqn:Hrows.
    + rewrite (link_spec_created _ _ _ _ _ Hrows). simpl.
      rewrite table_set_table. simpl. by apply prefix_app_r.
    + rewrite (link_spec_found _ _ _ _ _ _ Hrows). simpl.
      by rewrite table_set_table.
    + by rewrite (link_spec_several _ _ _ _ _ _ _ _ Hrows).
  - intros rid' Hne.
    destruct (rows_named k u name db) as [|a [|a2 more]] eqn:Hrows.
    + rewrite (link_spec_created _ _ _ _ _ Hrows). simpl.
      by eapply related_ids_add_link_other.
    + rewrite (link_spec_found _ _ _ _ _ _ Hrows). simpl.
      by eapply related_ids_add_link_other.
    + by rewrite (link_spec_several _ _ _ _ _ _ _ _ Hrows).
Qed.

Lemma reconcile_others_kept k u r names db :
  others_kept (recipe_id r) db (reconcile k u names r db).2.
Proof.
  revert db. induction names as [|name names IH]; intros db.
  - apply others_kept_refl.
  - rewrite reconcile_cons.
    pose proof (link_spec_others_kept k u r name db) as Hstep.
    destruct (link_spec k u r name db) as [[[]|e] db1]; [|done].
    eapply others_kept_trans; [exact Hstep|apply IH].
Qed.

Lemma get_or_create_of_others_kept k u v r db :
  others_kept (recipe_id r) db (get_or_create_of k u v r db).2.
Proof.
  destruct (value_specs_or_not v) as [[names ->]|Hv].
  - rewrite get_or_create_of_specs. apply reconcile_others_kept.
  - rewrite get_or_create_of_not_specs by done. apply others_kept_refl.
Qed.

Lemma related_clear_others_kept k r db :
  others_kept (recipe_id r) db (related_clear k r db).2.
Proof.
  apply (others_kept_only_table k); [apply related_clear_only_table| |].
  - unfold related_clear. simpl. by rewrite table_set_table.
  - intros rid' Hne. rewrite related_ids_cleared. by rewrite decide_False.
Qed.

Lemma phase_others_kept k u inst v db :
  others_kept (recipe_id inst) db (phase k u inst v db).2.
Proof.
  unfold phase. case_decide; [|apply others_kept_refl].
  unfold bind. simpl.
  eapply others_kept_trans; [apply (related_clear_others_kept k inst)|].
  simpl. apply get_or_create_of_others_kept.
Qed.

Lemma save_others_kept rid r db : others_kept rid db (save r db).2.
Proof.
  destruct (save_returns r db) as (r' & db' & -> & _ & _ & _ & Ht & _).
  simpl. split.
  - intros k. by rewrite Ht.
  - intros k rid' _. by apply related_ids_table.
Qed.

(** X3. An update of a recipe, whatever its payload and its outcome, keeps
    the tags and the ingredients of every other recipe, deletes and
    changes no tag row and no ingredient row (rows are only added at the
    end: a tag taken off a recipe stays in the tag table), and keeps every
    recipe row with another key. *)
Theorem update_leaves_others_alone u inst vd db :
  (∀ k rid, rid ≠ recipe_id inst →
     related_ids k rid (RecipeSerializer.update u inst vd db).2
       = related_ids k rid db) ∧
  (∀ k, rows (table k db)
          `prefix_of` rows (table k (RecipeSerializer.update u inst vd db).2)) ∧
  (∀ r, r ∈ recipes db → recipe_id r ≠ recipe_id inst →
        r ∈ recipes (RecipeSerializer.update u inst vd db).2).
Proof.
  assert (Hkept : others_kept (recipe_id inst) db
                    (RecipeSerializer.update u inst vd db).2).
  { rewrite update_eq. unfold bind at 1.
    pose proof (phase_others_kept KTag u inst
                  (default VNone (dict_get "tags" vd)) db) as H1.
    destruct (phase KTag _ _ _ db) as [[[]|e1] db1]; simpl in H1; [|done].
    unfold bind at 1.
    pose proof (phase_others_kept KIngredient u inst
                  (default VNone (dict_get "ingredients" vd)) db1) as H2.
    destruct (phase KIngredient _ _ _ db1) as [[[]|e2] db2]; simpl in H2;
      [|by eapply others_kept_trans].
    eapply others_kept_trans; [exact H1|].
    eapply others_kept_trans; [exact H2|]. apply save_others_kept. }
  destruct Hkept as [Hrows Hlinks]. split_and!; [by intros; apply Hlinks|done|].
  intros r Hr Hid. rewrite update_eq. unfold bind at 1.
  pose proof (phase_links_at KTag u inst
                (default VNone (dict_get "tags" vd)) db) as H1.
  destruct (phase KTag _ _ _ db) as [[[]|e1] db1]; simpl in H1;
    [|simpl; destruct H1 as (-> & _); done].
  unfold bind at 1.
  pose proof (phase_links_at KIngredient u inst
                (default VNone (dict_get "ingredients" vd)) db1) as H2.
  destruct (phase KIngredient _ _ _ db1) as [[[]|e2] db2]; simpl in H2;
    [|simpl; destruct H2 as (-> & _), H1 as (-> & _); done].
  destruct (save_returns
              (setattrs inst (dict_del "ingredients" (dict_del "tags" vd)))
              db2) as (r' & db' & -> & _ & _ & _ & _ & Hrs).
  assert (Hsame : recipes db2 = recipes db)
    by (destruct H1 as (? & _), H2 as (? & _); congruence).
  simpl. rewrite Hrs, Hsame, setattrs_id.
  destruct (decide (recipe_id inst ∈ recipe_id <$> recipes db)).
  - apply list_elem_of_fmap. exists r. split; [|done].
    by rewrite decide_False.
  - rewrite elem_of_app. by left.
Qed.

Lemma update_leaves_others_alone_witness :
  2 ≠ recipe_id curry ∧
  related_ids KTag 2
    (RecipeSerializer.update 7 curry [("tags", VSpecs ["lunch"])] sample_db).2
    = [2] ∧
  eggplant ∈ recipes sample_db ∧ recipe_id eggplant ≠ recipe_id curry ∧
  eggplant ∈
    recipes
      (RecipeSerializer.update 7 curry [("tags", VSpecs ["lunch"])]
         sample_db).2.
Proof.
  destruct (update_leaves_others_alone 7 curry [("tags", VSpecs ["lunch"])]
              sample_db) as (Hlinks & _ & Hrows).
  assert (H2 : 2 ≠ recipe_id curry) by done.
  assert (Hin : eggplant ∈ recipes sample_db) by (right; left).
  assert (Hne : recipe_id eggplant ≠ recipe_id curry) by done.
  split; [exact H2|]. split; [rewrite (Hlinks KTag 2 H2); reflexivity|].
  split; [exact Hin|]. split; [exact Hne|]. exact (Hrows eggplant Hin Hne).
Defined.

(** * Waiting for the database *)

Lemma wait_returned checks t t' :
  wait_for_db.wait checks t = wait_for_db.Returned t' ↔
  ∃ errors rest,
    checks = (wait_for_db.CheckRaises <$> errors)
               ++ wait_for_db.CheckPassed :: rest ∧
    Forall (λ e, wait_for_db.caught e = true) errors ∧
    t' = wait_for_db.mkTrace
           (wait_for_db.stdout t ++
              replicate (List.length errors)
                        (wait_for_db.Write "db unavailable, waiting 1s"))
           (wait_for_db.slept t + Z.of_nat (List.length errors)).
Proof.
  revert t. induction checks as [|[|e] checks IH]; intros t; simpl.
  - split; [done|]. intros (errors & rest & Heq & _).
    by destruct errors.
  - split.
    + intros [= <-]. exists [], checks. split_and!; [done|constructor|].
      destruct t. simpl. by rewrite app_nil_r, Z.add_0_r.
    + intros ([|e errors] & rest & Heq & _ & ->); [|done].
      destruct t. simpl. by rewrite app_nil_r, Z.add_0_r.
  - destruct (wait_for_db.caught e) eqn:He.
    + rewrite IH. split.
      * intros (errors & rest & -> & Hall & ->).
        exists (e :: errors), rest. split_and!; [done|by constructor|].
        simpl. rewrite <- app_assoc. simpl. f_equal. lia.
      * intros ([|e' errors] & rest & Heq & Hall & ->); [done|].
        injection Heq as <- ->. apply Forall_cons in Hall as [_ Hall].
        exists errors, rest. split_and!; [done|done|].
        simpl. rewrite <- app_assoc. simpl. f_equal. lia.
    + split; [done|].
      intros ([|e' errors] & rest & Heq & Hall & _); [done|].
      injection Heq as <- _. apply Forall_cons in Hall as [Hc _]. congruence.
Qed.

(** X4. The command returns if and only if one of the checks passes and
    every check before it raised one of the two exceptions the loop
    catches.  It has then written the first line, one line for every
    failed check and the success line, in this order, it has slept one
    second for every failed check, and it has made no check after the one
    that passed. *)
Theorem wait_for_db_returns checks t :
  wait_for_db.handle checks = wait_for_db.Returned t ↔
  ∃ errors rest,
    checks = (wait_for_db.CheckRaises <$> errors)
               ++ wait_for_db.CheckPassed :: rest ∧
    Forall (λ e, wait_for_db.caught e = true) errors ∧
    t = wait_for_db.mkTrace
          ([wait_for_db.Write "waiting for db..."] ++
             replicate (List.length errors)
                       (wait_for_db.Write "db unavailable, waiting 1s") ++
             [wait_for_db.WriteSuccess "db available!"])
          (Z.of_nat (List.length errors)).
Proof.
  unfold wait_for_db.handle.
  destruct (wait_for_db.wait checks _) as [t0|e t0|t0] eqn:Hwait.
  - apply wait_returned in Hwait as (errors & rest & -> & Hall & ->).
    simpl. split.
    + intros [= <-]. exists errors, rest. split_and!; [done|done|].
      by rewrite Z.add_0_l.
    + intros (errors' & rest' & Heq & Hall' & ->).
      assert (errors' = errors) as ->.
      { clear -Heq Hall Hall'. revert errors' Heq Hall'.
        induction errors as [|e errors IH]; intros [|e' errors'] Heq Hall';
          simpl in *; try done.
        injection Heq as -> Heq. f_equal.
        apply Forall_cons in Hall as [_ Hall].
        apply Forall_cons in Hall' as [_ Hall']. by apply IH. }
      by rewrite Z.add_0_l.
  - split; [done|]. intros (errors & rest & Heq & Hall & _).
    assert (wait_for_db.wait checks
              (wait_for_db.mkTrace [wait_for_db.Write "waiting for db..."] 0)
            = wait_for_db.Returned
                (wait_for_db.mkTrace
                   ([wait_for_db.Write "waiting for db..."] ++
                      replicate (List.length errors)
                        (wait_for_db.Write "db unavailable, waiting 1s"))
                   (0 + Z.of_nat (List.length errors)))) as Hr
      by (apply wait_returned; by exists errors, rest).
    congruence.
  - split; [done|]. intros (errors & rest & Heq & Hall & _).
    assert (wait_for_db.wait checks
              (wait_for_db.mkTrace [wait_for_db.Write "waiting for db..."] 0)
            = wait_for_db.Returned
                (wait_for_db.mkTrace
                   ([wait_for_db.Write "waiting for db..."] ++
                      replicate (List.length errors)
                        (wait_for_db.Write "db unavailable, waiting 1s"))
                   (0 + Z.of_nat (List.length errors)))) as Hr
      by (apply wait_returned; by exists errors, rest).
    congruence.
Qed.

(** * Rows of other users *)

Lemma get_object_not_found request pk db rs :
  RecipeViewSet.get_queryset request db = (Return rs, db) →
  (∀ r, r ∈ recipes db → recipe_id r = pk →
        recipe_user r ≠ request_user request) →
  RecipeViewSet.get_object request pk db = (Raise Http404, db).
Proof.
  intros Hqs Hnone. unfold RecipeViewSet.get_object, bind. rewrite Hqs.
  apply get_queryset_returns in Hqs as (_ & _ & _ & Hrs).
  rewrite (elem_of_nil_inv (filter _ rs)); [done|].
  intros r [Hid (Hr & Hu & _)%Hrs]%list_elem_of_filter.
  by apply (Hnone r).
Qed.

(** X5. When the key addressed is not the key of a recipe of the caller,
    be it the key of no recipe or of a recipe of another user, an update, a
    partial update and an image upload answer 404 and change nothing in the
    store, whatever the payload.  (The query parameters are taken to parse:
    the listing behind [get_object] returns.) *)
Theorem foreign_recipe_not_found run_validation partial request pk db rs :
  RecipeViewSet.get_queryset request db = (Return rs, db) →
  (∀ r, r ∈ recipes db → recipe_id r = pk →
        recipe_user r ≠ request_user request) →
  dispatch (RecipeViewSet.update run_validation partial request pk) db
    = (mkResponse HTTP_404_NOT_FOUND DataNone, db) ∧
  dispatch (RecipeViewSet.upload_image run_validation request pk) db
    = (mkResponse HTTP_404_NOT_FOUND DataNone, db).
Proof.
  intros Hqs Hnone.
  pose proof (get_object_not_found request pk db rs Hqs Hnone) as Hobj.
  unfold dispatch, RecipeViewSet.update, RecipeViewSet.upload_image, bind.
  by rewrite Hobj.
Qed.

Lemma foreign_recipe_not_found_witness :
  RecipeViewSet.get_queryset
    (mkRequest 7 [] [("title", VStr "mine"); ("tags", VSpecs [])]) sample_db
    = (Return [eggplant; curry], sample_db) ∧
  (∀ r, r ∈ recipes sample_db → recipe_id r = 3 → recipe_user r ≠ 7) ∧
  dispatch (RecipeViewSet.update sample_validation true
              (mkRequest 7 [] [("title", VStr "mine"); ("tags", VSpecs [])])
              3) sample_db
    = (mkResponse HTTP_404_NOT_FOUND DataNone, sample_db).
Proof.
  assert (Hqs : RecipeViewSet.get_queryset
                  (mkRequest 7 [] [("title", VStr "mine"); ("tags", VSpecs [])])
                  sample_db = (Return [eggplant; curry], sample_db))
    by (vm_compute; reflexivity).
  assert (Hnone : ∀ r, r ∈ recipes sample_db → recipe_id r = 3 →
                       recipe_user r ≠ 7).
  { intros r Hr Hid. vm_compute in Hr.
    repeat (apply elem_of_cons in Hr as [->|Hr]); try done.
    by apply elem_of_nil in Hr. }
  split; [exact Hqs|]. split; [exact Hnone|].
  exact (proj1 (foreign_recipe_not_found sample_validation true _ 3 sample_db
                  _ Hqs Hnone)).
Defined.

(** * A valid upload *)

(** X6. An upload to a recipe of the caller whose [image] validates as a
    file answers 200 with the row of the recipe.  The file is written to the
    media store under a fresh path, the row of the recipe now has that path
    as its image and its other columns as before, whatever else the payload
    holds, and nothing else changes: not the other rows, not the tags and
    the ingredients, not the sequence of the recipe keys. *)
Theorem upload_stores_image run_validation request pk db recipe v content :
  RecipeViewSet.get_object request pk db = (Return recipe, db) →
  dict_get "image" (request_data request) = Some v →
  run_validation "image" v = Some (VFile content) →
  let stored := with_image recipe (StoredImage (next_blob db)) in
  let result :=
    dispatch (RecipeViewSet.upload_image run_validation request pk) db in
  result.1 = mkResponse HTTP_200_OK (DataRecipe stored) ∧
  recipes result.2
    = (λ x, if decide (recipe_id x = pk) then stored else x) <$> recipes db ∧
  media result.2 = media db ++ [(next_blob db, content)] ∧
  next_blob result.2 = next_blob db + 1 ∧
  next_recipe_id result.2 = next_recipe_id db ∧
  ∀ k, table k result.2 = table k db.
Proof.
  intros Hobj Himg Hval.
  pose proof (get_object_returns _ _ _ _ _ Hobj) as (_ & Hin & Hid & _).
  assert (Hvalid : is_valid run_validation RecipeImageSerializerClass false
                     (request_data request) = inr [("image", VFile content)]).
  { unfold is_valid, is_valid_fields. simpl. by rewrite Himg, Hval. }
  unfold dispatch, RecipeViewSet.upload_image, bind. rewrite Hobj.
  cbv zeta.
  change (RecipeViewSet.get_serializer_class RecipeViewSet.upload_image_action)
    with RecipeImageSerializerClass.
  rewrite Hvalid. unfold serializer_save.
  assert (Hset : setattrs recipe [("image", VFile content)]
                 = with_image recipe (PendingImage content))
    by by destruct recipe.
  rewrite Hset. unfold save, bind, pre_save. simpl.
  rewrite decide_True by (by apply list_elem_of_fmap_2).
  simpl. subst pk. unfold with_image. repeat split.
Qed.

Lemma upload_stores_image_witness :
  RecipeViewSet.get_object
    (mkRequest 7 [] [("title", VStr "x"); ("image", VFile "GIF89a")]) 1
    sample_db = (Return curry, sample_db) ∧
  (dispatch (RecipeViewSet.upload_image sample_validation
               (mkRequest 7 [] [("title", VStr "x"); ("image", VFile "GIF89a")])
               1) sample_db).1
    = mkResponse HTTP_200_OK (DataRecipe (with_image curry (StoredImage 1))).
Proof.
  split; [vm_compute; reflexivity|].
  exact (proj1 (upload_stores_image sample_validation
                  (mkRequest 7 [] [("title", VStr "x");
                                   ("image", VFile "GIF89a")])
                  1 sample_db curry (VFile "GIF89a") "GIF89a"
                  eq_refl eq_refl eq_refl)).
Defined.

(** * The columns an update writes *)






Lemma validate_fields_eq run_validation partial payload fields errors
    validated :
  (foldl (validate_field run_validation partial payload) (errors, validated)
         fields).2
  = validated ++ omap (validated_entry run_validation payload) fields.
Proof.
  revert errors validated.
  induction fields as [|[name required] fields IH]; intros errors validated.
  { simpl. by rewrite app_nil_r. }
  simpl. unfold validated_entry at 1. simpl.
  destruct (dict_get name payload) as [v|]; simpl.
  - destruct (run_validation name v) as [v'|]; simpl.
    + rewrite IH. by rewrite <- app_assoc.
    + apply IH.
  - destruct (required && negb partial); apply IH.
Qed.

Lemma is_valid_eq run_validation cls partial payload validated :
  is_valid run_validation cls partial payload = inr validated →
  validated = omap (validated_entry run_validation payload)
                   (writable_fields cls).
Proof.
  unfold is_valid, is_valid_fields.
  pose proof (validate_fields_eq run_validation partial payload
                (writable_fields cls) [] []) as Heq.
  destruct (foldl _ _ _) as [[|error errors] validated']; [|done].
  intros [= <-]. exact Heq.
Qed.

Lemma validated_entry_keys run_validation payload fields :
  (omap (validated_entry run_validation payload) fields).*1
    `sublist_of` fields.*1.
Proof.
  induction fields as [|[name required] fields IH]; [done|].
  simpl. unfold validated_entry at 1. simpl.
  destruct (dict_get name payload) as [v|]; simpl;
    [destruct (run_validation name v) as [v'|]; simpl|].
  - by apply sublist_skip.
  - by apply sublist_cons.
  - by apply sublist_cons.
Qed.

Lemma writable_fields_NoDup cls : NoDup (writable_fields cls).*1.
Proof. apply (bool_decide_unpack _). by destruct cls. Qed.

Lemma is_valid_NoDup run_validation cls partial payload validated :
  is_valid run_validation cls partial payload = inr validated →
  NoDup validated.*1.
Proof.
  intros ->%is_valid_eq.
  eapply sublist_NoDup;
    [apply writable_fields_NoDup|apply validated_entry_keys].
Qed.





(** * The links of a new recipe *)

Lemma reconciled_exact k u rid names db db' :
  reconciled k u rid names db db' →
  related_ids k rid db = [] →
  ∀ i, i ∈ related_ids k rid db' ↔
       ∃ a, a ∈ rows (table k db') ∧ attr_user a = u ∧
            attr_name a ∈ names ∧ attr_id a = i.
Proof.
  intros [_ _ _ (extra & Hl & _ & Hex) Hlinked] Hnone i.
  rewrite related_ids_elem_of. split.
  - rewrite Hl. intros [Hin|Hin]%elem_of_app.
    + apply related_ids_elem_of in Hin. rewrite Hnone in Hin.
      by apply elem_of_nil in Hin.
    + destruct (Hex _ Hin) as (_ & a & Ha & Hu & Hn & [= ->]).
      by exists a.
  - intros (a & Ha & Hu & Hn & <-). by apply Hlinked.
Qed.

Lemma related_ids_fresh k db :
  well_formed db → related_ids k (next_recipe_id db) db = [].
Proof.
  intros (_ & _ & Hlinks). apply elem_of_nil_inv. intros i Hi.
  apply related_ids_elem_of in Hi. apply Hlinks in Hi. simpl in Hi. lia.
Qed.

(** X8. A create that returns, on a well-formed store, has added one
    recipe row, at the end and under the next key of the sequence, and has
    linked it to exactly the rows of the caller that the names of the
    payload resolve to, each once: a child id is linked if and only if it is
    the id of a row owned by the caller whose name is in the list (the empty
    list when the key is absent).  The tags and the ingredients of every
    other recipe are as before, and no tag row or ingredient row was deleted
    or changed. *)
Theorem create_links_resolved_rows u vd db r db' :
  well_formed db →
  RecipeSerializer.create u vd db = (Return r, db') →
  recipes db' = recipes db ++ [r] ∧
  recipe_id r = next_recipe_id db ∧
  next_recipe_id db' = next_recipe_id db + 1 ∧
  (∀ k, ∃ names,
     default (VSpecs []) (dict_get (spec_key k) vd) = VSpecs names ∧
     NoDup (related_ids k (recipe_id r) db') ∧
     ∀ i, i ∈ related_ids k (recipe_id r) db' ↔
          ∃ a, a ∈ rows (table k db') ∧ attr_user a = u ∧
               attr_name a ∈ names ∧ attr_id a = i) ∧
  (∀ k rid, rid ≠ recipe_id r →
            related_ids k rid db' = related_ids k rid db) ∧
  (∀ k, rows (table k db) `prefix_of` rows (table k db')).
Proof.
  intros Hwf (db1 & db2 & Hnew & Htags & Hingr)%create_returns.
  destruct (Recipe_objects_create_cases
              (dict_del "ingredients" (dict_del "tags" vd)) db)
    as [[e He]|(r0 & db0 & Hnew' & _ & Hid & _ & Hrows & Hnext & Htab)];
    [congruence|].
  rewrite Hnew in Hnew'. injection Hnew' as <- <-.
  pose proof (get_or_create_of_only_table KTag u
                (default (VSpecs []) (dict_get "tags" vd)) r db1) as Ho1.
  pose proof (get_or_create_of_only_table KIngredient u
                (default (VSpecs []) (dict_get "ingredients" vd)) r db2)
    as Ho2.
  rewrite Htags in Ho1. rewrite Hingr in Ho2. simpl in Ho1, Ho2.
  apply get_or_create_of_returns in Htags as Ht.
  destruct Ht as (tags & Htv & Hrec1).
  apply get_or_create_of_returns in Hingr as Hi.
  destruct Hi as (ingredients & Hiv & Hrec2).
  assert (Ht2 : table KTag db' = table KTag db2)
    by by apply (only_table_other KIngredient KTag).
  assert (Hi1 : table KIngredient db2 = table KIngredient db1)
    by by apply (only_table_other KTag KIngredient).
  assert (Hfresh : ∀ k, related_ids k (recipe_id r) db1 = []).
  { intros k. rewrite (related_ids_table k _ _ _ (Htab k)), Hid.
    by apply related_ids_fresh. }
  split_and!.
  - rewrite (only_table_recipes _ _ _ Ho2), (only_table_recipes _ _ _ Ho1).
    done.
  - done.
  - rewrite (only_table_next_recipe_id _ _ _ Ho2),
      (only_table_next_recipe_id _ _ _ Ho1). done.
  - intros [|].
    + exists tags. split; [done|]. rewrite Ht2.
      rewrite (related_ids_table _ (recipe_id r) _ _ Ht2). split.
      * apply (reconciled_NoDup _ _ _ _ _ _ Hrec1). rewrite Hfresh.
        constructor.
      * by apply (reconciled_exact _ _ _ _ _ _ Hrec1).
    + exists ingredients. split; [done|]. split.
      * apply (reconciled_NoDup _ _ _ _ _ _ Hrec2).
        rewrite (related_ids_table _ _ _ _ Hi1), Hfresh. constructor.
      * apply (reconciled_exact _ _ _ _ _ _ Hrec2).
        by rewrite (related_ids_table _ _ _ _ Hi1).
  - intros k rid Hrid.
    pose proof (get_or_create_of_others_kept KTag u
                  (default (VSpecs []) (dict_get "tags" vd)) r db1)
      as [_ Hk1].
    pose proof (get_or_create_of_others_kept KIngredient u
                  (default (VSpecs []) (dict_get "ingredients" vd)) r db2)
      as [_ Hk2].
    rewrite Htags in Hk1. rewrite Hingr in Hk2. simpl in Hk1, Hk2.
    rewrite Hk2, Hk1 by done. by apply related_ids_table.
  - intros k.
    pose proof (get_or_create_of_others_kept KTag u
                  (default (VSpecs []) (dict_get "tags" vd)) r db1)
      as [Hp1 _].
    pose proof (get_or_create_of_others_kept KIngredient u
                  (default (VSpecs []) (dict_get "ingredients" vd)) r db2)
      as [Hp2 _].
    rewrite Htags in Hp1. rewrite Hingr in Hp2. simpl in Hp1, Hp2.
    rewrite <- (Htab k). etrans; [apply Hp1|apply Hp2].
Qed.

Lemma create_links_resolved_rows_witness :
  ∃ r db',
    well_formed sample_db ∧
    RecipeSerializer.create 7
      [("title", VStr "soup"); ("time_minutes", VInt 5);
       ("price", VDecimal 100); ("tags", VSpecs ["vegan"; "spicy"; "vegan"]);
       ("user", VUser 7)] sample_db = (Return r, db') ∧
    recipes db' = [curry; eggplant; fries; r] ∧
    recipe_id r = 4 ∧
    related_ids KTag 4 db' = [1; 4] ∧
    related_ids KTag 1 db' = related_ids KTag 1 sample_db.
Proof.
  eexists _, _.
  split; [exact sample_db_well_formed|].
  split; [vm_compute; reflexivity|].
  lazymatch goal with
  | |- recipes ?db' = [_; _; _; ?r] ∧ _ =>
      pose proof (create_links_resolved_rows 7
                    [("title", VStr "soup"); ("time_minutes", VInt 5);
                     ("price", VDecimal 100);
                     ("tags", VSpecs ["vegan"; "spicy"; "vegan"]);
                     ("user", VUser 7)] sample_db r db'
                    sample_db_well_formed eq_refl)
        as (Hrows & Hid & _ & _ & Hothers & _)
  end.
  split; [exact Hrows|]. split; [exact Hid|].
  split; [vm_compute; reflexivity|].
  exact (Hothers KTag 1 ltac:(done)).
Defined.

(** * A new recipe in the listing *)

Lemma NoDup_fmap_eq {A B} (f : A → B) (l : list A) x y :
  NoDup (f <$> l) → x ∈ l → y ∈ l → f x = f y → x = y.
Proof.
  induction l as [|z l IH]; intros Hnd Hx Hy Hf.
  { by apply elem_of_nil in Hx. }
  simpl in Hnd. apply NoDup_cons in Hnd as [Hz Hnd].
  apply elem_of_cons in Hx as [->|Hx]; apply elem_of_cons in Hy as [->|Hy].
  - done.
  - destruct Hz. rewrite Hf. by apply list_elem_of_fmap_2.
  - destruct Hz. rewrite <- Hf. by apply list_elem_of_fmap_2.
  - by apply IH.
Qed.

Lemma create_appends u vd db r db' :
  RecipeSerializer.create u vd db = (Return r, db') →
  recipes db' = recipes db ++ [r] ∧ recipe_id r = next_recipe_id db.
Proof.
  intros (db1 & db2 & Hnew & Htags & Hingr)%create_returns.
  apply Recipe_objects_create_returns in Hnew as (Hid & Hrows & _).
  pose proof (get_or_create_of_only_table KTag u
                (default (VSpecs []) (dict_get "tags" vd)) r db1) as Ho1.
  pose proof (get_or_create_of_only_table KIngredient u
                (default (VSpecs []) (dict_get "ingredients" vd)) r db2)
    as Ho2.
  rewrite Htags in Ho1. rewrite Hingr in Ho2. simpl in Ho1, Ho2.
  split; [|done].
  by rewrite (only_table_recipes _ _ _ Ho2), (only_table_recipes _ _ _ Ho1).
Qed.

Lemma view_create_returns run_validation request db r db' :
  dispatch (RecipeViewSet.create run_validation request) db
    = (mkResponse HTTP_201_CREATED (DataRecipe r), db') →
  ∃ validated_data,
    is_valid run_validation RecipeDetailSerializerClass false
             (request_data request) = inr validated_data ∧
    RecipeViewSet.perform_create request validated_data db = (Return r, db').
Proof.
  unfold dispatch, RecipeViewSet.create.
  change (RecipeViewSet.get_serializer_class RecipeViewSet.create_action)
    with RecipeDetailSerializerClass.
  destruct (is_valid _ _ _ _) as [errors|validated_data] eqn:Hvalid.
  { by unfold raise. }
  unfold bind.
  destruct (RecipeViewSet.perform_create _ _ _) as [[r0|e] db1] eqn:Hc.
  2: { by destruct e. }
  unfold ret. intros [= <- <-]. by exists validated_data.
Qed.

Lemma get_queryset_unfiltered request db :
  query_get "tags" (query_params request) = None →
  query_get "ingredients" (query_params request) = None →
  RecipeViewSet.get_queryset request db =
  (Return (distinct (order_by_desc_id
                       (filter_user (request_user request) (recipes db)))),
   db).
Proof. intros Ht Hi. rewrite get_queryset_eq, Ht, Hi. done. Qed.

Lemma listing_of_snoc u (l : list Recipe) r :
  NoDup (recipe_id <$> l) → (∀ x, x ∈ l → recipe_id x < recipe_id r) →
  recipe_user r = u →
  distinct (order_by_desc_id (filter_user u (l ++ [r])))
  = r :: distinct (order_by_desc_id (filter_user u l)).
Proof.
  intros Hnd Hlt Hu. unfold distinct, order_by_desc_id, filter_user.
  rewrite filter_app. rewrite (filter_cons_True _ r []) by done.
  rewrite filter_nil. set (mine := filter _ l).
  assert (Hmine : ∀ x, x ∈ mine → x ∈ l)
    by (by intros x [_ Hx]%list_elem_of_filter).
  assert (Hfresh : r ∉ l).
  { intros Hr. specialize (Hlt r Hr). lia. }
  assert (Hin1 : ∀ x, x ∈ remove_dups (merge_sort id_desc (mine ++ [r])) ↔
                      x = r ∨ x ∈ mine).
  { intros x. rewrite elem_of_remove_dups, merge_sort_Permutation.
    rewrite elem_of_app, list_elem_of_singleton. tauto. }
  assert (Hin2 : ∀ x, x ∈ remove_dups (merge_sort id_desc mine) ↔ x ∈ mine).
  { intros x. by rewrite elem_of_remove_dups, merge_sort_Permutation. }
  apply StronglySorted_unique_strong with (R := id_desc).
  - intros x1 x2 Hx1 Hx2 H12 H21. unfold id_desc in *.
    assert (Hid : recipe_id x1 = recipe_id x2) by lia.
    apply Hin1 in Hx1.
    apply elem_of_cons in Hx2. rewrite Hin2 in Hx2.
    destruct Hx1 as [->|Hx1], Hx2 as [->|Hx2]; try done.
    + specialize (Hlt x2 (Hmine _ Hx2)). lia.
    + specialize (Hlt x1 (Hmine _ Hx1)). lia.
    + apply (NoDup_fmap_eq recipe_id l); auto.
  - apply StronglySorted_remove_dups, StronglySorted_merge_sort; apply _.
  - constructor.
    + apply StronglySorted_remove_dups, StronglySorted_merge_sort; apply _.
    + apply list.Forall_forall. intros x Hx%Hin2. unfold id_desc.
      specialize (Hlt x (Hmine _ Hx)). lia.
  - apply NoDup_Permutation.
    + apply NoDup_remove_dups.
    + constructor; [|apply NoDup_remove_dups].
      intros Hr%Hin2. by apply Hfresh, Hmine.
    + intros x. rewrite Hin1, elem_of_cons, Hin2. done.
Qed.

Lemma listing_of_snoc_other u (l : list Recipe) r :
  recipe_user r ≠ u →
  distinct (order_by_desc_id (filter_user u (l ++ [r])))
  = distinct (order_by_desc_id (filter_user u l)).
Proof.
  intros Hu. unfold filter_user. rewrite filter_app.
  rewrite (filter_cons_False _ r []) by done.
  by rewrite filter_nil, app_nil_r.
Qed.

(** X9. After a create that answers 201 on a well-formed store, the
    listing without filter of the creating caller is the new recipe followed
    by the listing as it was before, and the listing without filter of any
    other caller is as it was before. *)
Theorem created_recipe_listed_first run_validation request db r db'
    request' :
  well_formed db →
  dispatch (RecipeViewSet.create run_validation request) db
    = (mkResponse HTTP_201_CREATED (DataRecipe r), db') →
  query_get "tags" (query_params request') = None →
  query_get "ingredients" (query_params request') = None →
  ∃ rs,
    RecipeViewSet.get_queryset request' db = (Return rs, db) ∧
    RecipeViewSet.get_queryset request' db'
      = (Return (if decide (request_user request' = request_user request)
                 then r :: rs else rs), db').
Proof.
  intros (Hnd & Hlt & _) (vd & Hvalid & Hcreate)%view_create_returns Ht Hi.
  rewrite perform_create_eq in Hcreate.
  apply create_appends in Hcreate as Happ. destruct Happ as [Hrows Hid].
  apply create_returns_owner in Hcreate as [Hu _].
  2: { apply dict_set_key. }
  2: { intros v. apply dict_set_value. }
  eexists. split; [by apply get_queryset_unfiltered|].
  rewrite get_queryset_unfiltered by done. rewrite Hrows.
  case_decide as Hsame.
  - rewrite listing_of_snoc; [done|done| |congruence].
    intros x Hx. rewrite Hid. by apply Hlt.
  - rewrite listing_of_snoc_other; [done|congruence].
Qed.

Lemma created_recipe_listed_first_witness :
  ∃ r db',
    well_formed sample_db ∧
    dispatch (RecipeViewSet.create sample_validation
                (mkRequest 7 [] [("title", VStr "soup");
                                 ("time_minutes", VInt 5);
                                 ("price", VDecimal 100)])) sample_db
      = (mkResponse HTTP_201_CREATED (DataRecipe r), db') ∧
    RecipeViewSet.get_queryset (mkRequest 7 [] []) db'
      = (Return [r; eggplant; curry], db').
Proof.
  eexists _, _.
  split; [exact sample_db_well_formed|].
  split; [vm_compute; reflexivity|].
  lazymatch goal with
  | |- _ = (Return [?r; _; _], ?db') =>
      destruct (created_recipe_listed_first sample_validation
                  (mkRequest 7 [] [("title", VStr "soup");
                                   ("time_minutes", VInt 5);
                                   ("price", VDecimal 100)])
                  sample_db r db' (mkRequest 7 [] [])
                  sample_db_well_formed eq_refl eq_refl eq_refl)
        as (rs & Hbefore & Hafter)
  end.
  injection Hbefore as <-. exact Hafter.
Defined.

(** * Renaming a tag or an ingredient *)

Lemma attr_get_queryset_cases k request db :
  BaseRecipeArrtViewSet.get_queryset k request db = (Raise ValueError, db) ∨
  ∃ l, BaseRecipeArrtViewSet.get_queryset k request db = (Return l, db) ∧
       ∀ a, a ∈ l →
            a ∈ rows (table k db) ∧ attr_user a = request_user request.
Proof.
  unfold BaseRecipeArrtViewSet.get_queryset, bind, snapshot, ret, raise.
  destruct (query_get "assigned_only" (query_params request)) as [s|].
  - destruct (int s) as [n|]; [|by left]. right. eexists. split; [done|].
    intros a. rewrite elem_of_remove_dups, merge_sort_Permutation.
    rewrite list_elem_of_filter. intros [Hu Ha]. split; [|done].
    destruct (bool_decide (n ≠ 0)); [|done].
    by apply elem_of_assigned in Ha as [Ha _].
  - right. eexists. split; [done|].
    intros a. rewrite elem_of_remove_dups, merge_sort_Permutation.
    rewrite list_elem_of_filter. by intros [Hu Ha].
Qed.

Lemma attr_get_object_cases k request pk db :
  (∃ e, BaseRecipeArrtViewSet.get_object k request pk db = (Raise e, db)) ∨
  ∃ a, BaseRecipeArrtViewSet.get_object k request pk db = (Return a, db) ∧
       a ∈ rows (table k db) ∧ attr_id a = pk ∧
       attr_user a = request_user request.
Proof.
  unfold BaseRecipeArrtViewSet.get_object, bind.
  destruct (attr_get_queryset_cases k request db) as [->|(l & -> & Hl)].
  { left. by eexists. }
  destruct (filter (λ a, attr_id a = pk) l) as [|a l'] eqn:Hf.
  { left. by eexists. }
  right. exists a. split; [done|].
  assert (Ha : a ∈ filter (λ a, attr_id a = pk) l)
    by (rewrite Hf; apply list_elem_of_here).
  apply list_elem_of_filter in Ha as [Hid Ha]. apply Hl in Ha as [Ha Hu].
  done.
Qed.

Lemma attr_setattrs_id_user a (d : dict) :
  attr_id (foldl (λ acc kv, attr_setattr acc kv.1 kv.2) a d) = attr_id a ∧
  attr_user (foldl (λ acc kv, attr_setattr acc kv.1 kv.2) a d) = attr_user a.
Proof.
  revert a. induction d as [|[attr v] d IH]; intros a; [done|].
  simpl. destruct (IH (attr_setattr a attr v)) as [-> ->].
  unfold attr_setattr. case_decide; [|done]. by destruct v.
Qed.

Lemma renamed_refl k pk owner db : renamed k pk owner db db.
Proof. split; try done. apply only_table_refl. Qed.

Lemma attr_save_renamed k inst a' db :
  NoDup (attr_id <$> rows (table k db)) →
  inst ∈ rows (table k db) →
  attr_id a' = attr_id inst → attr_user a' = attr_user inst →
  renamed k (attr_id inst) (attr_user inst) db (attr_save k a' db).2 ∧
  a' ∈ rows (table k (attr_save k a' db).2).
Proof.
  intros Hnd Hinst Hid Hu. unfold attr_save. simpl.
  assert (Hsame : ∀ x, x ∈ rows (table k db) → attr_id x = attr_id inst →
                       x = inst).
  { intros x Hx Hxid. by apply (NoDup_fmap_eq attr_id (rows (table k db))). }
  split; [split|].
  - apply only_table_set.
  - by rewrite table_set_table.
  - by rewrite table_set_table.
  - rewrite table_set_table. simpl. rewrite <- list_fmap_compose.
    apply list_fmap_ext. intros i x Hx. simpl.
    case_decide; congruence.
  - rewrite table_set_table. simpl. rewrite <- list_fmap_compose.
    apply list_fmap_ext. intros i x Hx%list_elem_of_lookup_2. simpl.
    case_decide as Hxid; [|done]. rewrite Hid in Hxid.
    rewrite (Hsame x Hx Hxid). done.
  - rewrite table_set_table. simpl. intros a Ha Hor.
    apply list_elem_of_fmap. exists a. split; [|done].
    rewrite decide_False; [done|]. rewrite Hid. intros Haid.
    rewrite (Hsame a Ha Haid) in Hor. by destruct Hor.
  - rewrite table_set_table. simpl.
    apply list_elem_of_fmap. exists inst. split; [|done].
    by rewrite decide_True.
Qed.

(** X10. An update or a partial update of a tag (resp. an ingredient), in
    a table whose keys are distinct: whatever the payload and the outcome,
    the links of every recipe, the keys and the owners of the rows, the
    recipes and the other table are as before, and so is every row that has
    another key or another owner than the caller: a caller renames rows of
    their own only, and a renamed tag stays on the recipes that have it.
    When the answer is 200, the row of the response has the key addressed
    and the caller as owner, it is the row stored, and its name is the
    validated name of the payload; with no name in the payload the row is
    as it was. *)
Theorem attr_update_renames_own_row k run_validation partial request pk db :
  NoDup (attr_id <$> rows (table k db)) →
  let result :=
    dispatch (BaseRecipeArrtViewSet.update k run_validation partial request pk)
             db in
  renamed k pk (request_user request) db result.2 ∧
  ∀ a', result.1 = mkResponse HTTP_200_OK (DataAttr a') →
    attr_id a' = pk ∧ attr_user a' = request_user request ∧
    a' ∈ rows (table k result.2) ∧
    (∀ v s, dict_get "name" (request_data request) = Some v →
            run_validation "name" v = Some (VStr s) → attr_name a' = s) ∧
    (dict_get "name" (request_data request) = None →
     a' ∈ rows (table k db)).
Proof.
  intros Hnd. cbv zeta.
  unfold dispatch, BaseRecipeArrtViewSet.update, bind.
  destruct (attr_get_object_cases k request pk db)
    as [[e ->]|(inst & -> & Hinst & Hid & Hu)].
  { simpl. split; [apply renamed_refl|]. intros a'. by destruct e. }
  unfold is_valid_fields, attr_fields. simpl.
  destruct (dict_get "name" (request_data request)) as [v|] eqn:Hv.
  - destruct (run_validation "name" v) as [v'|] eqn:Hv'; simpl.
    2: { split; [apply renamed_refl|]. done. }
    unfold ret.
    destruct (attr_save_renamed k inst (attr_setattr inst "name" v') db)
      as [Hren Hin]; [done|done| | |].
    { unfold attr_setattr. simpl. by destruct v'. }
    { unfold attr_setattr. simpl. by destruct v'. }
    rewrite Hid, Hu in Hren. split; [exact Hren|].
    intros a' [= <-]. split_and!.
    + unfold attr_setattr. simpl. by destruct v'.
    + unfold attr_setattr. simpl. by destruct v'.
    + exact Hin.
    + intros v0 s [= <-]. rewrite Hv'. by intros [= ->].
    + done.
  - destruct partial; simpl.
    2: { split; [apply renamed_refl|]. done. }
    unfold ret.
    destruct (attr_save_renamed k inst inst db) as [Hren Hin]; try done.
    rewrite Hid, Hu in Hren. split; [exact Hren|].
    intros a' [= <-]. split_and!; try done.
Qed.

Lemma attr_update_renames_own_row_witness :
  NoDup (attr_id <$> rows (table KTag sample_db)) ∧
  related_ids KTag 1
    (dispatch (BaseRecipeArrtViewSet.update KTag sample_validation true
                 (mkRequest 7 [] [("name", VStr "supper")]) 2) sample_db).2
    = [1; 2] ∧
  mkAttr 3 "vegan" 8
    ∈ rows (table KTag
              (dispatch (BaseRecipeArrtViewSet.update KTag sample_validation
                           true (mkRequest 7 [] [("name", VStr "supper")]) 2)
                        sample_db).2).
Proof.
  assert (Hnd : NoDup (attr_id <$> rows (table KTag sample_db)))
    by (apply (bool_decide_unpack _); vm_compute; exact I).
  destruct (attr_update_renames_own_row KTag sample_validation true
              (mkRequest 7 [] [("name", VStr "supper")]) 2 sample_db Hnd)
    as [[_ Hlinks _ _ _ Hothers] _].
  split; [exact Hnd|]. split.
  - unfold related_ids. rewrite Hlinks. reflexivity.
  - apply Hothers; [|by left].
    vm_compute. apply list_elem_of_further, list_elem_of_further, list_elem_of_here.
Defined.

(** * Two rows of one name *)

Lemma rows_named_prefix k u name db db' :
  rows (table k db) `prefix_of` rows (table k db') →
  (List.length (rows_named k u name db)
     ≤ List.length (rows_named k u name db'))%nat.
Proof.
  intros [more Hmore]. unfold rows_named. rewrite Hmore, filter_app.
  rewrite length_app. lia.
Qed.

Lemma link_spec_outcome k u r name db :
  (link_spec k u r name db).1 = Return tt ∨
  (link_spec k u r name db).1 = Raise MultipleObjectsReturned.
Proof.
  destruct (rows_named k u name db) as [|a [|a2 more]] eqn:Hrows.
  - left. by rewrite (link_spec_created _ _ _ _ _ Hrows).
  - left. by rewrite (link_spec_found _ _ _ _ _ _ Hrows).
  - right. by rewrite (link_spec_several _ _ _ _ _ _ _ _ Hrows).
Qed.

Lemma reconcile_outcome k u r names db :
  (reconcile k u names r db).1 = Return tt ∨
  (reconcile k u names r db).1 = Raise MultipleObjectsReturned.
Proof.
  revert db. induction names as [|name names IH]; intros db; [by left|].
  rewrite reconcile_cons.
  destruct (link_spec_outcome k u r name db) as [Ho|Ho];
    destruct (link_spec k u r name db) as [[[]|e] db1]; simpl in Ho;
    try done.
  right. by injection Ho as ->.
Qed.

Lemma reconcile_several k u r names name db :
  (2 ≤ List.length (rows_named k u name db))%nat → name ∈ names →
  (reconcile k u names r db).1 = Raise MultipleObjectsReturned.
Proof.
  revert db. induction names as [|name' names IH]; intros db Htwo Hin.
  { by apply elem_of_nil in Hin. }
  rewrite reconcile_cons.
  pose proof (link_spec_others_kept k u r name' db) as [Hrows _].
  pose proof (link_spec_outcome k u r name' db) as Ho.
  destruct (link_spec k u r name' db) as [[[]|e] db1] eqn:Hstep;
    simpl in Ho, Hrows.
  2: { destruct Ho as [?|[= ->]]; done. }
  apply elem_of_cons in Hin as [->|Hin].
  - destruct (rows_named k u name' db) as [|a [|a2 more]] eqn:Hnamed;
      simpl in Htwo; [lia|lia|].
    by rewrite (link_spec_several _ _ _ _ _ _ _ _ Hnamed) in Hstep.
  - apply IH; [|done].
    pose proof (rows_named_prefix k u name db db1 (Hrows k)). lia.
Qed.

(** The exceptions of the two loops and of the insertion of the row are
    answered with a server error. *)
Lemma get_or_create_of_raises k u v r db e :
  (get_or_create_of k u v r db).1 = Raise e →
  handle_exception e = mkResponse HTTP_500_INTERNAL_SERVER_ERROR DataNone.
Proof.
  destruct (value_specs_or_not v) as [[names ->]|Hnot].
  - rewrite get_or_create_of_specs.
    destruct (reconcile_outcome k u r names db) as [->| ->]; [done|].
    by intros [= <-].
  - rewrite get_or_create_of_not_specs by done. by intros [= <-].
Qed.

Lemma phase_raises k u inst v db e :
  (phase k u inst v db).1 = Raise e →
  handle_exception e = mkResponse HTTP_500_INTERNAL_SERVER_ERROR DataNone.
Proof.
  unfold phase. case_decide; [|done]. unfold bind. simpl.
  apply get_or_create_of_raises.
Qed.

Lemma phase_several k u inst names name db :
  (2 ≤ List.length (rows_named k u name db))%nat → name ∈ names →
  (phase k u inst (VSpecs names) db).1 = Raise MultipleObjectsReturned.
Proof.
  intros Htwo Hin. unfold phase. rewrite decide_True by done.
  unfold bind. simpl. rewrite get_or_create_of_specs.
  apply (reconcile_several _ _ _ _ name); [|done].
  unfold rows_named, related_clear. simpl. by rewrite table_set_table.
Qed.

Lemma update_several k u inst (vd : dict) names name db :
  (2 ≤ List.length (rows_named k u name db))%nat →
  dict_get (spec_key k) vd = Some (VSpecs names) → name ∈ names →
  ∃ e, (RecipeSerializer.update u inst vd db).1 = Raise e ∧
       handle_exception e
         = mkResponse HTTP_500_INTERNAL_SERVER_ERROR DataNone.
Proof.
  intros Htwo Hget Hin. rewrite update_eq. unfold bind.
  destruct k; simpl in Hget.
  - rewrite Hget. simpl.
    pose proof (phase_several KTag u inst names name db Htwo Hin) as Hp.
    destruct (phase KTag u inst (VSpecs names) db) as [[[]|e] db1];
      simpl in Hp; [done|].
    injection Hp as ->. by eexists.
  - pose proof (phase_raises KTag u inst
                  (default VNone (dict_get "tags" vd)) db) as Hr1.
    pose proof (phase_only_table KTag u inst
                  (default VNone (dict_get "tags" vd)) db) as Ho1.
    destruct (phase KTag u inst _ db) as [[[]|e] db1]; simpl in Hr1, Ho1.
    2: { exists e. split; [done|]. by apply Hr1. }
    rewrite Hget. simpl.
    assert (Htwo1 : (2 ≤ List.length (rows_named KIngredient u name db1))%nat).
    { rewrite (rows_named_table KIngredient u name db db1); [done|].
      by apply (only_table_other KTag KIngredient). }
    pose proof (phase_several KIngredient u inst names name db1 Htwo1 Hin)
      as Hp.
    destruct (phase KIngredient u inst (VSpecs names) db1) as [[[]|e] db2];
      simpl in Hp; [done|].
    injection Hp as ->. by eexists.
Qed.

Lemma Recipe_objects_create_raises kwargs db e db1 :
  Recipe_objects_create kwargs db = (Raise e, db1) → e = IntegrityError.
Proof.
  unfold Recipe_objects_create.
  repeat (case_match; try by (unfold raise; intros [= <- _])).
  unfold bind.
  destruct (pre_save_returns
              (setattrs (mkRecipe (next_recipe_id db) "" 0 0 "" "" 0 NoImage)
                        kwargs) db) as (r' & db' & -> & _).
  done.
Qed.

Lemma create_several k u (vd : dict) names name db :
  (2 ≤ List.length (rows_named k u name db))%nat →
  dict_get (spec_key k) vd = Some (VSpecs names) → name ∈ names →
  ∃ e, (RecipeSerializer.create u vd db).1 = Raise e ∧
       handle_exception e
         = mkResponse HTTP_500_INTERNAL_SERVER_ERROR DataNone.
Proof.
  intros Htwo Hget Hin.
  pose proof (create_cases u vd db) as Hc.
  destruct (Recipe_objects_create_cases
              (dict_del "ingredients" (dict_del "tags" vd)) db)
    as [[e He]|(r & db1 & Hnew & _ & _ & _ & _ & _ & Htab)].
  { rewrite He in Hc. rewrite Hc. exists e. split; [done|].
    by rewrite (Recipe_objects_create_raises _ _ _ _ He). }
  rewrite Hnew in Hc.
  assert (Htwo1 : (2 ≤ List.length (rows_named k u name db1))%nat)
    by by rewrite (rows_named_table k u name db db1 (Htab k)).
  pose proof (get_or_create_of_raises KTag u
                (default (VSpecs []) (dict_get "tags" vd)) r db1) as Hr1.
  pose proof (get_or_create_of_only_table KTag u
                (default (VSpecs []) (dict_get "tags" vd)) r db1) as Ho1.
  destruct k; simpl in Hget.
  - rewrite Hget in Hc.
    change (default (VSpecs []) (Some (VSpecs names))) with (VSpecs names)
      in Hc.
    rewrite get_or_create_of_specs in Hc.
    pose proof (reconcile_several KTag u r names name db1 Htwo1 Hin) as Hp.
    destruct (reconcile KTag u names r db1) as [[[]|e] db2]; simpl in Hp;
      [done|].
    injection Hp as ->. rewrite Hc. by eexists.
  - destruct (get_or_create_of KTag u _ r db1) as [[[]|e] db2];
      simpl in Hr1, Ho1.
    2: { rewrite Hc. exists e. split; [done|]. by apply Hr1. }
    rewrite Hget in Hc.
    change (default (VSpecs []) (Some (VSpecs names))) with (VSpecs names)
      in Hc.
    rewrite get_or_create_of_specs in Hc.
    assert (Htwo2 : (2 ≤ List.length (rows_named KIngredient u name db2))%nat).
    { rewrite (rows_named_table KIngredient u name db1 db2); [done|].
      by apply (only_table_other KTag KIngredient). }
    pose proof (reconcile_several KIngredient u r names name db2 Htwo2 Hin)
      as Hp.
    destruct (reconcile KIngredient u names r db2) as [[[]|e] db3];
      simpl in Hp; [done|].
    injection Hp as ->. rewrite Hc. by eexists.
Qed.

Lemma dict_get_NoDup key v (d : dict) :
  NoDup d.*1 → (key, v) ∈ d → dict_get key d = Some v.
Proof.
  induction d as [|[key' v'] d IH]; intros Hnd Hin.
  { by apply elem_of_nil in Hin. }
  simpl in Hnd. apply NoDup_cons in Hnd as [Hfresh Hnd]. simpl.
  apply elem_of_cons in Hin as [[= <- <-]|Hin].
  - by rewrite decide_True.
  - rewrite decide_False; [by apply IH|].
    intros ->. apply Hfresh. apply list_elem_of_fmap. by exists (key, v).
Qed.

Lemma dict_get_set_ne key key' v (d : dict) :
  key ≠ key' → dict_get key (dict_set key' v d) = dict_get key d.
Proof.
  intros Hne. unfold dict_set. case_decide as Hin.
  - clear Hin. induction d as [|[k0 v0] d IH]; [done|].
    simpl. destruct (decide (k0 = key')) as [->|Hk0]; simpl.
    + rewrite !decide_False by done. exact IH.
    + case_decide; [done|exact IH].
  - induction d as [|[k0 v0] d IH].
    + simpl. by rewrite decide_False.
    + simpl. case_decide; [done|]. apply IH.
      intros Hd. apply Hin. simpl. by right.
Qed.

Lemma is_valid_get run_validation cls partial payload validated key v v' :
  is_valid run_validation cls partial payload = inr validated →
  key ∈ (writable_fields cls).*1 →
  dict_get key payload = Some v → run_validation key v = Some v' →
  dict_get key validated = Some v'.
Proof.
  intros Hvalid Hkey Hv Hv'.
  apply dict_get_NoDup; [by eapply is_valid_NoDup|].
  rewrite (is_valid_eq _ _ _ _ _ Hvalid).
  apply list_elem_of_fmap in Hkey as ([key0 required] & -> & Hfield).
  apply list_elem_of_omap. eexists. split; [exact Hfield|].
  unfold validated_entry. simpl in *. rewrite Hv. simpl. by rewrite Hv'.
Qed.

Lemma spec_key_writable k :
  spec_key k ∈ (writable_fields RecipeDetailSerializerClass).*1 ∧
  spec_key k ≠ "user".
Proof.
  split; [|by destruct k].
  destruct k; vm_compute;
    repeat first [apply list_elem_of_here | apply list_elem_of_further].
Qed.

(** X11. Once a caller owns two tags (resp. ingredients) of one name, as a
    rename can bring about, no recipe of that caller can be written with
    that name: a create and an update whose validated payload names it are
    answered with a server error, whatever else the payload holds, and so
    no create answers 201 and no update answers 200. *)
Theorem duplicate_rows_break_writes run_validation k request name names v
    db :
  (2 ≤ List.length (rows_named k (request_user request) name db))%nat →
  dict_get (spec_key k) (request_data request) = Some v →
  run_validation (spec_key k) v = Some (VSpecs names) →
  name ∈ names →
  (∀ vd,
     is_valid run_validation RecipeDetailSerializerClass false
              (request_data request) = inr vd →
     (dispatch (RecipeViewSet.create run_validation request) db).1
       = mkResponse HTTP_500_INTERNAL_SERVER_ERROR DataNone) ∧
  (∀ partial pk instance vd,
     RecipeViewSet.get_object request pk db = (Return instance, db) →
     is_valid run_validation RecipeDetailSerializerClass partial
              (request_data request) = inr vd →
     (dispatch (RecipeViewSet.update run_validation partial request pk) db).1
       = mkResponse HTTP_500_INTERNAL_SERVER_ERROR DataNone) ∧
  status_code (dispatch (RecipeViewSet.create run_validation request) db).1
    ≠ HTTP_201_CREATED ∧
  (∀ partial pk,
     status_code
       (dispatch (RecipeViewSet.update run_validation partial request pk)
                 db).1 ≠ HTTP_200_OK).
Proof.
  intros Htwo Hv Hv' Hin.
  destruct (spec_key_writable k) as [Hw Hne].
  assert (Hcreate : ∀ vd,
    is_valid run_validation RecipeDetailSerializerClass false
             (request_data request) = inr vd →
    (dispatch (RecipeViewSet.create run_validation request) db).1
      = mkResponse HTTP_500_INTERNAL_SERVER_ERROR DataNone).
  { intros vd Hvalid.
    unfold dispatch, RecipeViewSet.create.
    change (RecipeViewSet.get_serializer_class RecipeViewSet.create_action)
      with RecipeDetailSerializerClass.
    rewrite Hvalid. unfold bind. rewrite perform_create_eq.
    destruct (create_several k (request_user request)
                (dict_set "user" (VUser (request_user request)) vd)
                names name db Htwo) as (e & He & H500); [|done|].
    { rewrite dict_get_set_ne by done. by eapply is_valid_get. }
    destruct (RecipeSerializer.create _ _ db) as [[r|e'] db']; simpl in He;
      [done|].
    by injection He as ->. }
  assert (Hupdate : ∀ partial pk instance vd,
    RecipeViewSet.get_object request pk db = (Return instance, db) →
    is_valid run_validation RecipeDetailSerializerClass partial
             (request_data request) = inr vd →
    (dispatch (RecipeViewSet.update run_validation partial request pk) db).1
      = mkResponse HTTP_500_INTERNAL_SERVER_ERROR DataNone).
  { intros partial pk instance vd Hobj Hvalid.
    unfold dispatch, RecipeViewSet.update, bind. rewrite Hobj. cbv zeta.
    assert (Hcls : RecipeViewSet.get_serializer_class
                     (if partial then RecipeViewSet.partial_update_action
                      else RecipeViewSet.update_action)
                   = RecipeDetailSerializerClass) by by destruct partial.
    rewrite Hcls, Hvalid. unfold serializer_save.
    destruct (update_several k (request_user request) instance vd
                names name db Htwo) as (e & He & H500); [|done|].
    { by eapply is_valid_get. }
    destruct (RecipeSerializer.update _ _ _ db) as [[r|e'] db']; simpl in He;
      [done|].
    by injection He as ->. }
  split; [exact Hcreate|]. split; [exact Hupdate|]. split.
  - destruct (is_valid run_validation RecipeDetailSerializerClass false
                (request_data request)) as [errors|vd] eqn:Hvalid.
    + unfold dispatch, RecipeViewSet.create.
      change (RecipeViewSet.get_serializer_class RecipeViewSet.create_action)
        with RecipeDetailSerializerClass.
      by rewrite Hvalid.
    + by rewrite (Hcreate vd).
  - intros partial pk.
    pose proof (get_object_store request pk db) as Hstore.
    destruct (RecipeViewSet.get_object request pk db) as [[instance|e] db1]
      eqn:Hobj; simpl in Hstore; subst db1.
    2: { unfold dispatch, RecipeViewSet.update, bind. rewrite Hobj.
         by destruct e. }
    destruct (is_valid run_validation RecipeDetailSerializerClass partial
                (request_data request)) as [errors|vd] eqn:Hvalid.
    + unfold dispatch, RecipeViewSet.update, bind. rewrite Hobj. cbv zeta.
      assert (Hcls : RecipeViewSet.get_serializer_class
                       (if partial then RecipeViewSet.partial_update_action
                        else RecipeViewSet.update_action)
                     = RecipeDetailSerializerClass) by by destruct partial.
      by rewrite Hcls, Hvalid.
    + by rewrite (Hupdate partial pk instance vd).
Qed.

Lemma duplicate_rows_break_writes_witness :
  (2 ≤ List.length (rows_named KTag 7 "vegan" renamed_db))%nat ∧
  (dispatch (RecipeViewSet.update sample_validation true
               (mkRequest 7 [] [("tags", VSpecs ["dinner"; "vegan"])]) 1)
            renamed_db).1
    = mkResponse HTTP_500_INTERNAL_SERVER_ERROR DataNone.
Proof.
  assert (Htwo : (2 ≤ List.length (rows_named KTag 7 "vegan" renamed_db))%nat)
    by (vm_compute; lia).
  split; [exact Htwo|].
  refine (proj1 (proj2 (duplicate_rows_break_writes sample_validation KTag
                          (mkRequest 7 [] [("tags", VSpecs ["dinner"; "vegan"])])
                          "vegan" ["dinner"; "vegan"]
                          (VSpecs ["dinner"; "vegan"]) renamed_db
                          Htwo eq_refl eq_refl _))
                true 1 curry [("tags", VSpecs ["dinner"; "vegan"])] _ _).
  - apply list_elem_of_further, list_elem_of_here.
  - vm_compute; reflexivity.
  - vm_compute; reflexivity.
Defined.

(** * The ids of a query parameter *)

Lemma split_not_nil sep s : split sep s ≠ [].
Proof.
  destruct s as [|c s]; [done|]. simpl.
  case_decide; [done|]. by destruct (split sep s).
Qed.

Lemma split_append sep s1 s2 :
  split sep (s1 +:+ String sep s2) = split sep s1 ++ split sep s2.
Proof.
  induction s1 as [|c s1 IH]; simpl.
  - by rewrite decide_True.
  - case_decide; [by rewrite IH|].
    rewrite IH. pose proof (split_not_nil sep s1).
    by destruct (split sep s1).
Qed.

Lemma mapM_app_option {A B} (f : A → option B) l1 l2 :
  mapM f (l1 ++ l2) =
  match mapM f l1, mapM f l2 with
  | Some k1, Some k2 => Some (k1 ++ k2)
  | _, _ => None
  end.
Proof.
  induction l1 as [|x l1 IH]; simpl.
  - by destruct (mapM f l2).
  - destruct (f x) as [y|]; simpl; [|done].
    rewrite IH. by destruct (mapM f l1), (mapM f l2).
Qed.

(** X12. The ids of a parameter are read segment by segment: a parameter
    made of two parts with a comma between them gives the ids of the first
    part followed by the ids of the second when both parts are read, and
    raises [ValueError] when one of them is not.  The empty text is not
    read, so a parameter that begins or ends with a comma raises, and the
    list of ids that is returned is never empty.  The store is not
    touched. *)
Theorem params_to_ints_at_commas db :
  (∀ s1 s2,
     RecipeViewSet._params_to_ints (s1 +:+ "," +:+ s2) db =
     match RecipeViewSet._params_to_ints s1 db,
           RecipeViewSet._params_to_ints s2 db with
     | (Return ids1, _), (Return ids2, _) => (Return (ids1 ++ ids2), db)
     | _, _ => (Raise ValueError, db)
     end) ∧
  RecipeViewSet._params_to_ints "" db = (Raise ValueError, db) ∧
  (∀ s, RecipeViewSet._params_to_ints (s +:+ ",") db = (Raise ValueError, db) ∧
        RecipeViewSet._params_to_ints ("," +:+ s) db
          = (Raise ValueError, db)) ∧
  (∀ s ids db',
     RecipeViewSet._params_to_ints s db = (Return ids, db') →
     ids ≠ [] ∧ db' = db).
Proof.
  assert (Hcomp : ∀ s1 s2,
     RecipeViewSet._params_to_ints (s1 +:+ "," +:+ s2) db =
     match RecipeViewSet._params_to_ints s1 db,
           RecipeViewSet._params_to_ints s2 db with
     | (Return ids1, _), (Return ids2, _) => (Return (ids1 ++ ids2), db)
     | _, _ => (Raise ValueError, db)
     end).
  { intros s1 s2. unfold RecipeViewSet._params_to_ints.
    change ("," +:+ s2) with (String ","%char s2).
    rewrite split_append, mapM_app_option.
    destruct (mapM int (split "," s1)), (mapM int (split "," s2)); done. }
  assert (Hempty : RecipeViewSet._params_to_ints "" db
                   = (Raise ValueError, db)) by done.
  split; [exact Hcomp|]. split; [exact Hempty|]. split.
  - intros s. split.
    + change (s +:+ ",") with (s +:+ "," +:+ "").
      rewrite (Hcomp s ""), Hempty.
      by destruct (RecipeViewSet._params_to_ints s db) as [[?|?] ?].
    + change ("," +:+ s) with ("" +:+ "," +:+ s).
      by rewrite (Hcomp "" s), Hempty.
  - intros s ids db'. unfold RecipeViewSet._params_to_ints.
    destruct (mapM int (split "," s)) as [ids'|] eqn:Hm; [|done].
    unfold ret. intros [= <- <-]. split; [|done].
    intros ->. apply length_mapM in Hm. simpl in Hm.
    pose proof (split_not_nil ","%char s).
    by destruct (split "," s).
Qed.

(** * The same update once more *)

(** The loop on a table where every name has its row: no row is made, and
    the links added are those of the recipe to the rows of the names. *)
Lemma reconcile_found k u r names db :
  (∀ name, name ∈ names → ∃ a, rows_named k u name db = [a]) →
  ∃ db',
    reconcile k u names r db = (Return tt, db') ∧
    only_table k db db' ∧
    rows (table k db') = rows (table k db) ∧
    next_id (table k db') = next_id (table k db) ∧
    ∀ l, l ∈ links (table k db') ↔
         l ∈ links (table k db) ∨
         ∃ name a, name ∈ names ∧ rows_named k u name db = [a] ∧
                   l = (recipe_id r, attr_id a).
Proof.
  revert db. induction names as [|name names IH]; intros db Hall.
  { exists db. split_and!; try done; [apply only_table_refl|].
    intros l. split; [by left|]. intros [?|(? & ? & []%elem_of_nil & _)].
    done. }
  rewrite reconcile_cons.
  destruct (Hall name) as [a Ha]; [by left|].
  rewrite (link_spec_found _ _ _ _ _ _ Ha).
  set (db1 := set_table k _ db).
  assert (Hrows1 : rows (table k db1) = rows (table k db))
    by (unfold db1; by rewrite table_set_table).
  assert (Hnamed : ∀ name', rows_named k u name' db1 = rows_named k u name' db)
    by (intros name'; unfold rows_named; by rewrite Hrows1).
  destruct (IH db1) as (db' & Hrun & Honly & Hrows & Hnext & Hlinks).
  { intros name' Hname'. rewrite Hnamed. apply Hall. by right. }
  exists db'. split_and!.
  - done.
  - eapply only_table_trans; [apply only_table_set|exact Honly].
  - by rewrite Hrows.
  - rewrite Hnext. unfold db1. by rewrite table_set_table.
  - intros l. rewrite Hlinks. unfold db1 at 1. rewrite table_set_table.
    simpl. rewrite elem_of_add_link. split.
    + intros [[->|Hl]|(name' & a' & Hname' & Ha' & ->)].
      * right. exists name, a. split_and!; [by left|done|done].
      * by left.
      * right. exists name', a'. rewrite Hnamed in Ha'.
        split_and!; [by right|done|done].
    + intros [Hl|(name' & a' & [->|Hname']%elem_of_cons & Ha' & ->)].
      * left. by right.
      * left. left. congruence.
      * right. exists name', a'. by rewrite Hnamed.
Qed.

Lemma phase_again k u inst inst' v dba dbb dbc :
  phase k u inst v dba = (Return tt, dbb) →
  table k dbc = table k dbb →
  recipe_id inst' = recipe_id inst →
  ∃ dbd,
    phase k u inst' v dbc = (Return tt, dbd) ∧
    only_table k dbc dbd ∧
    rows (table k dbd) = rows (table k dbc) ∧
    next_id (table k dbd) = next_id (table k dbc) ∧
    ∀ rid i, i ∈ related_ids k rid dbd ↔ i ∈ related_ids k rid dbc.
Proof.
  intros Hfirst Htable Hid.
  destruct (decide (v = VNone)) as [->|Hv].
  { rewrite phase_absent. exists dbc.
    split_and!; try done. apply only_table_refl. }
  assert (Hnames : ∃ names, v = VSpecs names).
  { unfold phase in Hfirst. rewrite decide_True in Hfirst by done.
    unfold bind in Hfirst. simpl in Hfirst.
    destruct (get_or_create_of k u v inst _) as [[[]|e] db0] eqn:Hrun;
      [|done].
    apply get_or_create_of_returns in Hrun as (names & -> & _).
    by exists names. }
  destruct Hnames as [names ->].
  apply phase_specs_returns in Hfirst as Hrec.
  pose proof (related_ids_cleared k inst dba (recipe_id inst)) as Hclear.
  rewrite decide_True in Hclear by done.
  pose proof (reconciled_exact _ _ _ _ _ _ Hrec Hclear) as Hexact.
  pose proof (rec_unique _ _ _ _ _ _ Hrec) as Huniq.
  set (dbc' := (related_clear k inst' dbc).2).
  assert (Hrowsc : rows (table k dbc') = rows (table k dbb)).
  { unfold dbc', related_clear. simpl. rewrite table_set_table. simpl.
    by rewrite Htable. }
  assert (Hnamed : ∀ name, rows_named k u name dbc' = rows_named k u name dbb)
    by (intros name; unfold rows_named; by rewrite Hrowsc).
  destruct (reconcile_found k u inst' names dbc')
    as (dbd & Hrun & Honly & Hrows & Hnext & Hlinks).
  { intros name Hname. rewrite Hnamed. by apply Huniq. }
  exists dbd. split_and!.
  - unfold phase. rewrite decide_True by done. unfold bind. simpl.
    by rewrite get_or_create_of_specs.
  - eapply only_table_trans; [apply related_clear_only_table|exact Honly].
  - rewrite Hrows, Hrowsc. by rewrite Htable.
  - rewrite Hnext. unfold dbc', related_clear. simpl.
    by rewrite table_set_table.
  - intros rid i. rewrite !related_ids_elem_of, Hlinks.
    unfold dbc' at 1. unfold related_clear. simpl. rewrite table_set_table.
    simpl. rewrite list_elem_of_filter. simpl. rewrite Hid, Htable.
    destruct (decide (rid = recipe_id inst)) as [->|Hrid].
    + rewrite <- related_ids_elem_of, Hexact. split.
      * intros [[? _]|(name & a & Hname & Ha & [= ->])]; [done|].
        rewrite Hnamed in Ha.
        assert (Hin : a ∈ rows_named k u name dbb)
          by (rewrite Ha; apply list_elem_of_here).
        apply rows_named_elem_of in Hin as [[Hu Hn] Hin].
        exists a. split_and!; [done|done|congruence|done].
      * intros (a & Ha & Hu & Hn & <-). right.
        destruct (Huniq _ Hn) as [a' Ha'].
        assert (Hin : a ∈ rows_named k u (attr_name a) dbb)
          by by apply rows_named_elem_of.
        rewrite Ha' in Hin. apply list_elem_of_singleton in Hin as ->.
        exists (attr_name a'), a'. by rewrite Hnamed.
    + split.
      * intros [[_ ?]|(name & a & _ & _ & [= ? _])]; done.
      * intros Hl. left. by split.
Qed.

(** X13. An update that returns can be run once more with the same
    validated data, on the store it has left: the second run returns as
    well, makes no tag row and no ingredient row, and leaves every recipe
    with the tags and the ingredients it has after the first run. *)
Theorem update_again_same_collections u inst inst' vd db inst1 db1 :
  RecipeSerializer.update u inst vd db = (Return inst1, db1) →
  recipe_id inst' = recipe_id inst →
  ∃ inst2 db2,
    RecipeSerializer.update u inst' vd db1 = (Return inst2, db2) ∧
    ∀ k, rows (table k db2) = rows (table k db1) ∧
         next_id (table k db2) = next_id (table k db1) ∧
         ∀ rid i, i ∈ related_ids k rid db2 ↔ i ∈ related_ids k rid db1.
Proof.
  intros (dba & dbb & Hp1 & Hp2 & Hsave)%update_returns Hid.
  pose proof (phase_only_table KTag u inst
                (default VNone (dict_get "tags" vd)) db) as Ho1.
  pose proof (phase_only_table KIngredient u inst
                (default VNone (dict_get "ingredients" vd)) dba) as Ho2.
  rewrite Hp1 in Ho1. rewrite Hp2 in Ho2. simpl in Ho1, Ho2.
  assert (Hs : ∀ k, table k db1 = table k dbb).
  { intros k.
    pose proof (keeps_table_save k
                  (setattrs inst (dict_del "ingredients" (dict_del "tags" vd)))
                  dbb) as Hk.
    by rewrite Hsave in Hk. }
  destruct (phase_again KTag u inst inst' _ db dba db1 Hp1)
    as (dbc & Hq1 & Hoc & Hrows1 & Hnext1 & Hlinks1); [|done|].
  { rewrite Hs. by apply (only_table_other KIngredient KTag). }
  destruct (phase_again KIngredient u inst inst' _ dba dbb dbc Hp2)
    as (dbd & Hq2 & Hod & Hrows2 & Hnext2 & Hlinks2); [|done|].
  { rewrite (only_table_other KTag KIngredient db1 dbc) by done. apply Hs. }
  destruct (save_returns
              (setattrs inst' (dict_del "ingredients" (dict_del "tags" vd)))
              dbd) as (inst2 & db2 & Hsave2 & _ & _ & _ & Htab & _).
  exists inst2, db2. split.
  - rewrite update_eq. unfold bind. by rewrite Hq1, Hq2.
  - assert (Htag : table KTag dbd = table KTag dbc)
      by by apply (only_table_other KIngredient KTag).
    assert (Hingr : table KIngredient dbc = table KIngredient db1)
      by by apply (only_table_other KTag KIngredient).
    intros [|].
    + rewrite (Htab KTag), Htag. split_and!; [done|done|].
      intros rid i.
      rewrite (related_ids_table KTag rid dbd db2 (Htab KTag)).
      rewrite (related_ids_table KTag rid dbc dbd Htag). apply Hlinks1.
    + rewrite (Htab KIngredient), Hrows2, Hnext2, Hingr.
      split_and!; [done|done|].
      intros rid i.
      rewrite (related_ids_table KIngredient rid dbd db2 (Htab KIngredient)).
      rewrite Hlinks2. by rewrite (related_ids_table KIngredient rid db1 dbc).
Qed.

Lemma update_again_same_collections_witness :
  ∃ inst1 db1 inst2 db2,
    RecipeSerializer.update 7 curry
      [("tags", VSpecs ["vegan"; "spicy"]); ("title", VStr "green curry")]
      sample_db = (Return inst1, db1) ∧
    RecipeSerializer.update 7 inst1
      [("tags", VSpecs ["vegan"; "spicy"]); ("title", VStr "green curry")]
      db1 = (Return inst2, db2) ∧
    rows (table KTag db2) = rows (table KTag db1).
Proof.
  eexists _, _.
  lazymatch goal with
  | |- ∃ inst2 db2, ?u1 = (Return ?inst1, ?db1) ∧ _ =>
      assert (Hfirst : u1 = (Return inst1, db1)) by (vm_compute; reflexivity)
  end.
  destruct (update_again_same_collections 7 curry _
              [("tags", VSpecs ["vegan"; "spicy"]);
               ("title", VStr "green curry")] sample_db _ _ Hfirst eq_refl)
    as (inst2 & db2 & Hsecond & Hsame).
  exists inst2, db2. split; [exact Hfirst|]. split; [exact Hsecond|].
  exact (proj1 (Hsame KTag)).
Defined.

(** * Links join a recipe and a row of one owner *)

Lemma table_consistent_frame k db db' :
  table k db' = table k db →
  (∀ r', r' ∈ recipes db' →
     (∃ r, r ∈ recipes db ∧ recipe_id r = recipe_id r' ∧
           recipe_user r = recipe_user r') ∨
     (∀ l, l ∈ links (table k db) → l.1 ≠ recipe_id r')) →
  attr_well_formed k db ∧ links_owned k db →
  attr_well_formed k db' ∧ links_owned k db'.
Proof.
  intros Ht Hrs [Hwf Hown]. unfold attr_well_formed, links_owned.
  rewrite Ht. split; [exact Hwf|].
  intros l r' a Hl Hr' Ha Hrid Haid.
  destruct (Hrs r' Hr') as [(r & Hr & Hid & Hu)|Hnone].
  - rewrite <- Hu. apply (Hown l r a); congruence.
  - destruct (Hnone l Hl). done.
Qed.

Lemma table_consistent_same k db db' :
  table k db' = table k db → recipes db' = recipes db →
  attr_well_formed k db ∧ links_owned k db →
  attr_well_formed k db' ∧ links_owned k db'.
Proof.
  intros Ht Hrs. apply table_consistent_frame; [done|].
  rewrite Hrs. intros r Hr. left. by exists r.
Qed.

Lemma add_link_consistent k t a0 u r db :
  attr_well_formed k db ∧ links_owned k db →
  owned_by u (recipe_id r) db →
  rows t = rows (table k db) → next_id t = next_id (table k db) →
  links t = add_link (recipe_id r, attr_id a0) (links (table k db)) →
  a0 ∈ rows (table k db) → attr_user a0 = u →
  attr_well_formed k (set_table k t db) ∧ links_owned k (set_table k t db).
Proof.
  intros [(Hnd & Hlt & Hll) Hown] Howned Hrows Hnext Hlinks Ha0 Hu0.
  unfold attr_well_formed, links_owned.
  rewrite table_set_table, recipes_set_table, Hrows, Hnext, Hlinks.
  split; [split_and!; [done|done|]|].
  - intros l [->|Hl]%elem_of_add_link; [by apply Hlt|by apply Hll].
  - intros l r0 a [->|Hl]%elem_of_add_link Hr0 Ha Hrid Haid.
    + simpl in *.
      rewrite (NoDup_fmap_eq attr_id (rows (table k db)) a a0 Hnd Ha Ha0 Haid).
      rewrite Hu0. symmetry. by apply Howned.
    + by apply (Hown l).
Qed.

Lemma link_spec_consistent k u r name db :
  attr_well_formed k db ∧ links_owned k db →
  owned_by u (recipe_id r) db →
  attr_well_formed k (link_spec k u r name db).2 ∧
  links_owned k (link_spec k u r name db).2.
Proof.
  intros Hok Howned.
  destruct (rows_named k u name db) as [|a0 [|a2 more]] eqn:Hnamed.
  - rewrite (link_spec_created _ _ _ _ _ Hnamed). simpl.
    destruct Hok as [(Hnd & Hlt & Hll) Hown].
    set (n := next_id (table k db)).
    unfold attr_well_formed, links_owned.
    rewrite table_set_table, recipes_set_table. simpl.
    split; [split_and!|].
    + rewrite fmap_app. simpl. apply NoDup_app. split_and!.
      * done.
      * intros i (a & -> & Ha)%list_elem_of_fmap Hi.
        apply list_elem_of_singleton in Hi. specialize (Hlt a Ha).
        fold n in Hlt. lia.
      * apply NoDup_singleton.
    + intros a [Ha| ->%list_elem_of_singleton]%elem_of_app.
      * specialize (Hlt a Ha). fold n in Hlt. lia.
      * simpl. lia.
    + intros l [->|Hl]%elem_of_add_link.
      * simpl. lia.
      * specialize (Hll l Hl). fold n in Hll. lia.
    + intros l r0 a [->|Hl]%elem_of_add_link Hr0
             [Ha| ->%list_elem_of_singleton]%elem_of_app Hrid Haid;
        simpl in *.
      * specialize (Hlt a Ha). fold n in Hlt. lia.
      * symmetry. by apply Howned.
      * by apply (Hown l).
      * specialize (Hll l Hl). fold n in Hll. lia.
  - rewrite (link_spec_found _ _ _ _ _ _ Hnamed). simpl.
    assert (Hin : a0 ∈ rows_named k u name db)
      by (rewrite Hnamed; apply list_elem_of_here).
    apply rows_named_elem_of in Hin as [[Hu0 _] Ha0].
    by apply (add_link_consistent k _ a0 u r db).
  - by rewrite (link_spec_several _ _ _ _ _ _ _ _ Hnamed).
Qed.

Lemma link_spec_tables_consistent k u r name db :
  tables_consistent db → owned_by u (recipe_id r) db →
  tables_consistent (link_spec k u r name db).2.
Proof.
  intros Hok Howned k'.
  destruct (decide (k' = k)) as [->|Hne].
  - by apply link_spec_consistent.
  - pose proof (link_spec_only_table k u r name db) as Honly.
    apply (table_consistent_same k' db); [| |apply Hok].
    + by apply (only_table_other k k').
    + by apply (only_table_recipes k).
Qed.

Lemma owned_by_recipes u rid db db' :
  recipes db' = recipes db → owned_by u rid db → owned_by u rid db'.
Proof. unfold owned_by. by intros ->. Qed.

Lemma reconcile_tables_consistent k u r names db :
  tables_consistent db → owned_by u (recipe_id r) db →
  tables_consistent (reconcile k u names r db).2.
Proof.
  revert db. induction names as [|name names IH]; intros db Hok Howned.
  { done. }
  rewrite reconcile_cons.
  pose proof (link_spec_tables_consistent k u r name db Hok Howned) as Hok1.
  pose proof (link_spec_only_table k u r name db) as Honly.
  destruct (link_spec k u r name db) as [[[]|e] db1]; simpl in *; [|done].
  apply IH; [done|].
  apply (owned_by_recipes _ _ db); [|done].
  by apply (only_table_recipes k).
Qed.

Lemma get_or_create_of_tables_consistent k u v r db :
  tables_consistent db → owned_by u (recipe_id r) db →
  tables_consistent (get_or_create_of k u v r db).2.
Proof.
  intros Hok Howned.
  destruct (value_specs_or_not v) as [[names ->]|Hv].
  - rewrite get_or_create_of_specs. by apply reconcile_tables_consistent.
  - by rewrite get_or_create_of_not_specs.
Qed.

Lemma related_clear_tables_consistent k r db :
  tables_consistent db → tables_consistent (related_clear k r db).2.
Proof.
  intros Hok k'.
  destruct (decide (k' = k)) as [->|Hne].
  - destruct (Hok k) as [(Hnd & Hlt & Hll) Hown].
    unfold related_clear, attr_well_formed, links_owned. simpl.
    rewrite table_set_table, recipes_set_table. simpl.
    split; [split_and!; [done|done|]|].
    + intros l [_ Hl]%list_elem_of_filter. by apply Hll.
    + intros l r0 a [_ Hl]%list_elem_of_filter. by apply Hown.
  - pose proof (related_clear_only_table k r db) as Honly.
    apply (table_consistent_same k' db); [| |apply Hok].
    + by apply (only_table_other k k').
    + by apply (only_table_recipes k).
Qed.

Lemma phase_tables_consistent k u inst v db :
  tables_consistent db → owned_by u (recipe_id inst) db →
  tables_consistent (phase k u inst v db).2.
Proof.
  intros Hok Howned. unfold phase. case_decide; [|done].
  unfold bind. simpl.
  apply get_or_create_of_tables_consistent.
  - by apply related_clear_tables_consistent.
  - apply (owned_by_recipes _ _ db); [|done].
    apply (only_table_recipes k), related_clear_only_table.
Qed.

Lemma owned_by_instance u inst db :
  well_formed db → inst ∈ recipes db → recipe_user inst = u →
  owned_by u (recipe_id inst) db.
Proof.
  intros (Hnd & _) Hinst Hu r Hr Hid.
  by rewrite (NoDup_fmap_eq recipe_id (recipes db) r inst Hnd Hr Hinst Hid).
Qed.

Lemma owners_kept_tables_consistent db db' :
  owners_kept None db db' → (∀ k, table k db' = table k db) →
  tables_consistent db → tables_consistent db'.
Proof.
  intros (_ & _ & Hrows) Ht Hok k.
  apply (table_consistent_frame k db); [done| |apply Hok].
  intros r' [Hold|[? _]]%Hrows; [by left|done].
Qed.

Lemma save_setattrs_tables_consistent inst (d : dict) db :
  well_formed db → inst ∈ recipes db → "user" ∉ d.*1 →
  tables_consistent db →
  tables_consistent (save (setattrs inst d) db).2.
Proof.
  intros Hwf Hinst Hd.
  apply owners_kept_tables_consistent.
  - by apply save_setattrs_owners_kept.
  - intros k. apply keeps_table_save.
Qed.

Lemma update_tables_consistent u inst (vd : dict) db :
  well_formed db → tables_consistent db →
  inst ∈ recipes db → recipe_user inst = u → "user" ∉ vd.*1 →
  tables_consistent (RecipeSerializer.update u inst vd db).2.
Proof.
  intros Hwf Hok Hinst Hu Hvd.
  pose proof (owned_by_instance u inst db Hwf Hinst Hu) as Howned.
  assert (Hrid : recipe_id inst < next_recipe_id db)
    by (destruct Hwf as (_ & Hlt & _); by apply Hlt).
  rewrite update_eq. unfold bind at 1.
  pose proof (phase_links_at KTag u inst
                (default VNone (dict_get "tags" vd)) db) as H1.
  pose proof (phase_tables_consistent KTag u inst
                (default VNone (dict_get "tags" vd)) db Hok Howned) as Hok1.
  destruct (phase KTag _ _ _ db) as [[[]|e1] db1]; simpl in H1, Hok1;
    [|done].
  assert (Howned1 : owned_by u (recipe_id inst) db1).
  { apply (owned_by_recipes _ _ db); [|done]. by destruct H1. }
  unfold bind at 1.
  pose proof (phase_links_at KIngredient u inst
                (default VNone (dict_get "ingredients" vd)) db1) as H2.
  pose proof (phase_tables_consistent KIngredient u inst
                (default VNone (dict_get "ingredients" vd)) db1 Hok1 Howned1)
    as Hok2.
  pose proof (links_at_trans _ _ _ _ H1 H2) as H12.
  destruct (phase KIngredient _ _ _ db1) as [[[]|e2] db2];
    simpl in H2, H12, Hok2; [|done].
  pose proof (links_at_owners_kept None _ _ _ Hwf Hrid H12) as (Hwf2 & _).
  apply save_setattrs_tables_consistent; [done| | |done].
  - destruct H12 as (-> & _). done.
  - intros Hkey. apply Hvd. by do 2 apply dict_del_keys in Hkey.
Qed.

Lemma create_tables_consistent u (vd : dict) db :
  well_formed db → tables_consistent db →
  "user" ∈ vd.*1 → (∀ v, ("user", v) ∈ vd → v = VUser u) →
  tables_consistent (RecipeSerializer.create u vd db).2.
Proof.
  intros Hwf Hok Hkey Hval.
  pose proof (create_cases u vd db) as Hc.
  destruct (Recipe_objects_create_cases
              (dict_del "ingredients" (dict_del "tags" vd)) db)
    as [[e He]|(r & db1 & Hnew & _ & Hid & Hu & Hrows & _ & Htab)].
  { rewrite He in Hc. by rewrite Hc. }
  rewrite Hnew in Hc.
  assert (Hur : recipe_user r = u).
  { rewrite Hu. apply setattrs_user_set.
    - by do 2 (apply dict_del_key_ne; [done|]).
    - intros v Hv. apply Hval. by do 2 apply dict_del_elem_of in Hv. }
  destruct Hwf as (Hnd & Hlt & Hll).
  assert (Hok1 : tables_consistent db1).
  { intros k. apply (table_consistent_frame k db); [done| |apply Hok].
    rewrite Hrows.
    intros r' [Hr'| ->%list_elem_of_singleton]%elem_of_app.
    - left. by exists r'.
    - right. intros l Hl. specialize (Hll k l Hl). lia. }
  assert (Howned1 : owned_by u (recipe_id r) db1).
  { intros r0. rewrite Hrows.
    intros [Hr0| ->%list_elem_of_singleton]%elem_of_app Hid0; [|done].
    specialize (Hlt r0 Hr0). lia. }
  pose proof (get_or_create_of_tables_consistent KTag u
                (default (VSpecs []) (dict_get "tags" vd)) r db1 Hok1 Howned1)
    as Hok2.
  pose proof (get_or_create_of_links_at KTag u
                (default (VSpecs []) (dict_get "tags" vd)) r db1) as L1.
  destruct (get_or_create_of KTag u _ r db1) as [[[]|e] db2];
    simpl in Hok2, L1; [|by rewrite Hc].
  assert (Howned2 : owned_by u (recipe_id r) db2).
  { apply (owned_by_recipes _ _ db1); [|done]. by destruct L1. }
  pose proof (get_or_create_of_tables_consistent KIngredient u
                (default (VSpecs []) (dict_get "ingredients" vd)) r db2
                Hok2 Howned2) as Hok3.
  destruct (get_or_create_of KIngredient u _ r db2) as [[[]|e] db3];
    simpl in Hok3; by rewrite Hc.
Qed.

Lemma handle_tables_consistent run_validation c db :
  consistent db → tables_consistent (handle run_validation c db).2.
Proof.
  intros [Hwf Hok]. destruct c as [request|partial request pk|request pk];
    unfold handle; rewrite dispatch_store; simpl.
  - destruct (view_create_store run_validation request db)
      as [->|(vd & _ & -> & _)]; [done|].
    rewrite perform_create_eq. apply create_tables_consistent; [done|done| |].
    + apply dict_set_key.
    + apply dict_set_value.
  - destruct (view_update_store run_validation partial request pk db)
      as [->|(inst & vd & Hobj & Hvalid & ->)]; [done|].
    apply get_object_returns in Hobj as (_ & Hinst & _ & Hu).
    apply update_tables_consistent; [done|done|done|done|].
    intros Hkey. eapply user_not_writable.
    by eapply (is_valid_keys run_validation).
  - destruct (view_upload_store run_validation request pk db)
      as [->|(inst & vd & Hobj & Hvalid & ->)]; [done|].
    apply get_object_returns in Hobj as (_ & Hinst & _).
    apply save_setattrs_tables_consistent; [done|done| |done].
    intros Hkey. eapply user_not_writable.
    by eapply (is_valid_keys run_validation).
Qed.

Lemma attr_update_renamed k run_validation partial request pk db :
  NoDup (attr_id <$> rows (table k db)) →
  renamed k pk (request_user request) db
    (BaseRecipeArrtViewSet.update k run_validation partial request pk db).2.
Proof.
  intros Hnd. unfold BaseRecipeArrtViewSet.update, bind.
  destruct (attr_get_object_cases k request pk db)
    as [[e ->]|(inst & -> & Hinst & Hid & Hu)].
  { apply renamed_refl. }
  destruct (is_valid_fields _ _ _ _) as [errors|vd].
  { apply renamed_refl. }
  unfold bind, ret.
  destruct (attr_setattrs_id_user inst vd) as [Hid' Hu'].
  destruct (attr_save_renamed k inst
              (foldl (λ acc kv, attr_setattr acc kv.1 kv.2) inst vd) db)
    as [Hren _]; [done|done|done|done|].
  rewrite Hid, Hu in Hren.
  by destruct (attr_save k _ db) as [[a|e] db'].
Qed.

Lemma fmap_eq_counterpart {A B C} (f : A → B) (g : A → C) (l l' : list A) x' :
  f <$> l' = f <$> l → g <$> l' = g <$> l → x' ∈ l' →
  ∃ x, x ∈ l ∧ f x = f x' ∧ g x = g x'.
Proof.
  intros Hf Hg [i Hi]%list_elem_of_lookup_1.
  assert (Hfi : (f <$> l) !! i = Some (f x'))
    by (by rewrite <- Hf, list_lookup_fmap, Hi).
  assert (Hgi : (g <$> l) !! i = Some (g x'))
    by (by rewrite <- Hg, list_lookup_fmap, Hi).
  rewrite list_lookup_fmap in Hfi. rewrite list_lookup_fmap in Hgi.
  destruct (l !! i) as [x|] eqn:Hx; [|done].
  simpl in Hfi, Hgi. exists x. split_and!.
  - by eapply list_elem_of_lookup_2.
  - congruence.
  - congruence.
Qed.

Lemma renamed_tables_consistent k pk owner db db' :
  renamed k pk owner db db' →
  tables_consistent db → tables_consistent db'.
Proof.
  intros [Honly Hlinks Hnext Hids Howners _] Hok k'.
  destruct (decide (k' = k)) as [->|Hne].
  2: { apply (table_consistent_same k' db); [| |apply Hok].
       - by apply (only_table_other k k').
       - by apply (only_table_recipes k). }
  destruct (Hok k) as [(Hnd & Hlt & Hll) Hown].
  unfold attr_well_formed, links_owned.
  rewrite Hids, Hlinks, Hnext, (only_table_recipes k db db' Honly).
  split; [split_and!; [done| |done]|].
  - intros a' Ha'.
    destruct (fmap_eq_counterpart attr_id attr_user _ _ a' Hids Howners Ha')
      as (a & Ha & <- & _).
    by apply Hlt.
  - intros l r a' Hl Hr Ha' Hrid Haid.
    destruct (fmap_eq_counterpart attr_id attr_user _ _ a' Hids Howners Ha')
      as (a & Ha & Hida & <-).
    apply (Hown l r a); congruence.
Qed.

Lemma empty_db_consistent : consistent empty_db.
Proof.
  split; [apply empty_db_well_formed|].
  intros k. split; [split_and!|].
  - destruct k; apply NoDup_nil_2.
  - intros a Ha. by destruct k; apply elem_of_nil in Ha.
  - intros l Hl. by destruct k; apply elem_of_nil in Hl.
  - intros l r a Hl. by destruct k; apply elem_of_nil in Hl.
Qed.

(** X14. Every link joins a recipe and a tag (resp. an ingredient) of one
    owner, and the calls keep it so.  A store is consistent when the keys
    of each table are distinct and below its sequence, the links point at
    keys below the sequences, and a linked recipe and row have the same
    owner.  The empty store is consistent; a create, an update, a partial
    update and an upload of a recipe, and an update of a tag or of an
    ingredient, whatever their payload and their outcome, leave a
    consistent store consistent; so the store reached from the empty one by
    any calls on recipes is consistent, and no recipe in it carries a tag
    of another user. *)
Theorem links_join_one_owner run_validation :
  consistent empty_db ∧
  (∀ c db, consistent db → consistent (handle run_validation c db).2) ∧
  (∀ k partial request pk db,
     consistent db →
     consistent
       (dispatch (BaseRecipeArrtViewSet.update k run_validation partial
                    request pk) db).2) ∧
  (∀ calls k r a,
     let db := run run_validation calls empty_db in
     r ∈ recipes db → a ∈ rows (table k db) →
     attr_id a ∈ related_ids k (recipe_id r) db →
     attr_user a = recipe_user r).
Proof.
  assert (Hstep : ∀ c db,
            consistent db → consistent (handle run_validation c db).2).
  { intros c db Hc. split.
    - destruct Hc as [Hwf _].
      by destruct (handle_owners_kept run_validation c db Hwf).
    - by apply handle_tables_consistent. }
  assert (Hall : ∀ calls, consistent (run run_validation calls empty_db)).
  { induction calls as [|c calls IH] using rev_ind.
    - apply empty_db_consistent.
    - rewrite run_snoc. by apply Hstep. }
  split_and!.
  - apply empty_db_consistent.
  - exact Hstep.
  - intros k partial request pk db [Hwf Hok]. rewrite dispatch_store.
    destruct (Hok k) as [(Hnd & _) _].
    pose proof (attr_update_renamed k run_validation partial request pk db
                  Hnd) as Hren.
    split.
    + destruct Hwf as (Hr & Hlt & Hll).
      destruct Hren as [Honly Hlinks _ _ _ _].
      unfold well_formed.
      rewrite (only_table_recipes k _ _ Honly),
        (only_table_next_recipe_id k _ _ Honly).
      split_and!; [done|done|].
      intros k' l. destruct (decide (k' = k)) as [->|Hne].
      * rewrite Hlinks. apply Hll.
      * rewrite (only_table_other k k' _ _ ltac:(done) Honly). apply Hll.
    + by eapply renamed_tables_consistent.
  - intros calls k r a db Hr Ha Hl.
    destruct (Hall calls) as [_ Hok]. destruct (Hok k) as [_ Hown].
    apply related_ids_elem_of in Hl.
    by apply (Hown (recipe_id r, attr_id a) r a).
Qed.

Lemma sample_db_consistent : consistent sample_db.
Proof.
  split; [exact sample_db_well_formed|].
  intros k. split; [split_and!|].
  - apply (bool_decide_unpack _). by destruct k; vm_compute.
  - intros a Ha.
    destruct k; vm_compute in Ha;
      repeat (apply elem_of_cons in Ha as [->|Ha]); try done;
      by apply elem_of_nil in Ha.
  - intros l Hl.
    destruct k; vm_compute in Hl;
      repeat (apply elem_of_cons in Hl as [->|Hl]); try done;
      by apply elem_of_nil in Hl.
  - intros l r a Hl Hr Ha Hrid Haid.
    vm_compute in Hr.
    destruct k; vm_compute in Hl, Ha;
      repeat (apply elem_of_cons in Hl as [->|Hl]);
      try (by apply elem_of_nil in Hl);
      repeat (apply elem_of_cons in Hr as [->|Hr]);
      try (by apply elem_of_nil in Hr);
      repeat (apply elem_of_cons in Ha as [->|Ha]);
      try (by apply elem_of_nil in Ha); done.
Defined.

Lemma links_join_one_owner_witness :
  consistent sample_db ∧
  consistent
    (handle sample_validation
       (UpdateRecipe true
          (mkRequest 7 [] [("tags", VSpecs ["vegan"; "spicy"])]) 1)
       sample_db).2 ∧
  consistent
    (dispatch (BaseRecipeArrtViewSet.update KTag sample_validation true
                 (mkRequest 7 [] [("name", VStr "vegan")]) 2) sample_db).2.
Proof.
  destruct (links_join_one_owner sample_validation)
    as (_ & Hstep & Hrename & _).
  split; [exact sample_db_consistent|]. split.
  - exact (Hstep _ _ sample_db_consistent).
  - exact (Hrename _ _ _ _ _ sample_db_consistent).
Defined.

(** * A new recipe under its tags *)

Lemma create_linked k u (vd : dict) names db r db' a :
  RecipeSerializer.create u vd db = (Return r, db') →
  dict_get (spec_key k) vd = Some (VSpecs names) →
  a ∈ rows (table k db') → attr_user a = u → attr_name a ∈ names →
  attr_id a ∈ related_ids k (recipe_id r) db'.
Proof.
  intros (db1 & db2 & _ & Htags & Hingr)%create_returns Hget Ha Hu Hn.
  apply get_or_create_of_returns in Htags as (tags & Htv & Hrec1).
  apply get_or_create_of_returns in Hingr as (ingredients & Hiv & Hrec2).
  apply related_ids_elem_of.
  destruct k.
  - change (dict_get "tags" vd = Some (VSpecs names)) in Hget.
    rewrite Hget in Htv. injection Htv as <-.
    assert (Ht : table KTag db' = table KTag db2).
    { apply (only_table_other KIngredient KTag); [done|].
      by destruct Hrec2. }
    rewrite Ht. apply (rec_linked _ _ _ _ _ _ Hrec1); [|done|done].
    by rewrite <- Ht.
  - change (dict_get "ingredients" vd = Some (VSpecs names)) in Hget.
    rewrite Hget in Hiv. injection Hiv as <-.
    by apply (rec_linked _ _ _ _ _ _ Hrec2).
Qed.

(** X15. A recipe that was created with the name of a tag (resp. an
    ingredient) is found under that tag: after a create that answers 201,
    a listing of the same caller filtered on ids among which is the id of a
    row of the caller named in the payload returns, and the new recipe is
    in it. *)
Theorem created_recipe_found_by_tag run_validation request db r db' k v
    names a request' s ids :
  dispatch (RecipeViewSet.create run_validation request) db
    = (mkResponse HTTP_201_CREATED (DataRecipe r), db') →
  dict_get (spec_key k) (request_data request) = Some v →
  run_validation (spec_key k) v = Some (VSpecs names) →
  a ∈ rows (table k db') → attr_user a = request_user request →
  attr_name a ∈ names →
  request_user request' = request_user request →
  query_params request' = [(spec_key k, s)] → s ≠ EmptyString →
  mapM int (split ","%char s) = Some ids → attr_id a ∈ ids →
  ∃ rs, RecipeViewSet.get_queryset request' db' = (Return rs, db') ∧ r ∈ rs.
Proof.
  intros (vd & Hvalid & Hcreate)%view_create_returns Hv Hv' Ha Hu Hn
         Hsame Hparams Hs Hids Hin.
  rewrite perform_create_eq in Hcreate.
  destruct (spec_key_writable k) as [Hw Hne].
  assert (Hlinked : attr_id a ∈ related_ids k (recipe_id r) db').
  { apply (create_linked k _ _ names _ _ _ _ Hcreate); [|done|done|done].
    rewrite dict_get_set_ne by done. by eapply is_valid_get. }
  apply create_returns_owner in Hcreate as [Hur Hr].
  2: { apply dict_set_key. }
  2: { intros v0. apply dict_set_value. }
  assert (Hfilter : parse_filter (Some s) = Return (Some ids)).
  { unfold parse_filter. simpl. rewrite bool_decide_eq_true_2 by done.
    by rewrite Hids. }
  rewrite get_queryset_eq, Hparams.
  destruct k.
  - change (query_get "tags" [(spec_key KTag, s)]) with (Some s).
    change (query_get "ingredients" [(spec_key KTag, s)]) with (@None string).
    rewrite Hfilter.
    change (parse_filter None) with (Return (@None (list Z))).
    eexists. split; [done|].
    unfold distinct, order_by_desc_id, filter_user.
    rewrite elem_of_remove_dups, merge_sort_Permutation.
    rewrite list_elem_of_filter, !elem_of_apply_filter.
    split_and!; [congruence|done| |done].
    by exists (attr_id a).
  - change (query_get "tags" [(spec_key KIngredient, s)])
      with (@None string).
    change (query_get "ingredients" [(spec_key KIngredient, s)])
      with (Some s).
    rewrite Hfilter.
    change (parse_filter None) with (Return (@None (list Z))).
    eexists. split; [done|].
    unfold distinct, order_by_desc_id, filter_user.
    rewrite elem_of_remove_dups, merge_sort_Permutation.
    rewrite list_elem_of_filter, !elem_of_apply_filter.
    split_and!; [congruence|done|done|].
    by exists (attr_id a).
Qed.

Lemma created_recipe_found_by_tag_witness :
  ∃ r db',
    dispatch (RecipeViewSet.create sample_validation
                (mkRequest 7 [] [("title", VStr "soup");
                                 ("time_minutes", VInt 5);
                                 ("price", VDecimal 100);
                                 ("tags", VSpecs ["spicy"])])) sample_db
      = (mkResponse HTTP_201_CREATED (DataRecipe r), db') ∧
    mkAttr 4 "spicy" 7 ∈ rows (table KTag db') ∧
    ∃ rs, RecipeViewSet.get_queryset (mkRequest 7 [("tags", "4")] []) db'
            = (Return rs, db') ∧ r ∈ rs.
Proof.
  eexists _, _.
  split; [vm_compute; reflexivity|].
  split.
  { vm_compute. do 3 apply list_elem_of_further. apply list_elem_of_here. }
  lazymatch goal with
  | |- ∃ rs, RecipeViewSet.get_queryset _ ?db' = _ ∧ ?r ∈ rs =>
      apply (created_recipe_found_by_tag sample_validation
               (mkRequest 7 [] [("title", VStr "soup");
                                ("time_minutes", VInt 5);
                                ("price", VDecimal 100);
                                ("tags", VSpecs ["spicy"])])
               sample_db r db' KTag (VSpecs ["spicy"]) ["spicy"]
               (mkAttr 4 "spicy" 7) (mkRequest 7 [("tags", "4")] [])
               "4" [4])
  end.
  - vm_compute; reflexivity.
  - reflexivity.
  - reflexivity.
  - vm_compute. do 3 apply list_elem_of_further. apply list_elem_of_here.
  - reflexivity.
  - apply list_elem_of_here.
  - reflexivity.
  - reflexivity.
  - done.
  - vm_compute; reflexivity.
  - apply list_elem_of_here.
Defined.
